(** * The LLM invocation core of langchainjs: [BaseLLM] and the [OpenAI] adapter

    A shallow embedding of [langchain/src/llms/base.ts] (the caching
    facade [BaseLLM.generate], [_generateUncached]) and of the OpenAI
    adapter ([invocationParams], [_generate], [completionWithRetry], the
    PromptLayer subclass), followed by the properties of the
    specification that are stated about them.

    Promises are modelled in a small state-and-outcome monad: a
    computation takes the world (the module-level cache and the trace of
    effects issued so far) and settles as [Return], [Throw] or stays
    [Pending].  JavaScript objects are ordered lists of properties. *)

From Stdlib Require Import String Ascii List Arith Bool Lia PeanoNat.
From Stdlib Require Import DecimalString.
Import ListNotations.
Open Scope string_scope.
Open Scope list_scope.

Set Implicit Arguments.
Set Warnings "-register-all".

(** ** JavaScript values, as far as the code prints and inspects them *)

Module JS.

(** A number that the code only copies and prints is carried by its
    [ToString] form (["0.7"], ["256"]); the counts the code computes
    with ([n], [batchSize], [maxRetries], [bestOf]) are [nat]. *)
Definition number := string.

Inductive value : Type :=
| Undefined
| Null
| Bool (b : bool)
| Num (repr : number)
| Str (s : string)
| Arr (items : list value)
| Obj (fields : list (string * value)).

Definition object := list (string * value).

Definition of_nat (k : nat) : value :=
  Num (NilEmpty.string_of_uint (Nat.to_uint k)).

Definition of_strings (l : list string) : value := Arr (map Str l).

Definition of_option {A} (f : A -> value) (o : option A) : value :=
  match o with Some a => f a | None => Undefined end.

(** [ToString]; an array joins its elements with commas, [undefined] and
    [null] elements printing as the empty string. *)
Fixpoint ToString (v : value) : string :=
  match v with
  | Undefined => "undefined"
  | Null => "null"
  | Bool true => "true"
  | Bool false => "false"
  | Num r => r
  | Str s => s
  | Arr items =>
      String.concat ","
        (map (fun x => match x with
                       | Undefined | Null => ""
                       | _ => ToString x
                       end) items)
  | Obj _ => "[object Object]"
  end.

(** [ToBoolean]. *)
Definition truthy (v : value) : bool :=
  match v with
  | Undefined | Null => false
  | Bool b => b
  | Num r => negb ((r =? "0") || (r =? "NaN"))
  | Str s => negb (s =? "")
  | Arr _ | Obj _ => true
  end.

(** [a ?? b] *)
Definition nullish (v d : value) : value :=
  match v with Undefined | Null => d | _ => v end.

(** Property read [o.k]. *)
Fixpoint get (k : string) (o : object) : value :=
  match o with
  | [] => Undefined
  | (k', v) :: rest => if k' =? k then v else get k rest
  end.

(** Property write [o.k = v]: an existing property keeps its place, a new
    one goes last.  (JavaScript lists integer-like keys first; the one
    reader of the order, [llmStringKey], sorts the properties.) *)
Fixpoint set (k : string) (v : value) (o : object) : object :=
  match o with
  | [] => [(k, v)]
  | (k', v') :: rest =>
      if k' =? k then (k', v) :: rest else (k', v') :: set k v rest
  end.

(** Spread [{...target, ...source}]. *)
Definition spread (target source : object) : object :=
  fold_left (fun t kv => set (fst kv) (snd kv) t) source target.

(** [Object.entries(o)]: the array of [[key, value]] pairs. *)
Definition entries (o : object) : list value :=
  map (fun kv => Arr [Str (fst kv); snd kv]) o.

(** [Array.prototype.sort()] without a comparator: elements are ordered by
    their string forms, [undefined] elements last; the sort is stable. *)
Fixpoint insert_sorted (x : value) (l : list value) : list value :=
  match l with
  | [] => [x]
  | y :: rest =>
      if (ToString y <=? ToString x)%string then y :: insert_sorted x rest
      else x :: y :: rest
  end.

Definition is_undefined (v : value) : bool :=
  match v with Undefined => true | _ => false end.

Definition sort (l : list value) : list value :=
  fold_left (fun acc x => insert_sorted x acc)
            (filter (fun x => negb (is_undefined x)) l) []
  ++ filter is_undefined l.

End JS.

(** Two objects that are equal but for the value of the first property
    named [k]. *)
Inductive agree_except (k : string) : JS.object -> JS.object -> Prop :=
| agree_eq (o : JS.object) : agree_except k o o
| agree_at (v v' : JS.value) (o : JS.object) :
    agree_except k ((k, v) :: o) ((k, v') :: o)
| agree_cons (k' : string) (x : JS.value) (o o' : JS.object) :
    k' <> k -> agree_except k o o' ->
    agree_except k ((k', x) :: o) ((k', x) :: o').

(** ** Results *)

Definition error := string.

(** [CreateCompletionResponseChoicesInner]; every field is optional. *)
Record Choice := {
  choice_text : option string;
  choice_index : option nat;
  choice_logprobs : option JS.value;
  choice_finish_reason : option string;
}.

Record Generation := {
  text : string;
  finishReason : option string;
  logprobs : option JS.value;
}.

Record TokenUsage := {
  completionTokens : option nat;
  promptTokens : option nat;
  totalTokens : option nat;
}.

(** [LLMResult] as the adapter's [_generate] builds it.  [llmOutput] is
    absent or [{}] ([None]), or [{ tokenUsage }]. *)
Record LLMResult := {
  generations : list (list Generation);
  llmOutput : option TokenUsage;
}.

(** What [generate] resolves with.  On the cached path the object is
    assembled from the array of [cache.lookup] results and cast
    ([as LLMResult]): an entry is [null] ([None]) for a miss that was never
    filled. *)
Record GenerateResult := {
  result_generations : list (option (list Generation));
  result_llmOutput : option TokenUsage;
}.

Definition uncached_result (r : LLMResult) : GenerateResult :=
  {| result_generations := map Some (generations r);
     result_llmOutput := llmOutput r |}.

(** ** The world: module-level cache and the trace of effects *)

(** Modelled from the spec: [InMemoryCache] of [../cache.js], which is not
    among the sources.  Section 4.6: a store from a (prompt, signature)
    pair to a generation list, where [lookup] after [update] on the same
    pair returns the stored value until it is overwritten.  The prompt is
    optional because [generate] can pass [prompts[undefined]]. *)
Module InMemoryCache.

Definition key := (option string * string)%type.
Definition t := list (key * list Generation).

Definition key_eqb (a b : key) : bool :=
  match fst a, fst b with
  | Some p, Some q => (p =? q) && (snd a =? snd b)
  | None, None => snd a =? snd b
  | _, _ => false
  end.

Fixpoint lookup (prompt : option string) (llmKey : string) (c : t)
  : option (list Generation) :=
  match c with
  | [] => None
  | (k, v) :: rest =>
      if key_eqb k (prompt, llmKey) then Some v else lookup prompt llmKey rest
  end.

Definition update (prompt : option string) (llmKey : string)
           (v : list Generation) (c : t) : t :=
  ((prompt, llmKey), v) :: c.

End InMemoryCache.

Inductive effect :=
| ELookup (prompt llmKey : string)
| EUpdate (prompt : option string) (llmKey : string) (v : list Generation)
| ENetwork (request : JS.object)
| ETrack (request : JS.object)
| EStart (prompts : list string)
| EEnd (output : LLMResult)
| EError (message : string)
| ENewToken (token : string).

(** [store] is the [const cache = new InMemoryCache()] of base.ts, shared
    by every instance; it is never [null]. *)
Record World := {
  store : InMemoryCache.t;
  trace : list effect;
}.

Definition emit (e : effect) (w : World) : World :=
  {| store := store w; trace := trace w ++ [e] |}.

(** ** Promises *)

Inductive outcome (A : Type) :=
| Return (a : A)
| Throw (e : error)
| Pending.
Arguments Return {A} a.
Arguments Throw {A} e.
Arguments Pending {A}.

Definition Promise (A : Type) := World -> outcome A * World.

Definition ret {A} (a : A) : Promise A := fun w => (Return a, w).
Definition throw {A} (e : error) : Promise A := fun w => (Throw e, w).

Definition bind {A B} (m : Promise A) (k : A -> Promise B) : Promise B :=
  fun w =>
    match m w with
    | (Return a, w') => k a w'
    | (Throw e, w') => (Throw e, w')
    | (Pending, w') => (Pending, w')
    end.

(** [try { m } catch (err) { h err }] *)
Definition try_catch {A} (m : Promise A) (h : error -> Promise A) : Promise A :=
  fun w =>
    match m w with
    | (Throw e, w') => h e w'
    | r => r
    end.

Declare Scope promise_scope.
Delimit Scope promise_scope with promise.
Notation "x <- m ;; k" := (bind m (fun x => k))
  (at level 61, m at next level, right associativity) : promise_scope.
Notation "m ;;; k" := (bind m (fun _ => k))
  (at level 61, right associativity) : promise_scope.
Open Scope promise_scope.

Definition effect_ (e : effect) : Promise unit :=
  fun w => (Return tt, emit e w).

Definition cache_lookup (prompt llmKey : string)
  : Promise (option (list Generation)) :=
  fun w => (Return (InMemoryCache.lookup (Some prompt) llmKey (store w)),
            emit (ELookup prompt llmKey) w).

Definition cache_update (prompt : option string) (llmKey : string)
           (v : list Generation) : Promise unit :=
  fun w => (Return tt,
            {| store := InMemoryCache.update prompt llmKey v (store w);
               trace := trace w ++ [EUpdate prompt llmKey v] |}).

(** ** [BaseLLM] (base.ts) *)

(** The hooks of [LLMCallbackManager].  A hook is optional (the code calls
    it through [?.]); applied to its arguments it either returns ([None])
    or throws ([Some err]).  [handleNewToken] is called from inside the
    stream listener: the model records the call in the trace. *)
Record LLMCallbackManager := {
  handleStart : option (list string -> bool -> option error);
  handleEnd : option (LLMResult -> bool -> option error);
  handleError : option (string -> bool -> option error);
  handleNewToken : bool;
}.

Definition getCallbackManager : LLMCallbackManager :=
  {| handleStart := Some (fun _ _ => None);
     handleEnd := Some (fun _ _ => None);
     handleError := Some (fun _ _ => None);
     handleNewToken := false |}.

Definition getVerbosity : bool := true.

(** The [cache] argument of the constructor: left out, a boolean, or (the
    [OpenAI] constructor's type admits it) a [BaseCache] object. *)
Inductive CacheOption :=
| CacheUnset
| CacheFlag (b : bool)
| CacheBackend.

(** [this.cache === false] *)
Definition strictly_false (c : CacheOption) : bool :=
  match c with
  | CacheFlag false => true
  | _ => false
  end.

(** The fields of a [BaseLLM]; [concurrency = None] is [Infinity]. *)
Record BaseLLM := {
  callbackManager : LLMCallbackManager;
  verbose : bool;
  cache : CacheOption;
  concurrency : option nat;
}.

Definition default {A} (o : option A) (d : A) : A :=
  match o with Some a => a | None => d end.

(** The constructor.  Its last statement, [new PQueue({ concurrency })],
    throws a [TypeError] unless the bound is a number from 1 up; with the
    bound a natural number or [Infinity], that is for [concurrency: 0].
    (The check is p-queue's; the package is not among the sources.) *)
Definition BaseLLM_constructor (callbackManager : option LLMCallbackManager)
           (verbose : option bool) (concurrency : option nat)
           (cache : CacheOption) : error + BaseLLM :=
  match concurrency with
  | Some 0 =>
      inl ("TypeError: Expected `concurrency` to be a number from 1 and up, "
           ++ "got `0` (number)")%string
  | _ =>
      inr {| callbackManager := default callbackManager getCallbackManager;
             verbose := default verbose getVerbosity;
             cache := cache;
             concurrency := concurrency |}
  end.

(** A hook call [hook?.(args)]: nothing when the hook is absent, otherwise
    the call is recorded and its exception, if any, is thrown. *)
Definition notify (e : effect) (call : option (option error)) : Promise unit :=
  match call with
  | None => ret tt
  | Some r =>
      effect_ e ;;;
      match r with
      | None => ret tt
      | Some err => throw err
      end
  end.

(** [this.queue.add(task)] for a task submitted to an idle queue: it is
    admitted at once and the returned promise settles as the task does.
    The admission policy itself is [Limiter] below. *)
Definition queue_add {A} (task : Promise A) : Promise A := task.

(** [generations[i] = v] on a JS array: a write past the end extends the
    array with holes. *)
Fixpoint array_set {A} (i : nat) (v : A) (l : list (option A))
  : list (option A) :=
  match i, l with
  | 0, [] => [Some v]
  | 0, _ :: rest => Some v :: rest
  | S j, [] => None :: array_set j v []
  | S j, x :: rest => x :: array_set j v rest
  end.

Section BaseLLM_methods.

(** The abstract members, supplied by the subclass. *)
Variable this : BaseLLM.
Variable _generate : list string -> option (list string) -> Promise LLMResult.
Variable _identifyingParams : JS.object.
Variable _llmType : string.

(** The three hook calls of [_generateUncached]. *)
Definition start_hook (prompts : list string) : option (option error) :=
  option_map (fun h => h prompts (verbose this))
             (handleStart (callbackManager this)).

Definition error_hook (err : error) : option (option error) :=
  option_map (fun h => h err (verbose this))
             (handleError (callbackManager this)).

Definition end_hook (output : LLMResult) : option (option error) :=
  option_map (fun h => h output (verbose this))
             (handleEnd (callbackManager this)).

Definition _generateUncached (prompts : list string)
           (stop : option (list string)) : Promise LLMResult :=
  notify (EStart prompts) (start_hook prompts) ;;;
  output <-
    try_catch (queue_add (_generate prompts stop))
      (fun err =>
         notify (EError err) (error_hook err) ;;;
         throw err) ;;
  notify (EEnd output) (end_hook output) ;;;
  ret output.

Definition serialize : JS.object :=
  JS.set "_type" (JS.Str _llmType) (JS.spread [] _identifyingParams).

(** [const params = this.serialize(); params.stop = stop;
    `${Object.entries(params).sort()}`] *)
Definition llmStringKey (stop : option (list string)) : string :=
  let params := JS.set "stop" (JS.of_option JS.of_strings stop) serialize in
  JS.ToString (JS.Arr (JS.sort (JS.entries params))).

(** [prompts.map(async (prompt, index) => ...)]: the lookups are issued in
    prompt order. *)
Fixpoint lookup_all (prompts : list string) (key : string)
  : Promise (list (option (list Generation))) :=
  match prompts with
  | [] => ret []
  | prompt :: rest =>
      result <- cache_lookup prompt key ;;
      results <- lookup_all rest key ;;
      ret (result :: results)
  end.

(** The indices pushed onto [missingPromptIndices]: those whose lookup
    result is falsy, in index order. *)
Fixpoint missing_from (index : nat) (results : list (option (list Generation)))
  : list nat :=
  match results with
  | [] => []
  | None :: rest => index :: missing_from (S index) rest
  | Some _ :: rest => missing_from (S index) rest
  end.

(** [results.generations.map(async (generation, index) => ...)]: entry
    [index] goes to [missingPromptIndices[index]]; past the end of that
    list the index is [undefined], the array write sets a property that is
    no element, and the cache is updated under [prompts[undefined]]. *)
Fixpoint fill (prompts : list string) (key : string)
         (missingPromptIndices : list nat) (index : nat)
         (results : list (list Generation))
         (looked_up : list (option (list Generation)))
  : Promise (list (option (list Generation))) :=
  match results with
  | [] => ret looked_up
  | generation :: rest =>
      match nth_error missingPromptIndices index with
      | Some promptIndex =>
          cache_update (nth_error prompts promptIndex) key generation ;;;
          fill prompts key missingPromptIndices (S index) rest
               (array_set promptIndex generation looked_up)
      | None =>
          cache_update None key generation ;;;
          fill prompts key missingPromptIndices (S index) rest looked_up
      end
  end.

(** [generate].  The argument is typed as a list, so the [Array.isArray]
    test passes; the module-level [cache] is never [null], so neither
    [this.cache === true && cache === null] nor [cache === null] holds and
    only [this.cache === false] selects the uncached path.  A missing
    index is an index of [prompts], so [prompts[i]] is a string. *)
Definition generate (prompts : list string) (stop : option (list string))
  : Promise GenerateResult :=
  if strictly_false (cache this) then
    output <- _generateUncached prompts stop ;;
    ret (uncached_result output)
  else
    let key := llmStringKey stop in
    looked_up <- lookup_all prompts key ;;
    let missingPromptIndices := missing_from 0 looked_up in
    if (0 <? length missingPromptIndices)%nat then
      results <-
        _generateUncached
          (map (fun i => nth i prompts "") missingPromptIndices) stop ;;
      filled <-
        fill prompts key missingPromptIndices 0 (generations results)
             looked_up ;;
      ret {| result_generations := filled;
             result_llmOutput := llmOutput results |}
    else
      ret {| result_generations := looked_up;
             result_llmOutput := None |}.

End BaseLLM_methods.

(** ** Collaborators of the adapter that are not among the sources *)

(** Modelled from the spec: [chunkArray] of [../util/index.js], which is not
    among the sources.  Section 4.2: the list is split into fixed-size
    sub-batches preserving order, the last one possibly smaller. *)
Fixpoint chunkArray_fuel {A} (fuel : nat) (arr : list A) (chunkSize : nat)
  : list (list A) :=
  match fuel, arr with
  | 0, _ | _, [] => []
  | S f, _ :: _ =>
      firstn chunkSize arr :: chunkArray_fuel f (skipn chunkSize arr) chunkSize
  end.

Definition chunkArray {A} (arr : list A) (chunkSize : nat) : list (list A) :=
  match chunkSize with
  | 0 => []
  | S _ => chunkArray_fuel (length arr) arr chunkSize
  end.

(** Modelled from the spec: [backOff] of the exponential-backoff package.
    Section 4.4: the operation is attempted until it succeeds or the
    attempt count is exhausted, and on exhaustion the last error is
    surfaced unchanged.  The delays between attempts are not modelled; a
    count below one still makes the first attempt. *)
Fixpoint retry {A} (request : Promise A) (retriesLeft : nat) : Promise A :=
  match retriesLeft with
  | 0 => request
  | S k => try_catch request (fun _ => retry request k)
  end.

Definition backOff {A} (request : Promise A) (numOfAttempts : nat)
  : Promise A :=
  retry request (pred numOfAttempts).

(** The events [createParser] hands to its callback for one chunk of the
    response body: [event.type === "event"] with [event.data] either the
    sentinel ["[DONE]"] or a JSON payload, of which the code reads
    [choices]; or a reconnect-interval event. *)
Inductive EventData :=
| Done
| Delta (choices : list Choice).

Inductive ParsedEvent :=
| Event (data : EventData)
| ReconnectInterval.

(** What the response stream emits: ["data"] with a chunk, or ["error"]. *)
Inductive StreamItem :=
| Data (events : list ParsedEvent)
| StreamError (e : error).

(** A delta event whose payload has the one choice [part]. *)
Definition delta (part : Choice) : ParsedEvent := Event (Delta [part]).

Record Usage := {
  completion_tokens : nat;
  prompt_tokens : nat;
  total_tokens : nat;
}.

(** [response.data]: a [CreateCompletionResponse] ([choices], [usage]) or,
    when the request asked for a stream, the [IncomingMessage]; the model
    carries both readings. *)
Record CompletionData := {
  choices : list Choice;
  usage : option Usage;
  stream : list StreamItem;
}.

(** The outside world of an instance: the provider answers the [k]-th
    network call (counted over the whole trace) for a request; the
    PromptLayer endpoint accepts a tracking POST or fails it; the process
    environment may hold the API keys. *)
Record Environment := {
  network : nat -> JS.object -> outcome CompletionData;
  track_request : JS.object -> CompletionData -> option error;
  OPENAI_API_KEY : option string;
  PROMPTLAYER_API_KEY : option string;
}.

(** ** The [OpenAI] adapter *)

Record OpenAIFields := {
  f_callbackManager : option LLMCallbackManager;
  f_verbose : option bool;
  f_concurrency : option nat;
  f_cache : CacheOption;
  f_openAIApiKey : option string;
  f_modelName : option string;
  f_modelKwargs : option JS.object;
  f_batchSize : option nat;
  f_maxRetries : option nat;
  f_temperature : option JS.number;
  f_maxTokens : option JS.number;
  f_topP : option JS.number;
  f_frequencyPenalty : option JS.number;
  f_presencePenalty : option JS.number;
  f_n : option nat;
  f_bestOf : option nat;
  f_logitBias : option JS.object;
  f_stop : option (list string);
  f_streaming : option bool;
}.

(** [new OpenAI()] with no [fields]. *)
Definition no_fields : OpenAIFields :=
  {| f_callbackManager := None; f_verbose := None; f_concurrency := None;
     f_cache := CacheUnset; f_openAIApiKey := None; f_modelName := None;
     f_modelKwargs := None; f_batchSize := None; f_maxRetries := None;
     f_temperature := None; f_maxTokens := None; f_topP := None;
     f_frequencyPenalty := None; f_presencePenalty := None; f_n := None;
     f_bestOf := None; f_logitBias := None; f_stop := None;
     f_streaming := None |}.

Record OpenAI := {
  base : BaseLLM;
  temperature : JS.number;
  maxTokens : JS.number;
  topP : JS.number;
  frequencyPenalty : JS.number;
  presencePenalty : JS.number;
  n : nat;
  bestOf : nat;
  logitBias : option JS.object;
  modelName : string;
  modelKwargs : JS.object;
  batchSize : nat;
  maxRetries : nat;
  stop : option (list string);
  streaming : bool;
  clientConfig : JS.object;
}.

Definition nonempty (o : option string) : bool :=
  match o with
  | Some s => negb (s =? "")
  | None => false
  end.

Definition first_of {A} (a b : option A) : option A :=
  match a with Some _ => a | None => b end.

Definition OpenAI_constructor (env : Environment) (fields : OpenAIFields)
           (configuration : JS.object) : error + OpenAI :=
  match BaseLLM_constructor (f_callbackManager fields) (f_verbose fields)
                            (f_concurrency fields) (f_cache fields) with
  | inl e => inl e
  | inr super =>
      let apiKey := first_of (f_openAIApiKey fields) (OPENAI_API_KEY env) in
      if negb (nonempty apiKey) then inl "Error: OpenAI API key not found"
      else
        let n := default (f_n fields) 1 in
        let bestOf := default (f_bestOf fields) 1 in
        let streaming := default (f_streaming fields) false in
        if streaming && (1 <? n)%nat then
          inl "Error: Cannot stream results when n > 1"
        else if streaming && (1 <? bestOf)%nat then
          inl "Error: Cannot stream results when bestOf > 1"
        else
          inr {| base := super;
                 modelName := default (f_modelName fields) "text-davinci-003";
                 modelKwargs := default (f_modelKwargs fields) [];
                 batchSize := default (f_batchSize fields) 20;
                 maxRetries := default (f_maxRetries fields) 6;
                 temperature := default (f_temperature fields) "0.7";
                 maxTokens := default (f_maxTokens fields) "256";
                 topP := default (f_topP fields) "1";
                 frequencyPenalty := default (f_frequencyPenalty fields) "0";
                 presencePenalty := default (f_presencePenalty fields) "0";
                 n := n;
                 bestOf := bestOf;
                 logitBias := f_logitBias fields;
                 stop := f_stop fields;
                 streaming := streaming;
                 clientConfig :=
                   JS.spread [("apiKey", JS.of_option JS.Str apiKey)]
                             configuration |}
  end.

Definition invocationParams (this : OpenAI) : JS.object :=
  JS.spread
    [("model", JS.Str (modelName this));
     ("temperature", JS.Num (temperature this));
     ("max_tokens", JS.Num (maxTokens this));
     ("top_p", JS.Num (topP this));
     ("frequency_penalty", JS.Num (frequencyPenalty this));
     ("presence_penalty", JS.Num (presencePenalty this));
     ("n", JS.of_nat (n this));
     ("best_of", JS.of_nat (bestOf this));
     ("logit_bias", JS.of_option JS.Obj (logitBias this));
     ("stop", JS.of_option JS.of_strings (stop this));
     ("stream", JS.Bool (streaming this))]
    (modelKwargs this).

Definition _identifyingParams (this : OpenAI) : JS.object :=
  JS.spread
    (JS.spread [("model_name", JS.Str (modelName this))]
               (invocationParams this))
    (clientConfig this).

Definition _llmType : string := "openai".

Definition is_network (e : effect) : bool :=
  match e with ENetwork _ => true | _ => false end.

Definition count_network (t : list effect) : nat :=
  length (filter is_network t).

(** [const choice = {}] *)
Definition empty_choice : Choice :=
  {| choice_text := None; choice_index := None;
     choice_logprobs := None; choice_finish_reason := None |}.

Definition empty_usage : TokenUsage :=
  {| completionTokens := None; promptTokens := None; totalTokens := None |}.

(** [if (k) { total = (total ?? 0) + k }]: an absent or zero count is
    falsy and leaves the total as it is. *)
Definition add_tokens (total : option nat) (reported : option nat)
  : option nat :=
  match reported with
  | Some (S k) => Some (default total 0 + S k)
  | _ => total
  end.

Definition add_usage (tokenUsage : TokenUsage) (u : option Usage)
  : TokenUsage :=
  {| completionTokens :=
       add_tokens (completionTokens tokenUsage)
                  (option_map completion_tokens u);
     promptTokens :=
       add_tokens (promptTokens tokenUsage) (option_map prompt_tokens u);
     totalTokens :=
       add_tokens (totalTokens tokenUsage) (option_map total_tokens u) |}.

(** [part.text ?? ""] *)
Definition fragment (part : Choice) : string := default (choice_text part) "".

(** The accumulator after a delta whose first choice is [part]:
    [choice.text = (choice.text ?? "") + (part.text ?? "")], and the finish
    reason and log-probabilities are overwritten. *)
Definition absorb (choice part : Choice) : Choice :=
  {| choice_text :=
       Some (default (choice_text choice) "" ++ fragment part)%string;
     choice_index := choice_index choice;
     choice_logprobs := choice_logprobs part;
     choice_finish_reason := choice_finish_reason part |}.

Definition to_generation (choice : Choice) : Generation :=
  {| text := default (choice_text choice) "";
     finishReason := choice_finish_reason choice;
     logprobs := choice_logprobs choice |}.

Section OpenAI_methods.

Variable env : Environment.
Variable this : OpenAI.

(** One attempt: [this.client.createCompletion(request, ...)].  Loading the
    client library ([OpenAI.imports]) is taken to succeed. *)
Definition createCompletion (request : JS.object) : Promise CompletionData :=
  fun w => (network env (count_network (trace w)) request,
            emit (ENetwork request) w).

Definition completionWithRetry (request : JS.object) : Promise CompletionData :=
  backOff (createCompletion request) (maxRetries this).

(** The parser callback of the streaming branch, on the accumulator
    [choice] and the flag that [resolve(choice)] has been called. *)
Definition on_parse (event : ParsedEvent) (st : Choice * bool) (w : World)
  : (Choice * bool) * World :=
  match event with
  | ReconnectInterval => (st, w)
  | Event Done => ((fst st, true), w)
  | Event (Delta parts) =>
      match parts with
      | [] => (st, w)
      | part :: _ =>
          ((absorb (fst st) part, snd st),
           if handleNewToken (callbackManager (base this))
           then emit (ENewToken (fragment part)) w else w)
      end
  end.

(** [parser.feed(chunk)]: every event of the chunk reaches the callback. *)
Fixpoint feed (events : list ParsedEvent) (st : Choice * bool) (w : World)
  : (Choice * bool) * World :=
  match events with
  | [] => (st, w)
  | event :: rest =>
      let (st', w') := on_parse event st w in
      feed rest st' w'
  end.

(** The ["data"] listener after [resolve(choice)]: it is never removed,
    so the chunks that still arrive are fed to the parser as before, whose
    callback goes on writing to the object the promise was resolved with
    and calling the per-token hook.  A stream error ends the stream; its
    [reject] no longer has an effect. *)
Fixpoint drain (items : list StreamItem) (choice : Choice) (w : World)
  : Choice * World :=
  match items with
  | Data events :: rest =>
      let (st, w') := feed events (choice, true) w in
      drain rest (fst st) w'
  | _ => (choice, w)
  end.

(** The promise built around the stream: it resolves with the accumulator
    once a chunk carried the sentinel, rejects on a stream error, and
    stays pending when the stream ends with neither.  [stream data] lists
    what the body delivers before the caller reads the choice it awaited
    (for the text of the generations, at the end of [_generate]); the
    accumulator is one object, so what is read is its state after the last
    of these chunks. *)
Fixpoint read_stream (items : list StreamItem) (choice : Choice)
  : Promise Choice :=
  match items with
  | [] => fun w => (Pending, w)
  | Data events :: rest =>
      fun w =>
        let (st, w') := feed events (choice, false) w in
        if snd st then
          let (choice', w'') := drain rest (fst st) w' in
          (Return choice', w'')
        else read_stream rest (fst st) w'
  | StreamError e :: _ => throw e
  end.

Section Generate.

(** [this.completionWithRetry], which a subclass overrides. *)
Variable completionWithRetry_ : JS.object -> Promise CompletionData.

(** The body of [for (let i = 0; i < subPrompts.length; i += 1)]. *)
Fixpoint complete_all (params : JS.object) (subPrompts : list (list string))
         (acc : list Choice) (tokenUsage : TokenUsage)
  : Promise (list Choice * TokenUsage) :=
  match subPrompts with
  | [] => ret (acc, tokenUsage)
  | subPrompt :: rest =>
      data <- completionWithRetry_
                (JS.set "prompt" (JS.of_strings subPrompt) params) ;;
      acc' <-
        (if JS.truthy (JS.get "stream" params) then
           choice <- read_stream (stream data) empty_choice ;;
           ret (acc ++ [choice])
         else ret (acc ++ choices data)) ;;
      complete_all params rest acc' (add_usage tokenUsage (usage data))
  end.

Definition _generate (prompts : list string) (stop' : option (list string))
  : Promise LLMResult :=
  let subPrompts := chunkArray prompts (batchSize this) in
  match stop this, stop' with
  | Some _, Some _ => throw "Error: Stop found in input and default params"
  | _, _ =>
      let params := invocationParams this in
      let params :=
        JS.set "stop"
               (JS.nullish (JS.of_option JS.of_strings stop')
                           (JS.get "stop" params))
               params in
      r <- complete_all params subPrompts [] empty_usage ;;
      ret {| generations :=
               map (map to_generation) (chunkArray (fst r) (n this));
             llmOutput := Some (snd r) |}
  end.

End Generate.

(** [generate] of an [OpenAI] instance. *)
Definition OpenAI_generate : list string -> option (list string)
                             -> Promise GenerateResult :=
  generate (base this) (_generate completionWithRetry)
           (_identifyingParams this) _llmType.

Definition OpenAI_llmStringKey (stop' : option (list string)) : string :=
  llmStringKey (_identifyingParams this) _llmType stop'.

End OpenAI_methods.

(** ** [PromptLayerOpenAI] *)

Record PromptLayerOpenAI := {
  super : OpenAI;
  promptLayerApiKey : string;
  plTags : list string;
}.

Definition PromptLayerOpenAI_constructor (env : Environment)
           (fields : OpenAIFields) (f_promptLayerApiKey : option string)
           (f_plTags : option (list string)) : error + PromptLayerOpenAI :=
  match OpenAI_constructor env fields [] with
  | inl e => inl e
  | inr llm =>
      let key := first_of f_promptLayerApiKey (PROMPTLAYER_API_KEY env) in
      match key with
      | Some k =>
          if k =? "" then inl "Error: Missing PromptLayer API key"
          else inr {| super := llm; promptLayerApiKey := k;
                      plTags := default f_plTags [] |}
      | None => inl "Error: Missing PromptLayer API key"
      end
  end.

Section PromptLayerOpenAI_methods.

Variable env : Environment.
Variable this : PromptLayerOpenAI.

(** [await fetch("https://api.promptlayer.com/track-request", ...)] *)
Definition track (request : JS.object) (data : CompletionData)
  : Promise unit :=
  fun w =>
    (match track_request env request data with
     | None => Return tt
     | Some e => Throw e
     end, emit (ETrack request) w).

Definition PromptLayer_completionWithRetry (request : JS.object)
  : Promise CompletionData :=
  if JS.truthy (JS.get "stream" request) then
    completionWithRetry env (super this) request
  else
    response <- completionWithRetry env (super this) request ;;
    track request response ;;;
    ret response.

Definition PromptLayer_generate : list string -> option (list string)
                                  -> Promise GenerateResult :=
  generate (base (super this))
           (_generate (super this) PromptLayer_completionWithRetry)
           (_identifyingParams (super this)) _llmType.

End PromptLayerOpenAI_methods.

(** Field updates on [OpenAIFields], to write [{ streaming: true }] and the
    like. *)
Definition with_callbackManager (v : option LLMCallbackManager)
           (f : OpenAIFields) : OpenAIFields :=
  {| f_callbackManager := v; f_verbose := f_verbose f;
     f_concurrency := f_concurrency f; f_cache := f_cache f;
     f_openAIApiKey := f_openAIApiKey f; f_modelName := f_modelName f;
     f_modelKwargs := f_modelKwargs f; f_batchSize := f_batchSize f;
     f_maxRetries := f_maxRetries f; f_temperature := f_temperature f;
     f_maxTokens := f_maxTokens f; f_topP := f_topP f;
     f_frequencyPenalty := f_frequencyPenalty f;
     f_presencePenalty := f_presencePenalty f; f_n := f_n f;
     f_bestOf := f_bestOf f; f_logitBias := f_logitBias f;
     f_stop := f_stop f; f_streaming := f_streaming f |}.

Definition with_cache (v : CacheOption) (f : OpenAIFields) : OpenAIFields :=
  {| f_callbackManager := f_callbackManager f; f_verbose := f_verbose f;
     f_concurrency := f_concurrency f; f_cache := v;
     f_openAIApiKey := f_openAIApiKey f; f_modelName := f_modelName f;
     f_modelKwargs := f_modelKwargs f; f_batchSize := f_batchSize f;
     f_maxRetries := f_maxRetries f; f_temperature := f_temperature f;
     f_maxTokens := f_maxTokens f; f_topP := f_topP f;
     f_frequencyPenalty := f_frequencyPenalty f;
     f_presencePenalty := f_presencePenalty f; f_n := f_n f;
     f_bestOf := f_bestOf f; f_logitBias := f_logitBias f;
     f_stop := f_stop f; f_streaming := f_streaming f |}.

Definition with_stop (v : option (list string))
           (f : OpenAIFields) : OpenAIFields :=
  {| f_callbackManager := f_callbackManager f; f_verbose := f_verbose f;
     f_concurrency := f_concurrency f; f_cache := f_cache f;
     f_openAIApiKey := f_openAIApiKey f; f_modelName := f_modelName f;
     f_modelKwargs := f_modelKwargs f; f_batchSize := f_batchSize f;
     f_maxRetries := f_maxRetries f; f_temperature := f_temperature f;
     f_maxTokens := f_maxTokens f; f_topP := f_topP f;
     f_frequencyPenalty := f_frequencyPenalty f;
     f_presencePenalty := f_presencePenalty f; f_n := f_n f;
     f_bestOf := f_bestOf f; f_logitBias := f_logitBias f; f_stop := v;
     f_streaming := f_streaming f |}.

Definition with_streaming (v : option bool)
           (f : OpenAIFields) : OpenAIFields :=
  {| f_callbackManager := f_callbackManager f; f_verbose := f_verbose f;
     f_concurrency := f_concurrency f; f_cache := f_cache f;
     f_openAIApiKey := f_openAIApiKey f; f_modelName := f_modelName f;
     f_modelKwargs := f_modelKwargs f; f_batchSize := f_batchSize f;
     f_maxRetries := f_maxRetries f; f_temperature := f_temperature f;
     f_maxTokens := f_maxTokens f; f_topP := f_topP f;
     f_frequencyPenalty := f_frequencyPenalty f;
     f_presencePenalty := f_presencePenalty f; f_n := f_n f;
     f_bestOf := f_bestOf f; f_logitBias := f_logitBias f;
     f_stop := f_stop f; f_streaming := v |}.

Definition with_batchSize (v : option nat)
           (f : OpenAIFields) : OpenAIFields :=
  {| f_callbackManager := f_callbackManager f; f_verbose := f_verbose f;
     f_concurrency := f_concurrency f; f_cache := f_cache f;
     f_openAIApiKey := f_openAIApiKey f; f_modelName := f_modelName f;
     f_modelKwargs := f_modelKwargs f; f_batchSize := v;
     f_maxRetries := f_maxRetries f; f_temperature := f_temperature f;
     f_maxTokens := f_maxTokens f; f_topP := f_topP f;
     f_frequencyPenalty := f_frequencyPenalty f;
     f_presencePenalty := f_presencePenalty f; f_n := f_n f;
     f_bestOf := f_bestOf f; f_logitBias := f_logitBias f;
     f_stop := f_stop f; f_streaming := f_streaming f |}.

Definition with_maxRetries (v : option nat)
           (f : OpenAIFields) : OpenAIFields :=
  {| f_callbackManager := f_callbackManager f; f_verbose := f_verbose f;
     f_concurrency := f_concurrency f; f_cache := f_cache f;
     f_openAIApiKey := f_openAIApiKey f; f_modelName := f_modelName f;
     f_modelKwargs := f_modelKwargs f; f_batchSize := f_batchSize f;
     f_maxRetries := v; f_temperature := f_temperature f;
     f_maxTokens := f_maxTokens f; f_topP := f_topP f;
     f_frequencyPenalty := f_frequencyPenalty f;
     f_presencePenalty := f_presencePenalty f; f_n := f_n f;
     f_bestOf := f_bestOf f; f_logitBias := f_logitBias f;
     f_stop := f_stop f; f_streaming := f_streaming f |}.

(** The same instance with another construction-time [stop]. *)
Definition replace_stop (v : option (list string)) (this : OpenAI) : OpenAI :=
  {| base := base this; temperature := temperature this;
     maxTokens := maxTokens this; topP := topP this;
     frequencyPenalty := frequencyPenalty this;
     presencePenalty := presencePenalty this; n := n this;
     bestOf := bestOf this; logitBias := logitBias this;
     modelName := modelName this; modelKwargs := modelKwargs this;
     batchSize := batchSize this; maxRetries := maxRetries this;
     stop := v; streaming := streaming this;
     clientConfig := clientConfig this |}.

(** The stop list a call really runs with: [stop ?? params.stop] of
    [_generate], for an instance whose [modelKwargs] leave [stop] alone. *)
Definition effective_stop (this : OpenAI) (stop' : option (list string))
  : option (list string) :=
  first_of stop' (stop this).

(** The prompts a request carries. *)
Definition request_prompts (request : JS.object) : list string :=
  match JS.get "prompt" request with
  | JS.Arr items => map JS.ToString items
  | _ => []
  end.

(** The prompt lists of the network calls of a trace, in call order. *)
Definition network_prompts (t : list effect) : list (list string) :=
  flat_map (fun e => match e with
                     | ENetwork request => [request_prompts request]
                     | _ => []
                     end) t.

Definition is_cache_effect (e : effect) : bool :=
  match e with
  | ELookup _ _ | EUpdate _ _ _ => true
  | _ => false
  end.

Definition empty_world : World := {| store := []; trace := [] |}.

(** A computation is cache-silent when it leaves the store as it is and
    issues no lookup and no update. *)
Definition cache_silent {A} (m : Promise A) : Prop :=
  forall w,
    store (snd (m w)) = store w /\
    exists t, trace (snd (m w)) = trace w ++ t
              /\ Forall (fun e => is_cache_effect e = false) t.

(** ** The concurrency limiter *)

(** Modelled from the spec: the queue of the p-queue package that
    [new PQueue({ concurrency })] builds.  Section 4.3: a FIFO admission
    queue; any number of tasks may be enqueued, and a waiting task is
    admitted only while fewer than [concurrency] are in flight.  Tasks are
    named by numbers; [bound = None] is [Infinity]. *)
Module Limiter.

Record state := {
  bound : option nat;
  queue : list nat;
  running : list nat;
  admitted : list nat;
  submitted : list nat;
}.

Definition init (concurrency : option nat) : state :=
  {| bound := concurrency; queue := []; running := [];
     admitted := []; submitted := [] |}.

Definition has_room (s : state) : bool :=
  match bound s with
  | None => true
  | Some k => (length (running s) <? k)%nat
  end.

(** Admit the head of the queue if the bound allows. *)
Definition tryToStartAnother (s : state) : state :=
  match queue s with
  | [] => s
  | t :: rest =>
      if has_room s then
        {| bound := bound s; queue := rest; running := running s ++ [t];
           admitted := admitted s ++ [t]; submitted := submitted s |}
      else s
  end.

Definition enqueue (t : nat) (s : state) : state :=
  {| bound := bound s; queue := queue s ++ [t]; running := running s;
     admitted := admitted s; submitted := submitted s ++ [t] |}.

Fixpoint remove_first (t : nat) (l : list nat) : list nat :=
  match l with
  | [] => []
  | x :: rest => if (x =? t)%nat then rest else x :: remove_first t rest
  end.

Definition finish (t : nat) (s : state) : state :=
  {| bound := bound s; queue := queue s;
     running := remove_first t (running s);
     admitted := admitted s; submitted := submitted s |}.

(** [add] submits a task; a running task settles (success or failure) and
    frees its slot. *)
Inductive step : state -> state -> Prop :=
| step_add (t : nat) (s : state) :
    step s (tryToStartAnother (enqueue t s))
| step_settle (t : nat) (s : state) :
    In t (running s) ->
    step s (tryToStartAnother (finish t s)).

(** The states the queue can get into from [s0]. *)
Inductive reachable (s0 : state) : state -> Prop :=
| reach_init : reachable s0 s0
| reach_step (s s' : state) :
    reachable s0 s -> step s s' -> reachable s0 s'.

(** What holds in every state of the queue: the bound is the configured
    one, no more tasks run than it allows, and the admitted tasks followed
    by the waiting ones are the submitted tasks in submission order. *)
Definition invariant (concurrency : option nat) (s : state) : Prop :=
  bound s = concurrency /\
  match concurrency with
  | Some k => length (running s) <= k
  | None => True
  end /\
  admitted s ++ queue s = submitted s.

(** The same machine as a function of a schedule, to run it. *)
Inductive action := Add (t : nat) | Settle (t : nat).

Definition perform (a : action) (s : state) : state :=
  match a with
  | Add t => tryToStartAnother (enqueue t s)
  | Settle t =>
      if existsb (Nat.eqb t) (running s)
      then tryToStartAnother (finish t s) else s
  end.

Definition run (concurrency : option nat) (schedule : list action) : state :=
  fold_left (fun s a => perform a s) schedule (init concurrency).

End Limiter.

(** [this.queue = new PQueue({ concurrency: this.concurrency })] *)
Definition BaseLLM_queue (this : BaseLLM) : Limiter.state :=
  Limiter.init (concurrency this).

(** ** The rest of base.ts: [call] and the [LLM] class *)

Section BaseLLM_call.

Variable this : BaseLLM.
Variable _generate : list string -> option (list string) -> Promise LLMResult.
Variable _identifyingParams : JS.object.
Variable _llmType : string.

(** [call]: [generations[0][0].text] of [generate([prompt], stop)].
    Reading through an entry that is not there throws a [TypeError]. *)
Definition call (prompt : string) (stop : option (list string))
  : Promise string :=
  r <- generate this _generate _identifyingParams _llmType [prompt] stop ;;
  match result_generations r with
  | [] =>
      throw "TypeError: Cannot read properties of undefined (reading '0')"
  | None :: _ =>
      throw "TypeError: Cannot read properties of null (reading '0')"
  | Some [] :: _ =>
      throw "TypeError: Cannot read properties of undefined (reading 'text')"
  | Some (g :: _) :: _ => ret (text g)
  end.

End BaseLLM_call.

(** Modelled from the spec: [this.queue.add(task)] called from inside a
    task of the same queue, as [LLM._generate] is when [_generateUncached]
    runs it.  The admission policy is that of [Limiter]: the task of
    [_generateUncached] (1) was submitted to the fresh queue and holds its
    slot while it awaits the new task (2), which runs, and then settles as
    [task] does, only if the queue admits it beside the first; nothing
    else can settle in between. *)
Definition queue_add_nested {A} (this : BaseLLM) (task : Promise A)
  : Promise A :=
  let queue :=
    Limiter.run (concurrency this) [Limiter.Add 1; Limiter.Add 2] in
  if existsb (Nat.eqb 2) (Limiter.running queue) then task
  else fun w => (Pending, w).

Section LLM_methods.

Variable this : BaseLLM.

(** The abstract [_call] of the subclass. *)
Variable _call : string -> option (list string) -> Promise string.

(** The loop of [LLM._generate]; a generation is [{ text }]. *)
Fixpoint LLM_generate_loop (prompts : list string)
         (stop : option (list string)) (acc : list (list Generation))
  : Promise LLMResult :=
  match prompts with
  | [] => ret {| generations := acc; llmOutput := None |}
  | prompt :: rest =>
      answer <- queue_add_nested this (_call prompt stop) ;;
      LLM_generate_loop rest stop
        (acc ++ [[{| text := answer; finishReason := None;
                     logprobs := None |}]])
  end.

Definition LLM__generate (prompts : list string) (stop : option (list string))
  : Promise LLMResult :=
  LLM_generate_loop prompts stop [].

(** [generate] of an [LLM] subclass with the identifying parameters
    [params] and the type [type]. *)
Definition LLM_generate (params : JS.object) (type : string)
  : list string -> option (list string) -> Promise GenerateResult :=
  generate this LLM__generate params type.

End LLM_methods.

(** ** Notions used in the statements below *)

(** [k in o] for an own property. *)
Definition has_property (k : string) (o : JS.object) : bool :=
  existsb (fun kv => fst kv =? k) o.

(** The named parameters of [invocationParams], before [modelKwargs] is
    spread over them. *)
Definition named_params (this : OpenAI) : JS.object :=
  [("model", JS.Str (modelName this));
   ("temperature", JS.Num (temperature this));
   ("max_tokens", JS.Num (maxTokens this));
   ("top_p", JS.Num (topP this));
   ("frequency_penalty", JS.Num (frequencyPenalty this));
   ("presence_penalty", JS.Num (presencePenalty this));
   ("n", JS.of_nat (n this));
   ("best_of", JS.of_nat (bestOf this));
   ("logit_bias", JS.of_option JS.Obj (logitBias this));
   ("stop", JS.of_option JS.of_strings (stop this));
   ("stream", JS.Bool (streaming this))].

(** A running total as [TokenUsage] holds it: absent while nothing but
    zeros was reported. *)
Definition total_of (k : nat) : option nat :=
  match k with
  | 0 => None
  | S _ => Some k
  end.

(** The sum of one counter over the usage reports of the sub-batches. *)
Definition reported (f : Usage -> nat) (reports : list (option Usage)) : nat :=
  list_sum (map (fun u => match u with Some x => f x | None => 0 end)
                reports).

Definition is_miss (o : option (list Generation)) : bool :=
  match o with
  | None => true
  | Some _ => false
  end.

(** What [generate] should return for a prompt: the cached list, or on a
    miss the provider's answer. *)
Definition cached_or (answer : string -> list Generation)
           (c : InMemoryCache.t) (key : string) (p : string)
  : list Generation :=
  match InMemoryCache.lookup (Some p) key c with
  | Some g => g
  | None => answer p
  end.

(** The text a stop list contributes to the cache key. *)
Definition joined (stop : option (list string)) : string :=
  match stop with
  | Some l => String.concat "," l
  | None => ""
  end.

(** Two arrays that print alike. *)
Definition same_text (x y : JS.value) : Prop :=
  JS.ToString x = JS.ToString y
  /\ exists a b, x = JS.Arr a /\ y = JS.Arr b.

(** The prompts of a call that are not in the cache, in prompt order. *)
Definition missed (c : InMemoryCache.t) (key : string)
           (prompts : list string) : list string :=
  filter (fun p => is_miss (InMemoryCache.lookup (Some p) key c)) prompts.

(** The world after the per-token hook was called for the deltas
    [parts]: when the callback manager has the hook, one call per delta,
    with its fragment, in order. *)
Definition after_tokens (this : OpenAI) (parts : list Choice) (w : World)
  : World :=
  {| store := store w;
     trace := trace w
              ++ (if handleNewToken (callbackManager (base this))
                  then map (fun part => ENewToken (fragment part)) parts
                  else []) |}.

(** The parts the parser callback absorbs from a run of events: the first
    choice of every delta that has one. *)
Definition first_parts (events : list ParsedEvent) : list Choice :=
  flat_map (fun event => match event with
                         | Event (Delta (part :: _)) => [part]
                         | _ => []
                         end) events.

Definition has_sentinel (events : list ParsedEvent) : bool :=
  existsb (fun event => match event with
                        | Event Done => true
                        | _ => false
                        end) events.

(** A response body: chunks, and then the end of the stream or an error
    (after which nothing more is delivered). *)
Definition body (chunks : list (list ParsedEvent)) (err : option error)
  : list StreamItem :=
  map Data chunks
  ++ match err with
     | Some e => [StreamError e]
     | None => []
     end.

(** The last element of a list, if it has one. *)
Definition last_of {A} (l : list A) : option A :=
  match rev l with
  | [] => None
  | x :: _ => Some x
  end.

(** [{ concurrency: v }] over [f]. *)
Definition with_concurrency (v : option nat) (f : OpenAIFields)
  : OpenAIFields :=
  {| f_callbackManager := f_callbackManager f; f_verbose := f_verbose f;
     f_concurrency := v; f_cache := f_cache f;
     f_openAIApiKey := f_openAIApiKey f; f_modelName := f_modelName f;
     f_modelKwargs := f_modelKwargs f; f_batchSize := f_batchSize f;
     f_maxRetries := f_maxRetries f; f_temperature := f_temperature f;
     f_maxTokens := f_maxTokens f; f_topP := f_topP f;
     f_frequencyPenalty := f_frequencyPenalty f;
     f_presencePenalty := f_presencePenalty f; f_n := f_n f;
     f_bestOf := f_bestOf f; f_logitBias := f_logitBias f;
     f_stop := f_stop f; f_streaming := f_streaming f |}.

(** [{ openAIApiKey: v }] over [f]. *)
Definition with_openAIApiKey (v : option string) (f : OpenAIFields)
  : OpenAIFields :=
  {| f_callbackManager := f_callbackManager f; f_verbose := f_verbose f;
     f_concurrency := f_concurrency f; f_cache := f_cache f;
     f_openAIApiKey := v; f_modelName := f_modelName f;
     f_modelKwargs := f_modelKwargs f; f_batchSize := f_batchSize f;
     f_maxRetries := f_maxRetries f; f_temperature := f_temperature f;
     f_maxTokens := f_maxTokens f; f_topP := f_topP f;
     f_frequencyPenalty := f_frequencyPenalty f;
     f_presencePenalty := f_presencePenalty f; f_n := f_n f;
     f_bestOf := f_bestOf f; f_logitBias := f_logitBias f;
     f_stop := f_stop f; f_streaming := f_streaming f |}.

(** [{ n: v }] over [f]. *)
Definition with_n (v : option nat) (f : OpenAIFields) : OpenAIFields :=
  {| f_callbackManager := f_callbackManager f; f_verbose := f_verbose f;
     f_concurrency := f_concurrency f; f_cache := f_cache f;
     f_openAIApiKey := f_openAIApiKey f; f_modelName := f_modelName f;
     f_modelKwargs := f_modelKwargs f; f_batchSize := f_batchSize f;
     f_maxRetries := f_maxRetries f; f_temperature := f_temperature f;
     f_maxTokens := f_maxTokens f; f_topP := f_topP f;
     f_frequencyPenalty := f_frequencyPenalty f;
     f_presencePenalty := f_presencePenalty f; f_n := v;
     f_bestOf := f_bestOf f; f_logitBias := f_logitBias f;
     f_stop := f_stop f; f_streaming := f_streaming f |}.

(** [{ modelKwargs: v }] over [f]. *)
Definition with_modelKwargs (v : option JS.object) (f : OpenAIFields)
  : OpenAIFields :=
  {| f_callbackManager := f_callbackManager f; f_verbose := f_verbose f;
     f_concurrency := f_concurrency f; f_cache := f_cache f;
     f_openAIApiKey := f_openAIApiKey f; f_modelName := f_modelName f;
     f_modelKwargs := v; f_batchSize := f_batchSize f;
     f_maxRetries := f_maxRetries f; f_temperature := f_temperature f;
     f_maxTokens := f_maxTokens f; f_topP := f_topP f;
     f_frequencyPenalty := f_frequencyPenalty f;
     f_presencePenalty := f_presencePenalty f; f_n := f_n f;
     f_bestOf := f_bestOf f; f_logitBias := f_logitBias f;
     f_stop := f_stop f; f_streaming := f_streaming f |}.

(** ** Providers and instances used in the examples *)

Module Example.

Definition reply (index : nat) (s : string) : Choice :=
  {| choice_text := Some s; choice_index := Some index;
     choice_logprobs := None; choice_finish_reason := Some "stop" |}.

Fixpoint replies (index : nat) (prompts : list string) : list Choice :=
  match prompts with
  | [] => []
  | p :: rest => reply index ("re:" ++ p)%string :: replies (S index) rest
  end.

(** A provider that answers every prompt [p] of a request with the one
    completion ["re:" ++ p]: for a plain request as the [choices] of the
    response, with a usage report; for a streamed request as one delta per
    prompt, carrying the index of the prompt, followed by the sentinel. *)
Definition echo (k : nat) (request : JS.object) : outcome CompletionData :=
  let answers := replies 0 (request_prompts request) in
  if JS.truthy (JS.get "stream" request) then
    Return {| choices := []; usage := None;
              stream := [Data (map delta answers ++ [Event Done])] |}
  else
    Return {| choices := answers;
              usage := Some {| completion_tokens := 1; prompt_tokens := 1;
                               total_tokens := 2 |};
              stream := [] |}.

(** A provider for ["Hello"]: streamed as ["Hel"], ["lo"] and the
    sentinel, non-streamed as the one text. *)
Definition hello_streamed : CompletionData :=
  {| choices := []; usage := None;
     stream := [Data [delta (reply 0 "Hel")];
                Data [delta (reply 0 "lo"); Event Done]] |}.

Definition hello_plain : CompletionData :=
  {| choices := [reply 0 "Hello"]; usage := None; stream := [] |}.

Definition hello (k : nat) (request : JS.object) : outcome CompletionData :=
  Return (if JS.truthy (JS.get "stream" request) then hello_streamed
          else hello_plain).

(** A provider that fails every call, each time with another error. *)
Definition failing (k : nat) (request : JS.object) : outcome CompletionData :=
  Throw ("Error: attempt " ++ JS.ToString (JS.of_nat k))%string.

(** What [echo] answers for one prompt, as a generation list. *)
Definition echo_answer (p : string) : list Generation :=
  [{| text := ("re:" ++ p)%string; finishReason := Some "stop";
      logprobs := None |}].

Definition env_of (provider : nat -> JS.object -> outcome CompletionData)
  : Environment :=
  {| network := provider;
     track_request := fun _ _ => None;
     OPENAI_API_KEY := Some "sk-test";
     PROMPTLAYER_API_KEY := Some "pl-test" |}.

(** The PromptLayer endpoint is down. *)
Definition env_tracking_down : Environment :=
  {| network := echo;
     track_request := fun _ _ => Some "TypeError: fetch failed";
     OPENAI_API_KEY := Some "sk-test";
     PROMPTLAYER_API_KEY := Some "pl-test" |}.

(** Five tasks on a queue of two slots; task 2 settles before the last
    one is added. *)
Definition schedule : list Limiter.action :=
  [Limiter.Add 1; Limiter.Add 2; Limiter.Add 3; Limiter.Add 4;
   Limiter.Settle 2; Limiter.Add 5].

(** Callback managers with one hook that throws. *)
Definition failing_start : LLMCallbackManager :=
  {| handleStart := Some (fun _ _ => Some "Error: start hook failed");
     handleEnd := Some (fun _ _ => None);
     handleError := Some (fun _ _ => None);
     handleNewToken := false |}.

Definition failing_end : LLMCallbackManager :=
  {| handleStart := Some (fun _ _ => None);
     handleEnd := Some (fun _ _ => Some "Error: end hook failed");
     handleError := Some (fun _ _ => None);
     handleNewToken := false |}.

Definition failing_error : LLMCallbackManager :=
  {| handleStart := Some (fun _ _ => None);
     handleEnd := Some (fun _ _ => None);
     handleError := Some (fun _ _ => Some "Error: error hook failed");
     handleNewToken := false |}.

End Example.

(** [call] of an [OpenAI] instance. *)
Definition OpenAI_call (env : Environment) (this : OpenAI)
  : string -> option (list string) -> Promise string :=
  call (base this) (_generate this (completionWithRetry env this))
       (_identifyingParams this) _llmType.

(** ** More providers and instances for the examples *)

Module Example2.

(** A streamed body that breaks off with an error after one delta. *)
Definition broken_stream : CompletionData :=
  {| choices := []; usage := None;
     stream := [Data [delta (Example.reply 0 "Hel")];
                StreamError "Error: aborted";
                Data [delta (Example.reply 0 "lo"); Event Done]] |}.

Definition broken (k : nat) (request : JS.object) : outcome CompletionData :=
  Return broken_stream.

(** A streamed body that ends after one delta, without sentinel. *)
Definition cut_stream : CompletionData :=
  {| choices := []; usage := None;
     stream := [Data [delta (Example.reply 0 "Hel")]] |}.

Definition cut (k : nat) (request : JS.object) : outcome CompletionData :=
  Return cut_stream.

(** A provider that returns no choice at all. *)
Definition silent_response : CompletionData :=
  {| choices := []; usage := None; stream := [] |}.

Definition silent (k : nat) (request : JS.object) : outcome CompletionData :=
  Return silent_response.

(** A provider that fails every request carrying the prompt ["b"] and
    answers the others like [Example.echo], without usage report. *)
Definition plain_reply (prompts : list string) : CompletionData :=
  {| choices := Example.replies 0 prompts; usage := None; stream := [] |}.

Definition flaky (k : nat) (request : JS.object) : outcome CompletionData :=
  if existsb (String.eqb "b") (request_prompts request)
  then Throw "Error: 500"
  else Return (plain_reply (request_prompts request)).

(** An [LLM] subclass whose [_call] answers ["re:" ++ prompt] and leaves
    the world alone. *)
Definition echo_call (prompt : string) (stop : option (list string))
  : Promise string :=
  ret ("re:" ++ prompt)%string.

End Example2.

(** * Properties *)

(** ** Objects *)

Lemma get_set_same (k : string) (v : JS.value) (o : JS.object) :
  JS.get k (JS.set k v o) = v.
Proof.
  induction o as [|[k' v'] o IH]; simpl.
  - now rewrite String.eqb_refl.
  - destruct (String.eqb_spec k' k) as [->|Hne]; simpl.
    + now rewrite String.eqb_refl.
    + apply String.eqb_neq in Hne. now rewrite Hne.
Qed.

Lemma get_set_other (k k2 : string) (v : JS.value) (o : JS.object) :
  k2 <> k -> JS.get k (JS.set k2 v o) = JS.get k o.
Proof.
  intros Hne. induction o as [|[k' v'] o IH]; simpl.
  - apply String.eqb_neq in Hne. now rewrite Hne.
  - destruct (String.eqb_spec k' k2) as [->|Hk2]; simpl.
    + apply String.eqb_neq in Hne. now rewrite Hne.
    + now rewrite IH.
Qed.

Create HintDb js.
#[local] Hint Constructors agree_except : js.

Lemma set_absorbs (k : string) (v : JS.value) (o o' : JS.object) :
  agree_except k o o' -> JS.set k v o = JS.set k v o'.
Proof.
  induction 1 as [o|x x' o|k' x o o' Hne _ IH]; simpl.
  - reflexivity.
  - now rewrite String.eqb_refl.
  - apply String.eqb_neq in Hne. rewrite Hne. now f_equal.
Qed.

Lemma set_agree (k k2 : string) (x : JS.value) (o o' : JS.object) :
  agree_except k o o' -> agree_except k (JS.set k2 x o) (JS.set k2 x o').
Proof.
  induction 1 as [o|v v' o|k' y o o' Hne H IH]; simpl; auto with js.
  - destruct (k =? k2); auto with js.
  - destruct (k' =? k2); auto with js.
Qed.

Lemma set_values_agree (k : string) (v v' : JS.value) (o : JS.object) :
  agree_except k (JS.set k v o) (JS.set k v' o).
Proof.
  induction o as [|[k' x] o IH]; simpl; auto with js.
  destruct (String.eqb_spec k' k) as [->|Hne]; auto with js.
Qed.

Lemma spread_agree_target (k : string) (source target target' : JS.object) :
  agree_except k target target' ->
  agree_except k (JS.spread target source) (JS.spread target' source).
Proof.
  unfold JS.spread. revert target target'.
  induction source as [|[k2 x] source IH]; intros target target' H; simpl.
  - exact H.
  - apply IH. now apply set_agree.
Qed.

Lemma spread_agree_source (k : string) (source source' target : JS.object) :
  agree_except k source source' ->
  agree_except k (JS.spread target source) (JS.spread target source').
Proof.
  intros H. revert target.
  induction H as [o|v v' o|k' x o o' Hne _ IH]; intros target.
  - auto with js.
  - simpl. apply spread_agree_target, set_values_agree.
  - apply IH.
Qed.

(** The construction-time [stop] reaches the serialized parameters only
    as the value of their [stop] property. *)
Lemma serialize_replace_stop (this : OpenAI) (v : option (list string)) :
  agree_except "stop"
    (serialize (_identifyingParams (replace_stop v this)) _llmType)
    (serialize (_identifyingParams this) _llmType).
Proof.
  unfold serialize, _identifyingParams, invocationParams. simpl.
  apply set_agree, spread_agree_source, spread_agree_target.
  apply spread_agree_source, spread_agree_target.
  repeat (apply agree_cons; [discriminate|]).
  apply agree_at.
Qed.

(** [generate] overwrites [params.stop] with its argument, so the key does
    not depend on the stop list the instance was constructed with. *)
Lemma llmStringKey_replace_stop (this : OpenAI)
      (v stop' : option (list string)) :
  OpenAI_llmStringKey (replace_stop v this) stop'
  = OpenAI_llmStringKey this stop'.
Proof.
  unfold OpenAI_llmStringKey, llmStringKey.
  now rewrite (set_absorbs _ (serialize_replace_stop this v)).
Qed.

(** The key is a function of the serialized parameters and the [stop]
    argument: equal inputs give equal keys. *)
Lemma llmStringKey_deterministic (p q : JS.object) (t : string)
      (s s' : option (list string)) :
  p = q -> s = s' -> llmStringKey p t s = llmStringKey q t s'.
Proof. now intros -> ->. Qed.

(** C3, at a failing input.  Two instances constructed with the stop lists
    [["a"]] and [["b"]] and called without a [stop] argument run with
    different effective stop lists and derive the same key; and an
    instance constructed with [["a"]] and called without argument derives
    another key than a plain instance called with [["a"]], although both
    run with the stop list [["a"]]. *)
Theorem cache_key_ignores_construction_stop :
  exists a b c : OpenAI,
    OpenAI_constructor (Example.env_of Example.echo)
      (with_stop (Some ["a"]) no_fields) [] = inr a /\
    OpenAI_constructor (Example.env_of Example.echo)
      (with_stop (Some ["b"]) no_fields) [] = inr b /\
    OpenAI_constructor (Example.env_of Example.echo) no_fields [] = inr c /\
    effective_stop a None <> effective_stop b None /\
    OpenAI_llmStringKey a None = OpenAI_llmStringKey b None /\
    effective_stop a None = effective_stop c (Some ["a"]) /\
    OpenAI_llmStringKey a None <> OpenAI_llmStringKey c (Some ["a"]).
Proof.
  do 3 eexists.
  repeat split; try reflexivity; try (vm_compute; discriminate).
Qed.

(** Array printing joins with commas, so the stop lists [["a"; "b"]] and
    [["a,b"]] of two calls on one instance also share a key. *)
Lemma cache_key_comma_collision :
  exists c : OpenAI,
    OpenAI_constructor (Example.env_of Example.echo) no_fields [] = inr c /\
    OpenAI_llmStringKey c (Some ["a"; "b"])
    = OpenAI_llmStringKey c (Some ["a,b"]).
Proof. eexists. split; reflexivity. Qed.

(** ** Promises *)

Lemma bind_Return {A B} (m : Promise A) (k : A -> Promise B)
      (w w' : World) (a : A) :
  m w = (Return a, w') -> bind m k w = k a w'.
Proof. unfold bind. now intros ->. Qed.

Lemma bind_Throw {A B} (m : Promise A) (k : A -> Promise B)
      (w w' : World) (e : error) :
  m w = (Throw e, w') -> bind m k w = (Throw e, w').
Proof. unfold bind. now intros ->. Qed.


Lemma retry_Return {A} (request : Promise A) (k : nat)
      (w w' : World) (a : A) :
  request w = (Return a, w') -> retry request k w = (Return a, w').
Proof.
  intros H. destruct k; simpl; [exact H|].
  unfold try_catch. now rewrite H.
Qed.

(** ** Sub-batches *)

Lemma chunkArray_singleton {A} (x : A) (size : nat) :
  1 <= size -> chunkArray [x] size = [[x]].
Proof.
  destruct size as [|size]; [lia|]. intros _. simpl.
  now destruct size.
Qed.

Lemma chunkArray_fuel_nil {A} (fuel size : nat) :
  @chunkArray_fuel A fuel [] size = [].
Proof. now destruct fuel. Qed.

Lemma chunkArray_fuel_irrelevant {A} (k : nat) :
  forall (f1 f2 : nat) (arr : list A),
    length arr <= f1 -> length arr <= f2 ->
    chunkArray_fuel f1 arr (S k) = chunkArray_fuel f2 arr (S k).
Proof.
  induction f1 as [|f1 IH]; intros f2 arr H1 H2.
  - destruct arr; [|simpl in H1; lia]. now rewrite !chunkArray_fuel_nil.
  - destruct arr as [|x arr]; [now rewrite !chunkArray_fuel_nil|].
    destruct f2 as [|f2]; [simpl in H2; lia|].
    cbn [chunkArray_fuel]. f_equal.
    apply IH; rewrite length_skipn; simpl in *; lia.
Qed.

Lemma chunkArray_fuel_concat {A} (k : nat) :
  forall (fuel : nat) (arr : list A),
    length arr <= fuel -> concat (chunkArray_fuel fuel arr (S k)) = arr.
Proof.
  induction fuel as [|fuel IH]; intros arr H.
  - destruct arr; [reflexivity|simpl in H; lia].
  - destruct arr as [|x arr]; [reflexivity|].
    cbn [chunkArray_fuel concat]. rewrite IH.
    + apply firstn_skipn.
    + rewrite length_skipn. simpl in *. lia.
Qed.

Lemma div_mod_step (k n : nat) :
  S k <= n ->
  n / S k = S ((n - S k) / S k) /\ n mod S k = (n - S k) mod S k.
Proof.
  intros H.
  replace n with ((n - S k) + 1 * S k) at 1 3 by lia.
  rewrite Nat.div_add, Nat.Div0.mod_add by lia.
  split; [lia|reflexivity].
Qed.

Lemma chunkArray_fuel_sizes {A} (k : nat) :
  forall (fuel : nat) (arr : list A),
    length arr <= fuel ->
    map (@length A) (chunkArray_fuel fuel arr (S k))
    = repeat (S k) (length arr / S k)
      ++ (if (length arr mod S k =? 0)%nat then []
          else [length arr mod S k]).
Proof.
  induction fuel as [|fuel IH]; intros arr H.
  - destruct arr; [|simpl in H; lia].
    simpl length. rewrite Nat.Div0.div_0_l, Nat.Div0.mod_0_l. reflexivity.
  - destruct arr as [|x arr].
    + simpl length. rewrite Nat.Div0.div_0_l, Nat.Div0.mod_0_l. reflexivity.
    + remember (x :: arr) as l eqn:Hl.
      assert (Hpos : 0 < length l) by (subst l; simpl; lia).
      assert (Hfuel : length l <= S fuel) by exact H.
      rewrite Hl at 1. cbn [chunkArray_fuel]. rewrite <- Hl.
      cbn [map]. rewrite length_firstn, IH
        by (rewrite length_skipn; lia).
      rewrite length_skipn.
      destruct (Nat.le_gt_cases (S k) (length l)) as [Hbig|Hsmall].
      * rewrite Nat.min_l by exact Hbig.
        destruct (div_mod_step Hbig) as [-> ->]. reflexivity.
      * rewrite Nat.min_r by lia.
        replace (length l - S k) with 0 by lia.
        rewrite Nat.Div0.div_0_l, Nat.Div0.mod_0_l.
        rewrite (Nat.div_small (length l)), (Nat.mod_small (length l))
          by exact Hsmall.
        destruct (Nat.eqb_spec (length l) 0); [lia|reflexivity].
Qed.

Lemma chunkArray_fuel_map {A B} (f : A -> B) (size : nat) :
  forall (fuel : nat) (arr : list A),
    map (map f) (chunkArray_fuel fuel arr size)
    = chunkArray_fuel fuel (map f arr) size.
Proof.
  induction fuel as [|fuel IH]; intros arr.
  - reflexivity.
  - destruct arr as [|x arr]; [reflexivity|].
    cbn [chunkArray_fuel map].
    change (f x :: map f arr) with (map f (x :: arr)).
    now rewrite firstn_map, skipn_map, IH.
Qed.

Lemma chunkArray_map {A B} (f : A -> B) (arr : list A) (size : nat) :
  map (map f) (chunkArray arr size) = chunkArray (map f arr) size.
Proof.
  unfold chunkArray. destruct size; [reflexivity|].
  now rewrite chunkArray_fuel_map, length_map.
Qed.

(** A full first block is the first chunk. *)
Lemma chunkArray_block {A} (block rest : list A) (k : nat) :
  length block = S k ->
  chunkArray (block ++ rest) (S k) = block :: chunkArray rest (S k).
Proof.
  intros Hlen. unfold chunkArray.
  rewrite length_app, Hlen. cbn [Nat.add].
  destruct block as [|x block]; [discriminate|].
  cbn [app chunkArray_fuel].
  change (x :: block ++ rest) with ((x :: block) ++ rest).
  rewrite firstn_app, skipn_app, Hlen, Nat.sub_diag.
  rewrite <- Hlen, firstn_all, skipn_all. cbn [firstn skipn app].
  rewrite app_nil_r. f_equal.
  apply chunkArray_fuel_irrelevant; lia.
Qed.

(** Regrouping: a flat list made of [k]-wide groups is cut back into
    those groups. *)
Lemma chunkArray_flat_map {A B} (f : A -> list B) (k : nat) (l : list A) :
  (forall a, length (f a) = S k) ->
  chunkArray (flat_map f l) (S k) = map f l.
Proof.
  intros Hlen. induction l as [|a l IH]; [reflexivity|].
  cbn [flat_map map]. rewrite chunkArray_block by apply Hlen.
  now rewrite IH.
Qed.

Lemma chunkArray_count {A} (arr : list A) (k : nat) :
  length arr <= length (chunkArray arr (S k)) * S k < length arr + S k.
Proof.
  assert (H : length (chunkArray arr (S k))
              = length arr / S k
                + (if (length arr mod S k =? 0)%nat then 0 else 1)).
  { rewrite <- (length_map (@length A)). unfold chunkArray.
    rewrite chunkArray_fuel_sizes by lia.
    rewrite length_app, repeat_length. now destruct (_ =? _)%nat. }
  rewrite H.
  pose proof (Nat.div_mod_eq (length arr) (S k)) as Hdm.
  pose proof (Nat.mod_upper_bound (length arr) (S k)) as Hub.
  destruct (Nat.eqb_spec (length arr mod S k) 0); nia.
Qed.

(** ** The retry executor *)

Lemma count_network_emit (t : list effect) (request : JS.object) :
  count_network (t ++ [ENetwork request]) = S (count_network t).
Proof.
  unfold count_network. rewrite filter_app, length_app. simpl. lia.
Qed.

(** With a provider that fails every call, [retry] makes one attempt more
    than it has retries left and ends with the error of the last one. *)
Lemma retry_exhausted (env : Environment) (request : JS.object)
      (errs : nat -> error) (k : nat) (w : World) :
  (forall i, network env i request = Throw (errs i)) ->
  retry (createCompletion env request) k w
  = (Throw (errs (count_network (trace w) + k)),
     {| store := store w;
        trace := trace w ++ repeat (ENetwork request) (S k) |}).
Proof.
  intros Hfail. revert w.
  induction k as [|k IH]; intros w.
  - simpl. unfold createCompletion, emit.
    now rewrite Hfail, Nat.add_0_r.
  - cbn [retry]. unfold try_catch at 1.
    unfold createCompletion at 1. rewrite Hfail, IH.
    cbn [emit trace store]. rewrite count_network_emit.
    f_equal; [f_equal; f_equal; lia|].
    f_equal. rewrite <- app_assoc. reflexivity.
Qed.

Lemma constructor_maxRetries (env : Environment) (fields : OpenAIFields)
      (configuration : JS.object) (this : OpenAI) :
  OpenAI_constructor env fields configuration = inr this ->
  maxRetries this = default (f_maxRetries fields) 6.
Proof.
  unfold OpenAI_constructor, BaseLLM_constructor. intros H.
  destruct (f_concurrency fields) as [[|k]|]; try discriminate;
    repeat match type of H with
           | (if ?c then _ else _) = _ => destruct c; try discriminate
           end;
    now inversion H.
Qed.

(** C6.  For an instance built by the constructor, [maxRetries] is the
    given count or 6; when every attempt of a network call fails,
    [completionWithRetry] issues exactly [max 1 maxRetries] attempts (the
    first attempt is made whatever the count is) and throws the error of
    the last attempt as it is. *)
Theorem retry_bound (env : Environment) (fields : OpenAIFields)
        (configuration : JS.object) (this : OpenAI) (request : JS.object)
        (errs : nat -> error) (w : World) :
  OpenAI_constructor env fields configuration = inr this ->
  (forall i, network env i request = Throw (errs i)) ->
  maxRetries this = default (f_maxRetries fields) 6 /\
  completionWithRetry env this request w
  = (Throw (errs (count_network (trace w)
                  + (Nat.max 1 (maxRetries this) - 1))),
     {| store := store w;
        trace := trace w
                 ++ repeat (ENetwork request)
                           (Nat.max 1 (maxRetries this)) |}).
Proof.
  intros Hnew Hfail. split.
  - exact (constructor_maxRetries _ _ _ Hnew).
  - unfold completionWithRetry, backOff.
    rewrite (retry_exhausted _ _ errs _ _ Hfail).
    replace (Nat.max 1 (maxRetries this))
      with (S (pred (maxRetries this))) by lia.
    now rewrite Nat.sub_1_r.
Qed.

Lemma retry_bound_witness :
  exists this : OpenAI,
    OpenAI_constructor (Example.env_of Example.failing) no_fields []
    = inr this /\
    maxRetries this = 6 /\
    completionWithRetry (Example.env_of Example.failing) this
                        [("prompt", JS.of_strings ["p"])] empty_world
    = (Throw "Error: attempt 5",
       {| store := [];
          trace := repeat (ENetwork [("prompt", JS.of_strings ["p"])]) 6 |}).
Proof.
  eexists. split; [reflexivity|].
  refine ((fun H => conj (proj1 H) (proj2 H))
            (@retry_bound (Example.env_of Example.failing) no_fields [] _
               [("prompt", JS.of_strings ["p"])]
               (fun k =>
                  ("Error: attempt " ++ JS.ToString (JS.of_nat k))%string)
               empty_world eq_refl (fun i => eq_refl))).
Defined.

(** C6 as stated fails for [maxRetries: 0], which the constructor accepts:
    against a provider that fails every call the request is attempted
    once, not zero times, and the error of that attempt is thrown. *)
Lemma no_retries_is_one_attempt :
  exists (this : OpenAI) (w' : World),
    OpenAI_constructor (Example.env_of Example.failing)
      (with_maxRetries (Some 0) no_fields) [] = inr this /\
    maxRetries this = 0 /\
    completionWithRetry (Example.env_of Example.failing) this
                        [("prompt", JS.of_strings ["p"])] empty_world
    = (Throw "Error: attempt 0", w') /\
    count_network (trace w') = 1 /\
    count_network (trace w') <> maxRetries this.
Proof.
  do 2 eexists. split; [reflexivity|]. split; [reflexivity|].
  split; [vm_compute; reflexivity|]. split; [reflexivity|discriminate].
Qed.

(** ** The streaming reconstructor *)

Lemma append_nil_r (s : string) : (s ++ "")%string = s.
Proof. induction s as [|c s IH]; simpl; [reflexivity|now rewrite IH]. Qed.

Lemma append_assoc (a b c : string) :
  ((a ++ b) ++ c)%string = (a ++ (b ++ c))%string.
Proof. induction a as [|x a IH]; simpl; [reflexivity|now rewrite IH]. Qed.

(** The accumulated text is the fragments in arrival order. *)
Lemma absorb_text (parts : list Choice) (choice : Choice) :
  default (choice_text (fold_left absorb parts choice)) ""
  = (default (choice_text choice) ""
     ++ String.concat "" (map fragment parts))%string.
Proof.
  revert choice. induction parts as [|part parts IH]; intros choice; simpl.
  - now rewrite append_nil_r.
  - rewrite IH. simpl. rewrite append_assoc. f_equal.
    unfold fragment. destruct parts; simpl; [now rewrite append_nil_r|].
    reflexivity.
Qed.

Lemma feed_deltas (this : OpenAI) (parts : list Choice)
      (choice : Choice) (settled : bool) (w : World) :
  exists w',
    feed this (map delta parts) (choice, settled) w
    = ((fold_left absorb parts choice, settled), w')
    /\ store w' = store w.
Proof.
  revert choice w. induction parts as [|part parts IH]; intros choice w.
  - exists w. split; reflexivity.
  - cbn [map feed delta on_parse fst snd].
    destruct (IH (absorb choice part)
                 (if handleNewToken (callbackManager (base this))
                  then emit (ENewToken (fragment part)) w
                  else w)) as [w' [Hrun Hstore]].
    exists w'. split; [exact Hrun|].
    rewrite Hstore. now destruct (handleNewToken _).
Qed.

Lemma feed_app (this : OpenAI) (a b : list ParsedEvent)
      (st : Choice * bool) (w : World) :
  feed this (a ++ b) st w
  = feed this b (fst (feed this a st w)) (snd (feed this a st w)).
Proof.
  revert st w. induction a as [|e a IH]; intros st w; simpl.
  - reflexivity.
  - destruct (on_parse this e st w) as [st' w']. apply IH.
Qed.

(** A chunk of a stream of deltas that ends with the sentinel is a run of
    deltas, or the rest of the deltas and the sentinel. *)
Lemma chunk_of_deltas (chunk rest : list ParsedEvent) (parts : list Choice) :
  chunk ++ rest = map delta parts ++ [Event Done] ->
  (exists p1 p2, parts = p1 ++ p2 /\ chunk = map delta p1
                 /\ rest = map delta p2 ++ [Event Done])
  \/ (chunk = map delta parts ++ [Event Done] /\ rest = []).
Proof.
  revert parts. induction chunk as [|e chunk IH]; intros parts H.
  - left. exists [], parts. now repeat split.
  - destruct parts as [|part parts]; simpl in H.
    + injection H as -> H. right.
      destruct chunk; [now split|discriminate].
    + injection H as -> H.
      destruct (IH _ H) as [(p1 & p2 & -> & -> & ->)|[-> ->]].
      * left. exists (part :: p1), p2. now repeat split.
      * right. now split.
Qed.

(** Chunks without events change nothing. *)
Lemma drain_empty (this : OpenAI) (chunks : list (list ParsedEvent))
      (choice : Choice) (w : World) :
  concat chunks = [] ->
  drain this (map Data chunks) choice w = (choice, w).
Proof.
  induction chunks as [|chunk chunks IH]; intros H; [reflexivity|].
  cbn [concat] in H. apply app_eq_nil in H as [-> H].
  cbn [map drain feed fst]. now apply IH.
Qed.

(** However the body is cut into chunks, a stream of deltas that ends with
    the sentinel resolves with the folded accumulator, and leaves the cache
    alone. *)
Lemma read_stream_deltas (this : OpenAI) (chunks : list (list ParsedEvent))
      (parts : list Choice) (choice : Choice) (w : World) :
  concat chunks = map delta parts ++ [Event Done] ->
  exists w',
    read_stream this (map Data chunks) choice w
    = (Return (fold_left absorb parts choice), w')
    /\ store w' = store w.
Proof.
  revert parts choice w.
  induction chunks as [|chunk chunks IH]; intros parts choice w H.
  - destruct parts; discriminate.
  - cbn [concat] in H. cbn [map read_stream].
    destruct (chunk_of_deltas _ _ _ H)
      as [(p1 & p2 & -> & -> & H2)|[-> Hrest]].
    + destruct (feed_deltas this p1 choice false w) as [w1 [Hfeed Hs1]].
      rewrite Hfeed. cbn [fst snd].
      destruct (IH p2 (fold_left absorb p1 choice) w1 H2) as [w' [Hrun Hs]].
      exists w'. rewrite fold_left_app. split; [exact Hrun|congruence].
    + rewrite feed_app.
      destruct (feed_deltas this parts choice false w) as [w1 [Hfeed Hs1]].
      rewrite Hfeed. cbn [fst snd feed on_parse].
      rewrite (drain_empty this chunks _ _ Hrest).
      exists w1. split; [reflexivity|exact Hs1].
Qed.

Lemma completionWithRetry_first_try (env : Environment) (this : OpenAI)
      (request : JS.object) (data : CompletionData) (w : World) :
  network env (count_network (trace w)) request = Return data ->
  completionWithRetry env this request w
  = (Return data, emit (ENetwork request) w).
Proof.
  intros H. unfold completionWithRetry, backOff.
  apply retry_Return. unfold createCompletion. now rewrite H.
Qed.

(** [params.stream] as [_generate] reads it, after [params.stop = ...]. *)
Lemma stream_flag_after_stop (v : JS.value) (params : JS.object) :
  JS.get "stream" (JS.set "stop" v params) = JS.get "stream" params.
Proof. apply get_set_other. discriminate. Qed.

(** C7.  Let the provider answer a streamed request with the fragments
    [parts] as delta events followed by the sentinel, cut into chunks in
    any way, and a plain request with one choice whose text is their
    concatenation.  Then for a single prompt the streaming instance and
    the plain instance both return one generation, with the same text: the
    fragments in arrival order. *)
Theorem streaming_equivalence (env : Environment) (streamed plain : OpenAI)
        (prompt : string) (chunks : list (list ParsedEvent))
        (parts : list Choice) (full : Choice)
        (sdata pdata : CompletionData) (w : World) :
  JS.truthy (JS.get "stream" (invocationParams streamed)) = true ->
  JS.truthy (JS.get "stream" (invocationParams plain)) = false ->
  n streamed = 1 -> n plain = 1 ->
  1 <= batchSize streamed -> 1 <= batchSize plain ->
  (forall k request,
      network env k request
      = Return (if JS.truthy (JS.get "stream" request)
                then sdata else pdata)) ->
  stream sdata = map Data chunks ->
  concat chunks = map delta parts ++ [Event Done] ->
  choices pdata = [full] ->
  choice_text full = Some (String.concat "" (map fragment parts)) ->
  exists (gs gp : Generation) (us up : option TokenUsage) (ws wp : World),
    _generate streamed (completionWithRetry env streamed) [prompt] None w
    = (Return {| generations := [[gs]]; llmOutput := us |}, ws) /\
    _generate plain (completionWithRetry env plain) [prompt] None w
    = (Return {| generations := [[gp]]; llmOutput := up |}, wp) /\
    text gs = String.concat "" (map fragment parts) /\
    text gp = text gs.
Proof.
  intros Hs Hp Hns Hnp Hbs Hbp Hnet Hstream Hchunks Hchoices Hfull.
  unfold _generate.
  rewrite !chunkArray_singleton by assumption.
  set (ps := JS.set "stop" _ (invocationParams streamed)).
  set (pp := JS.set "stop" _ (invocationParams plain)).
  assert (Hps : JS.truthy (JS.get "stream" ps) = true)
    by (unfold ps; now rewrite stream_flag_after_stop).
  assert (Hpp : JS.truthy (JS.get "stream" pp) = false)
    by (unfold pp; now rewrite stream_flag_after_stop).
  assert (Hreq : forall params,
             JS.get "stream" (JS.set "prompt" (JS.of_strings [prompt]) params)
             = JS.get "stream" params)
    by (intros; apply get_set_other; discriminate).
  destruct (read_stream_deltas streamed chunks parts empty_choice
              (emit (ENetwork (JS.set "prompt" (JS.of_strings [prompt]) ps)) w)
              Hchunks)
    as [ws [Hread _]].
  exists (to_generation (fold_left absorb parts empty_choice)),
         (to_generation full).
  do 2 eexists. exists ws. eexists.
  assert (Hgs : text (to_generation (fold_left absorb parts empty_choice))
                = String.concat "" (map fragment parts)).
  { unfold to_generation. cbn [text]. now rewrite absorb_text. }
  split; [|split; [|split]].
  - destruct (stop streamed);
      cbn [complete_all];
      (erewrite bind_Return;
       [|erewrite bind_Return;
         [|apply completionWithRetry_first_try; rewrite Hnet, Hreq, Hps;
           reflexivity];
         rewrite Hps;
         erewrite bind_Return;
         [|erewrite bind_Return; [reflexivity|rewrite Hstream; exact Hread]];
         reflexivity]);
      unfold ret; cbn [fst snd app]; rewrite Hns; reflexivity.
  - destruct (stop plain);
      cbn [complete_all];
      (erewrite bind_Return;
       [|erewrite bind_Return;
         [|apply completionWithRetry_first_try; rewrite Hnet, Hreq, Hpp;
           reflexivity];
         rewrite Hpp;
         erewrite bind_Return; [reflexivity|reflexivity]]);
      unfold ret; cbn [fst snd app]; rewrite Hnp, Hchoices; reflexivity.
  - exact Hgs.
  - rewrite Hgs. unfold to_generation. cbn [text]. now rewrite Hfull.
Qed.

Lemma streaming_equivalence_witness :
  exists streamed plain : OpenAI,
    OpenAI_constructor (Example.env_of Example.hello)
      (with_streaming (Some true) no_fields) [] = inr streamed /\
    OpenAI_constructor (Example.env_of Example.hello) no_fields []
    = inr plain /\
    exists (gs gp : Generation) (us up : option TokenUsage) (ws wp : World),
      _generate streamed
        (completionWithRetry (Example.env_of Example.hello) streamed)
        ["Say hello"] None empty_world
      = (Return {| generations := [[gs]]; llmOutput := us |}, ws) /\
      _generate plain
        (completionWithRetry (Example.env_of Example.hello) plain)
        ["Say hello"] None empty_world
      = (Return {| generations := [[gp]]; llmOutput := up |}, wp) /\
      text gs = "Hello" /\
      text gp = text gs.
Proof.
  do 2 eexists. split; [reflexivity|]. split; [reflexivity|].
  apply (@streaming_equivalence (Example.env_of Example.hello) _ _
           "Say hello"
           [[delta (Example.reply 0 "Hel")];
            [delta (Example.reply 0 "lo"); Event Done]]
           [Example.reply 0 "Hel"; Example.reply 0 "lo"]
           (Example.reply 0 "Hello")
           Example.hello_streamed Example.hello_plain
           empty_world);
    try reflexivity; simpl; lia.
Defined.

(** ** The cached path *)

Lemma key_eqb_refl (k : InMemoryCache.key) : InMemoryCache.key_eqb k k = true.
Proof.
  destruct k as [[p|] s]; unfold InMemoryCache.key_eqb; simpl;
    now rewrite ?String.eqb_refl.
Qed.

(** [lookup] after [update] on the same pair returns the stored value. *)
Lemma lookup_update (prompt : option string) (key : string)
      (v : list Generation) (c : InMemoryCache.t) :
  InMemoryCache.lookup prompt key (InMemoryCache.update prompt key v c)
  = Some v.
Proof. simpl. now rewrite key_eqb_refl. Qed.

(** Results beyond the missing indices are written to the cache under
    [prompts[undefined]]; the array and the entries of real prompts stay
    as they are. *)
Lemma fill_beyond (prompts : list string) (key : string) (missing : list nat)
      (results : list (list Generation)) :
  forall (index : nat) (arr : list (option (list Generation))) (w : World),
    length missing <= index ->
    exists w',
      fill prompts key missing index results arr w = (Return arr, w')
      /\ forall p k, InMemoryCache.lookup (Some p) k (store w')
                     = InMemoryCache.lookup (Some p) k (store w).
Proof.
  induction results as [|g results IH]; intros index arr w Hlen.
  - exists w. split; reflexivity.
  - cbn [fill].
    apply nth_error_None in Hlen as Hnone. rewrite Hnone.
    unfold bind at 1, cache_update at 1.
    destruct (IH (S index) arr
                 {| store := InMemoryCache.update None key g (store w);
                    trace := trace w ++ [EUpdate None key g] |})
      as [w' [Hfill Hstore]]; [lia|].
    exists w'. split; [exact Hfill|].
    intros p k. now rewrite Hstore.
Qed.

(** C2, as the code has it.  With caching enabled, when [generate([p], s)]
    returned a generation list for the prompt, a second call with the same
    prompt and stop list only looks the prompt up (no network call, no
    hook) and returns the same generations; its [llmOutput] is empty,
    whatever usage the first call reported. *)
Theorem second_call_is_served_from_cache (this : BaseLLM)
        (_generate : list string -> option (list string) -> Promise LLMResult)
        (params : JS.object) (type : string)
        (p : string) (s : option (list string))
        (w w1 : World) (r1 : GenerateResult) (g : list Generation) :
  cache this <> CacheFlag false ->
  generate this _generate params type [p] s w = (Return r1, w1) ->
  result_generations r1 = [Some g] ->
  generate this _generate params type [p] s w1
  = (Return {| result_generations := result_generations r1;
               result_llmOutput := None |},
     emit (ELookup p (llmStringKey params type s)) w1).
Proof.
  intros Hcache Hfirst Hgen.
  assert (Hc : strictly_false (cache this) = false).
  { destruct (cache this) as [|[|]|]; try reflexivity. now elim Hcache. }
  assert (Hhit : InMemoryCache.lookup (Some p) (llmStringKey params type s)
                                      (store w1) = Some g).
  { unfold generate in Hfirst. rewrite Hc in Hfirst.
    cbn [lookup_all] in Hfirst.
    unfold bind at 1 2 3, cache_lookup at 1, ret at 1 2 in Hfirst.
    destruct (InMemoryCache.lookup (Some p) (llmStringKey params type s)
                                   (store w)) as [g0|] eqn:Hlook;
      cbn [missing_from length Nat.ltb Nat.leb map nth] in Hfirst.
    - unfold ret in Hfirst. injection Hfirst as <- <-.
      cbn [result_generations] in Hgen. injection Hgen as <-.
      exact Hlook.
    - unfold bind at 1 in Hfirst.
      destruct (_generateUncached this _generate [p] s _)
        as [[results|e|] wb]; try discriminate.
      destruct (generations results) as [|g1 rest].
      + cbn [fill] in Hfirst. unfold bind, ret in Hfirst.
        injection Hfirst as <- <-. discriminate.
      + cbn [fill nth_error] in Hfirst.
        unfold bind at 1 2, cache_update at 1 in Hfirst.
        cbn [array_set] in Hfirst.
        match type of Hfirst with
        | context [fill ?ps ?k ?m ?i ?rs ?a ?w0] =>
            destruct (@fill_beyond ps k m rs i a w0) as [wd [Hfill Hstore]];
              [simpl; lia|rewrite Hfill in Hfirst]
        end.
        unfold ret in Hfirst. injection Hfirst as <- <-.
        cbn [result_generations] in Hgen. injection Hgen as <-.
        rewrite Hstore. cbn [store]. apply lookup_update. }
  unfold generate. rewrite Hc. cbn [lookup_all].
  unfold bind at 1 2 3, cache_lookup at 1, ret at 1 2.
  rewrite Hhit. cbn [missing_from length Nat.ltb Nat.leb].
  unfold ret. now rewrite Hgen.
Qed.

Lemma second_call_is_served_from_cache_witness :
  exists (llm : OpenAI) (r1 : GenerateResult) (w1 : World),
    OpenAI_constructor (Example.env_of Example.echo) no_fields [] = inr llm /\
    OpenAI_generate (Example.env_of Example.echo) llm ["p"] None empty_world
    = (Return r1, w1) /\
    OpenAI_generate (Example.env_of Example.echo) llm ["p"] None w1
    = (Return {| result_generations := result_generations r1;
                 result_llmOutput := None |},
       emit (ELookup "p" (OpenAI_llmStringKey llm None)) w1).
Proof.
  do 3 eexists. split; [reflexivity|]. split; [vm_compute; reflexivity|].
  unfold OpenAI_generate, OpenAI_llmStringKey.
  eapply second_call_is_served_from_cache with (w := empty_world);
    [discriminate|vm_compute; reflexivity|reflexivity].
Defined.

(** C2 as stated fails: the result of the second call is not the result
    of the first, which carries the token usage of the network call. *)
Lemma second_call_result_differs :
  exists (llm : OpenAI) (r1 r2 : GenerateResult) (w1 w2 : World),
    OpenAI_constructor (Example.env_of Example.echo) no_fields [] = inr llm /\
    OpenAI_generate (Example.env_of Example.echo) llm ["p"] None empty_world
    = (Return r1, w1) /\
    OpenAI_generate (Example.env_of Example.echo) llm ["p"] None w1
    = (Return r2, w2) /\
    r2 <> r1.
Proof.
  do 5 eexists. split; [reflexivity|].
  split; [vm_compute; reflexivity|].
  split; [vm_compute; reflexivity|].
  discriminate.
Qed.

(** ** Streaming and sub-batches *)

(** On the streaming path every sub-batch contributes exactly one choice,
    whatever the provider streams. *)
Lemma complete_all_streaming_count (this : OpenAI)
      (completionWithRetry_ : JS.object -> Promise CompletionData)
      (params : JS.object) :
  JS.truthy (JS.get "stream" params) = true ->
  forall subPrompts acc tokenUsage w r w',
    complete_all this completionWithRetry_ params subPrompts acc tokenUsage w
    = (Return r, w') ->
    length (fst r) = length acc + length subPrompts.
Proof.
  intros Hflag.
  induction subPrompts as [|sub rest IH]; intros acc tokenUsage w r w' H.
  - cbn [complete_all] in H. unfold ret in H. injection H as <- _.
    simpl. lia.
  - cbn [complete_all] in H. rewrite Hflag in H. unfold bind at 1 in H.
    destruct (completionWithRetry_ _ w) as [[data|e|] w1]; try discriminate.
    unfold bind at 1 2 in H.
    destruct (read_stream this (stream data) empty_choice w1)
      as [[choice|e|] w2]; try discriminate.
    unfold ret in H. apply IH in H.
    rewrite H, length_app. simpl. lia.
Qed.

(** So a streaming instance returns one generation list per sub-batch,
    not one per prompt. *)
Lemma streaming_generation_count (this : OpenAI)
      (completionWithRetry_ : JS.object -> Promise CompletionData)
      (prompts : list string) (s : option (list string))
      (w w' : World) (r : LLMResult) :
  JS.truthy (JS.get "stream" (invocationParams this)) = true ->
  n this = 1 ->
  _generate this completionWithRetry_ prompts s w = (Return r, w') ->
  length (generations r) = length (chunkArray prompts (batchSize this)).
Proof.
  intros Hflag Hn H. unfold _generate in H. rewrite Hn in H.
  assert (Hrun : forall params,
             JS.truthy (JS.get "stream" params) = true ->
             (x <- complete_all this completionWithRetry_ params
                    (chunkArray prompts (batchSize this)) [] empty_usage ;;
              ret {| generations :=
                       map (map to_generation) (chunkArray (fst x) 1);
                     llmOutput := Some (snd x) |}) w = (Return r, w') ->
             length (generations r)
             = length (chunkArray prompts (batchSize this))).
  { intros params Hp Hx. unfold bind in Hx.
    destruct (complete_all _ _ params _ _ _ w) as [[x|e|] w1] eqn:Hc;
      try discriminate.
    unfold ret in Hx. injection Hx as <- _. cbn [generations].
    apply (complete_all_streaming_count _ _ _ Hp) in Hc.
    rewrite length_map.
    pose proof (chunkArray_count (fst x) 0) as Hcount.
    change (chunkArray (fst x) 1)
      with (chunkArray_fuel (length (fst x)) (fst x) 1) in Hcount.
    simpl in Hc. lia. }
  destruct (stop this), s; try discriminate;
    (eapply Hrun; [|exact H]); now rewrite stream_flag_after_stop.
Qed.

(** C1, at a failing input.  A streaming instance with the default batch
    size of 20 sends the prompts ["a"] and ["b"] as one request and reads
    exactly one choice from the stream, into which the deltas of both
    prompts are appended.  With the cache off the result has one
    generation list for two prompts; with the cache on it has two entries,
    the second of which is [null]. *)
Theorem streaming_yields_one_choice_per_sub_batch :
  exists uncached cached : OpenAI,
    OpenAI_constructor (Example.env_of Example.echo)
      (with_streaming (Some true) (with_cache (CacheFlag false) no_fields)) []
    = inr uncached /\
    OpenAI_constructor (Example.env_of Example.echo)
      (with_streaming (Some true) no_fields) [] = inr cached /\
    batchSize uncached = 20 /\
    fst (OpenAI_generate (Example.env_of Example.echo) uncached
                         ["a"; "b"] None empty_world)
    = Return {| result_generations :=
                  [Some [{| text := "re:are:b"; finishReason := Some "stop";
                            logprobs := None |}]];
                result_llmOutput := Some empty_usage |} /\
    fst (OpenAI_generate (Example.env_of Example.echo) cached
                         ["a"; "b"] None empty_world)
    = Return {| result_generations :=
                  [Some [{| text := "re:are:b"; finishReason := Some "stop";
                            logprobs := None |}];
                   None];
                result_llmOutput := Some empty_usage |}.
Proof.
  do 2 eexists. repeat split; vm_compute; reflexivity.
Qed.

(** ** The stop-sequence conflict *)

(** On the way to the provider the conflict is detected before any
    request is made. *)
Lemma _generate_stop_conflict (this : OpenAI)
      (completionWithRetry_ : JS.object -> Promise CompletionData)
      (prompts given configured : list string) (w : World) :
  stop this = Some configured ->
  _generate this completionWithRetry_ prompts (Some given) w
  = (Throw "Error: Stop found in input and default params", w).
Proof. unfold _generate. now intros ->. Qed.

(** C5, at a failing input.  A plain instance calls [generate(["p"], ["s"])]
    and fills the module-level cache.  An instance constructed with the
    stop list [["x"]] that then calls [generate(["p"], ["s"])] derives the
    same key, finds the prompt in the cache and returns the cached
    generations: no error is raised.  On an empty cache the same call
    throws. *)
Theorem stop_conflict_not_raised_on_cache_hit :
  exists (plain stopped : OpenAI) (w1 : World),
    OpenAI_constructor (Example.env_of Example.echo) no_fields [] = inr plain /\
    OpenAI_constructor (Example.env_of Example.echo)
      (with_stop (Some ["x"]) no_fields) [] = inr stopped /\
    snd (OpenAI_generate (Example.env_of Example.echo) plain
                         ["p"] (Some ["s"]) empty_world) = w1 /\
    fst (OpenAI_generate (Example.env_of Example.echo) stopped
                         ["p"] (Some ["s"]) w1)
    = Return {| result_generations :=
                  [Some [{| text := "re:p"; finishReason := Some "stop";
                            logprobs := None |}]];
                result_llmOutput := None |} /\
    fst (OpenAI_generate (Example.env_of Example.echo) stopped
                         ["p"] (Some ["s"]) empty_world)
    = Throw "Error: Stop found in input and default params".
Proof.
  do 3 eexists. split; [reflexivity|]. split; [reflexivity|].
  split; [vm_compute; reflexivity|].
  split; vm_compute; reflexivity.
Qed.

(** ** Hooks and the tracking call *)

(** C4, as the code has it.  No hook call and no tracking call is guarded:
    a start hook that throws makes [_generateUncached] fail with the
    hook's error before [_generate] runs; an end hook that throws after a
    successful [_generate] makes it fail with the hook's error; an error
    hook that throws replaces the error of [_generate] by its own; a
    rejected track-request POST makes [completionWithRetry] of the
    PromptLayer subclass fail although the completion succeeded.  When
    no hook throws, the outcome is that of [_generate]. *)
Theorem side_effect_failures_propagate (this : BaseLLM)
        (_generate : list string -> option (list string) -> Promise LLMResult)
        (prompts : list string) (s : option (list string)) (w : World)
        (env : Environment) (pl : PromptLayerOpenAI) (request : JS.object) :
  (forall e,
      start_hook this prompts = Some (Some e) ->
      _generateUncached this _generate prompts s w
      = (Throw e, emit (EStart prompts) w)) /\
  (forall w0 w1 output e,
      notify (EStart prompts) (start_hook this prompts) w = (Return tt, w0) ->
      _generate prompts s w0 = (Return output, w1) ->
      end_hook this output = Some (Some e) ->
      _generateUncached this _generate prompts s w
      = (Throw e, emit (EEnd output) w1)) /\
  (forall w0 w1 err e,
      notify (EStart prompts) (start_hook this prompts) w = (Return tt, w0) ->
      _generate prompts s w0 = (Throw err, w1) ->
      error_hook this err = Some (Some e) ->
      _generateUncached this _generate prompts s w
      = (Throw e, emit (EError err) w1)) /\
  (forall w1 response e,
      JS.truthy (JS.get "stream" request) = false ->
      completionWithRetry env (super pl) request w = (Return response, w1) ->
      track_request env request response = Some e ->
      PromptLayer_completionWithRetry env pl request w
      = (Throw e, emit (ETrack request) w1)) /\
  (forall w0,
      notify (EStart prompts) (start_hook this prompts) w = (Return tt, w0) ->
      (forall err e, error_hook this err <> Some (Some e)) ->
      (forall output e, end_hook this output <> Some (Some e)) ->
      fst (_generateUncached this _generate prompts s w)
      = fst (_generate prompts s w0)).
Proof.
  repeat split.
  - intros e H. unfold _generateUncached, bind. now rewrite H.
  - intros w0 w1 output e H0 H1 H2.
    unfold _generateUncached.
    erewrite bind_Return by exact H0.
    erewrite bind_Return
      by (unfold try_catch, queue_add; rewrite H1; reflexivity).
    unfold bind. now rewrite H2.
  - intros w0 w1 err e H0 H1 H2.
    unfold _generateUncached.
    erewrite bind_Return by exact H0.
    erewrite bind_Throw; [reflexivity|].
    unfold try_catch, queue_add. rewrite H1.
    unfold bind. now rewrite H2.
  - intros w1 response e Hflag Hrun Htrack.
    unfold PromptLayer_completionWithRetry. rewrite Hflag.
    erewrite bind_Return by exact Hrun.
    unfold bind, track. now rewrite Htrack.
  - intros w0 H0 Herr Hend.
    unfold _generateUncached.
    erewrite bind_Return by exact H0.
    unfold bind at 1, try_catch, queue_add.
    destruct (_generate prompts s w0) as [[output|err|] w1]; cbn [fst].
    + unfold bind, notify.
      destruct (end_hook this output) as [[e|]|] eqn:He;
        [now elim (Hend output e)|reflexivity|reflexivity].
    + unfold bind, notify.
      destruct (error_hook this err) as [[e|]|] eqn:He;
        [now elim (Herr err e)|reflexivity|reflexivity].
    + reflexivity.
Qed.

Lemma side_effect_failures_propagate_witness :
  exists (llm : OpenAI) (pl : PromptLayerOpenAI) (w1 : World)
         (response : CompletionData),
    OpenAI_constructor (Example.env_of Example.echo)
      (with_callbackManager (Some Example.failing_start) no_fields) []
    = inr llm /\
    PromptLayerOpenAI_constructor Example.env_tracking_down no_fields None None
    = inr pl /\
    _generateUncached (base llm)
      (_generate llm (completionWithRetry (Example.env_of Example.echo) llm))
      ["p"] None empty_world
    = (Throw "Error: start hook failed", emit (EStart ["p"]) empty_world) /\
    completionWithRetry Example.env_tracking_down (super pl)
      [("prompt", JS.of_strings ["p"])] empty_world = (Return response, w1) /\
    PromptLayer_completionWithRetry Example.env_tracking_down pl
      [("prompt", JS.of_strings ["p"])] empty_world
    = (Throw "TypeError: fetch failed",
       emit (ETrack [("prompt", JS.of_strings ["p"])]) w1).
Proof.
  do 4 eexists.
  split; [reflexivity|]. split; [reflexivity|].
  match goal with
  | |- _generateUncached ?b ?g _ _ _ = _ /\ _ /\
       PromptLayer_completionWithRetry ?env ?pl ?request _ = _ =>
      pose proof (@side_effect_failures_propagate
                    b g ["p"] None empty_world env pl request) as H
  end.
  split; [|split].
  - apply (proj1 H). reflexivity.
  - vm_compute. reflexivity.
  - eapply (proj1 (proj2 (proj2 (proj2 H))));
      [reflexivity|vm_compute; reflexivity|reflexivity].
Defined.

(** C4 as stated fails: the same call succeeds with silent hooks and
    fails when the start hook throws; and the PromptLayer instance fails
    when its tracking endpoint is down, although the provider answered. *)
Lemma hook_failure_changes_outcome :
  exists (quiet noisy : OpenAI) (tracked : PromptLayerOpenAI)
         (r : GenerateResult),
    OpenAI_constructor (Example.env_of Example.echo) no_fields [] = inr quiet /\
    OpenAI_constructor (Example.env_of Example.echo)
      (with_callbackManager (Some Example.failing_start) no_fields) []
    = inr noisy /\
    PromptLayerOpenAI_constructor Example.env_tracking_down no_fields None None
    = inr tracked /\
    fst (OpenAI_generate (Example.env_of Example.echo) quiet
                         ["p"] None empty_world) = Return r /\
    fst (OpenAI_generate (Example.env_of Example.echo) noisy
                         ["p"] None empty_world)
    = Throw "Error: start hook failed" /\
    fst (PromptLayer_generate (Example.env_of Example.echo) tracked
                              ["p"] None empty_world) = Return r /\
    fst (PromptLayer_generate Example.env_tracking_down tracked
                              ["p"] None empty_world)
    = Throw "TypeError: fetch failed".
Proof.
  do 4 eexists.
  split; [reflexivity|]. split; [reflexivity|]. split; [reflexivity|].
  split; [vm_compute; reflexivity|].
  repeat split; vm_compute; reflexivity.
Qed.

(** ** Which computations touch the cache *)

Lemma silent_ret {A} (a : A) : cache_silent (ret a).
Proof.
  intros w. split; [reflexivity|]. exists []. now rewrite app_nil_r.
Qed.

Lemma silent_throw {A} (e : error) : cache_silent (@throw A e).
Proof.
  intros w. split; [reflexivity|]. exists []. now rewrite app_nil_r.
Qed.

Lemma silent_step {A B} (m : Promise A) (w : World)
      (k : World -> outcome B * World) :
  (forall w1, store (snd (k w1)) = store w1 /\
              exists t, trace (snd (k w1)) = trace w1 ++ t
                        /\ Forall (fun e => is_cache_effect e = false) t) ->
  cache_silent m ->
  store (snd (k (snd (m w)))) = store w /\
  exists t, trace (snd (k (snd (m w)))) = trace w ++ t
            /\ Forall (fun e => is_cache_effect e = false) t.
Proof.
  intros Hk Hm.
  destruct (Hm w) as [Hs [t1 [Ht1 Hf1]]].
  destruct (Hk (snd (m w))) as [Hs2 [t2 [Ht2 Hf2]]].
  split; [congruence|].
  exists (t1 ++ t2). split.
  - now rewrite Ht2, Ht1, app_assoc.
  - now apply Forall_app.
Qed.

Lemma silent_bind {A B} (m : Promise A) (k : A -> Promise B) :
  cache_silent m -> (forall a, cache_silent (k a)) -> cache_silent (bind m k).
Proof.
  intros Hm Hk w. unfold bind.
  destruct (m w) as [[a|e|] w1] eqn:Hrun.
  - replace w1 with (snd (m w)) by now rewrite Hrun.
    apply (@silent_step _ _ m w (k a)); [apply Hk|exact Hm].
  - replace w1 with (snd (m w)) by now rewrite Hrun. apply Hm.
  - replace w1 with (snd (m w)) by now rewrite Hrun. apply Hm.
Qed.

Lemma silent_try_catch {A} (m : Promise A) (h : error -> Promise A) :
  cache_silent m -> (forall e, cache_silent (h e)) ->
  cache_silent (try_catch m h).
Proof.
  intros Hm Hh w. unfold try_catch.
  destruct (m w) as [[a|e|] w1] eqn:Hrun.
  - replace w1 with (snd (m w)) by now rewrite Hrun. apply Hm.
  - replace w1 with (snd (m w)) by now rewrite Hrun.
    apply (@silent_step _ _ m w (h e)); [apply Hh|exact Hm].
  - replace w1 with (snd (m w)) by now rewrite Hrun. apply Hm.
Qed.

Lemma silent_emit {A} (e : effect) (o : World -> outcome A) :
  is_cache_effect e = false -> cache_silent (fun w => (o w, emit e w)).
Proof.
  intros He w. split; [reflexivity|]. exists [e]. split; [reflexivity|].
  now constructor.
Qed.

Lemma silent_notify (e : effect) (call : option (option error)) :
  is_cache_effect e = false -> cache_silent (notify e call).
Proof.
  intros He. destruct call as [[err|]|]; simpl.
  - apply silent_bind; [now apply (silent_emit e)|intros; apply silent_throw].
  - apply silent_bind; [now apply (silent_emit e)|intros; apply silent_ret].
  - apply silent_ret.
Qed.

Lemma silent_retry {A} (request : Promise A) (k : nat) :
  cache_silent request -> cache_silent (retry request k).
Proof.
  intros H. induction k as [|k IH]; simpl; [exact H|].
  apply silent_try_catch; [exact H|intros _; exact IH].
Qed.

Lemma silent_completionWithRetry (env : Environment) (this : OpenAI)
      (request : JS.object) :
  cache_silent (completionWithRetry env this request).
Proof.
  apply silent_retry.
  exact (silent_emit (ENetwork request)
           (fun w => network env (count_network (trace w)) request) eq_refl).
Qed.

Lemma silent_PromptLayer_completionWithRetry (env : Environment)
      (pl : PromptLayerOpenAI) (request : JS.object) :
  cache_silent (PromptLayer_completionWithRetry env pl request).
Proof.
  unfold PromptLayer_completionWithRetry.
  destruct (JS.truthy _); [apply silent_completionWithRetry|].
  apply silent_bind; [apply silent_completionWithRetry|intros data].
  apply silent_bind; [|intros; apply silent_ret].
  exact (silent_emit (ETrack request)
           (fun _ => match track_request env request data with
                     | None => Return tt
                     | Some e => Throw e
                     end) eq_refl).
Qed.

Lemma silent_feed (this : OpenAI) (events : list ParsedEvent) :
  forall (st : Choice * bool) (w : World),
    store (snd (feed this events st w)) = store w /\
    exists t, trace (snd (feed this events st w)) = trace w ++ t
              /\ Forall (fun e => is_cache_effect e = false) t.
Proof.
  induction events as [|event events IH]; intros st w; simpl.
  - split; [reflexivity|]. exists []. now rewrite app_nil_r.
  - destruct (on_parse this event st w) as [st' w'] eqn:Hstep.
    assert (Hw : store w' = store w /\
                 exists t, trace w' = trace w ++ t
                           /\ Forall (fun e => is_cache_effect e = false) t).
    { unfold on_parse in Hstep.
      destruct event as [[|[|part parts]]|];
        try (injection Hstep as <- <-; split;
             [reflexivity|exists []; now rewrite app_nil_r]).
      injection Hstep as <- <-.
      destruct (handleNewToken _).
      - split; [reflexivity|]. exists [ENewToken (fragment part)].
        split; [reflexivity|now constructor].
      - split; [reflexivity|]. exists []. now rewrite app_nil_r. }
    destruct Hw as [Hs [t1 [Ht1 Hf1]]].
    destruct (IH st' w') as [Hs2 [t2 [Ht2 Hf2]]].
    split; [congruence|]. exists (t1 ++ t2). split.
    + now rewrite Ht2, Ht1, app_assoc.
    + now apply Forall_app.
Qed.

Lemma silent_drain (this : OpenAI) (items : list StreamItem) :
  forall (choice : Choice) (w : World),
    store (snd (drain this items choice w)) = store w /\
    exists t, trace (snd (drain this items choice w)) = trace w ++ t
              /\ Forall (fun e => is_cache_effect e = false) t.
Proof.
  induction items as [|[events|e] items IH]; intros choice w.
  - split; [reflexivity|]. exists []. now rewrite app_nil_r.
  - cbn [drain].
    destruct (feed this events (choice, true) w) as [st w'] eqn:Hfeed.
    pose proof (silent_feed this events (choice, true) w) as Hw.
    rewrite Hfeed in Hw. cbn [snd] in Hw.
    destruct Hw as [Hs [t1 [Ht1 Hf1]]].
    destruct (IH (fst st) w') as [Hs2 [t2 [Ht2 Hf2]]].
    split; [congruence|]. exists (t1 ++ t2). split.
    + now rewrite Ht2, Ht1, app_assoc.
    + now apply Forall_app.
  - split; [reflexivity|]. exists []. now rewrite app_nil_r.
Qed.

Lemma silent_read_stream (this : OpenAI) (items : list StreamItem) :
  forall choice, cache_silent (read_stream this items choice).
Proof.
  induction items as [|[events|e] items IH]; intros choice.
  - intros w. split; [reflexivity|]. exists []. now rewrite app_nil_r.
  - intros w. cbn [read_stream].
    destruct (feed this events (choice, false) w) as [st w'] eqn:Hfeed.
    pose proof (silent_feed this events (choice, false) w) as Hw.
    rewrite Hfeed in Hw. cbn [snd] in Hw.
    destruct Hw as [Hs [t1 [Ht1 Hf1]]].
    destruct (snd st).
    + destruct (silent_drain this items (fst st) w')
        as [Hs2 [t2 [Ht2 Hf2]]].
      destruct (drain this items (fst st) w') as [choice' w2].
      cbn [snd] in *. split; [congruence|]. exists (t1 ++ t2). split.
      * now rewrite Ht2, Ht1, app_assoc.
      * now apply Forall_app.
    + destruct (IH (fst st) w') as [Hs2 [t2 [Ht2 Hf2]]].
      split; [congruence|]. exists (t1 ++ t2). split.
      * now rewrite Ht2, Ht1, app_assoc.
      * now apply Forall_app.
  - apply silent_throw.
Qed.

Lemma silent_complete_all (this : OpenAI)
      (completionWithRetry_ : JS.object -> Promise CompletionData)
      (params : JS.object) (subPrompts : list (list string)) :
  (forall request, cache_silent (completionWithRetry_ request)) ->
  forall acc tokenUsage,
    cache_silent
      (complete_all this completionWithRetry_ params subPrompts acc tokenUsage).
Proof.
  intros Hc. induction subPrompts as [|sub rest IH]; intros acc tokenUsage.
  - apply silent_ret.
  - cbn [complete_all].
    apply silent_bind; [apply Hc|intros data].
    apply silent_bind; [|intros acc'; apply IH].
    destruct (JS.truthy _); [|apply silent_ret].
    apply silent_bind; [apply silent_read_stream|intros; apply silent_ret].
Qed.

Lemma silent__generate (this : OpenAI)
      (completionWithRetry_ : JS.object -> Promise CompletionData)
      (prompts : list string) (s : option (list string)) :
  (forall request, cache_silent (completionWithRetry_ request)) ->
  cache_silent (_generate this completionWithRetry_ prompts s).
Proof.
  intros Hc. unfold _generate.
  assert (Hrun : forall params,
             cache_silent
               (r <- complete_all this completionWithRetry_ params
                      (chunkArray prompts (batchSize this)) [] empty_usage ;;
                ret {| generations :=
                         map (map to_generation) (chunkArray (fst r) (n this));
                       llmOutput := Some (snd r) |})).
  { intros params. apply silent_bind; [now apply silent_complete_all|].
    intros; apply silent_ret. }
  destruct (stop this), s; try apply Hrun. apply silent_throw.
Qed.

Lemma silent__generateUncached (this : BaseLLM)
      (_generate : list string -> option (list string) -> Promise LLMResult)
      (prompts : list string) (s : option (list string)) :
  cache_silent (_generate prompts s) ->
  cache_silent (_generateUncached this _generate prompts s).
Proof.
  intros H. unfold _generateUncached.
  apply silent_bind; [now apply silent_notify|intros _].
  apply silent_bind.
  - apply silent_try_catch; [exact H|intros err].
    apply silent_bind; [now apply silent_notify|intros; apply silent_throw].
  - intros output.
    apply silent_bind; [now apply silent_notify|intros; apply silent_ret].
Qed.

(** ** The cache is on unless switched off *)

Lemma lookup_all_spec (prompts : list string) (key : string) :
  forall w,
    lookup_all prompts key w
    = (Return (map (fun p => InMemoryCache.lookup (Some p) key (store w))
                   prompts),
       {| store := store w;
          trace := trace w ++ map (fun p => ELookup p key) prompts |}).
Proof.
  induction prompts as [|p prompts IH]; intros w.
  - simpl. unfold ret. rewrite app_nil_r. now destruct w.
  - cbn [lookup_all]. unfold bind at 1, cache_lookup at 1.
    unfold bind at 1. rewrite IH. unfold ret. cbn [emit store trace map].
    now rewrite <- app_assoc.
Qed.

Lemma array_set_lookup {A} (j : nat) (v : A) :
  forall (l : list (option A)) (i : nat) (x : A),
    nth_error (array_set j v l) i = Some (Some x) ->
    (i = j /\ x = v) \/ nth_error l i = Some (Some x).
Proof.
  induction j as [|j IH]; intros l i x H.
  - destruct l as [|y l], i as [|i]; simpl in H.
    + left. split; congruence.
    + destruct i; discriminate.
    + left. split; congruence.
    + now right.
  - destruct l as [|y l], i as [|i]; simpl in H; try discriminate.
    + destruct (IH [] i x H) as [[-> ->]|H']; [now left|].
      destruct i; discriminate.
    + now right.
    + destruct (IH l i x H) as [[-> ->]|H']; [now left|now right].
Qed.

(** Every entry that [fill] puts into the array is also written to the
    cache, under the prompt of that entry. *)
Lemma fill_spec (prompts : list string) (key : string) (missing : list nat)
      (results : list (list Generation)) :
  forall (index : nat) (arr : list (option (list Generation))) (w : World),
  exists arr' w' t,
    fill prompts key missing index results arr w = (Return arr', w')
    /\ trace w' = trace w ++ t
    /\ forall i g,
        nth_error arr' i = Some (Some g) ->
        nth_error arr i = Some (Some g)
        \/ In (EUpdate (nth_error prompts i) key g) t.
Proof.
  induction results as [|g results IH]; intros index arr w.
  - exists arr, w, []. cbn [fill]. unfold ret. rewrite app_nil_r. auto.
  - cbn [fill].
    destruct (nth_error missing index) as [promptIndex|].
    + unfold bind at 1, cache_update at 1.
      match goal with
      | |- context [fill _ _ _ _ _ ?a ?w0] =>
          destruct (IH (S index) a w0) as (arr' & w' & t & Hrun & Ht & Hin)
      end.
      exists arr', w', (EUpdate (nth_error prompts promptIndex) key g :: t).
      split; [exact Hrun|]. split.
      * rewrite Ht. cbn [trace]. now rewrite <- app_assoc.
      * intros i x Hx.
        destruct (Hin i x Hx) as [Hset|Hlater]; [|right; now right].
        destruct (array_set_lookup _ _ _ _ Hset) as [[-> ->]|Hold];
          [right; now left|now left].
    + unfold bind at 1, cache_update at 1.
      match goal with
      | |- context [fill _ _ _ _ _ ?a ?w0] =>
          destruct (IH (S index) a w0) as (arr' & w' & t & Hrun & Ht & Hin)
      end.
      exists arr', w', (EUpdate None key g :: t).
      split; [exact Hrun|]. split.
      * rewrite Ht. cbn [trace]. now rewrite <- app_assoc.
      * intros i x Hx.
        destruct (Hin i x Hx) as [Hold|Hlater]; [now left|right; now right].
Qed.

Lemma constructor_cache (env : Environment) (fields : OpenAIFields)
      (configuration : JS.object) (this : OpenAI) :
  OpenAI_constructor env fields configuration = inr this ->
  cache (base this) = f_cache fields.
Proof.
  unfold OpenAI_constructor, BaseLLM_constructor. intros H.
  destruct (f_concurrency fields) as [[|k]|]; try discriminate;
    repeat match type of H with
           | (if ?c then _ else _) = _ => destruct c; try discriminate
           end;
    now inversion H.
Qed.

(** ** Batching *)

Lemma request_prompts_set (sub : list string) (params : JS.object) :
  request_prompts (JS.set "prompt" (JS.of_strings sub) params) = sub.
Proof.
  unfold request_prompts. rewrite get_set_same. unfold JS.of_strings.
  rewrite map_map. simpl. apply map_id.
Qed.

Lemma network_prompts_emit (t : list effect) (request : JS.object) :
  network_prompts (t ++ [ENetwork request])
  = network_prompts t ++ [request_prompts request].
Proof. unfold network_prompts. now rewrite flat_map_app. Qed.

(** The loop of [_generate] on the plain path, against a provider that
    answers every request at once with the completions of its prompts, in
    prompt order: one network call per sub-batch, and the choices of all
    prompts in order. *)
Lemma complete_all_plain (env : Environment) (this : OpenAI)
      (params : JS.object) (answer : string -> list Generation) :
  JS.truthy (JS.get "stream" params) = false ->
  (forall k request,
      JS.truthy (JS.get "stream" request) = false ->
      exists data,
        network env k request = Return data /\
        map to_generation (choices data)
        = flat_map answer (request_prompts request)) ->
  forall subPrompts acc tokenUsage w,
  exists r w',
    complete_all this (completionWithRetry env this) params subPrompts
                 acc tokenUsage w = (Return r, w')
    /\ map to_generation (fst r)
       = map to_generation acc ++ flat_map answer (concat subPrompts)
    /\ network_prompts (trace w')
       = network_prompts (trace w) ++ subPrompts.
Proof.
  intros Hplain Hnet.
  induction subPrompts as [|sub rest IH]; intros acc tokenUsage w.
  - exists (acc, tokenUsage), w. cbn [complete_all concat flat_map fst].
    now rewrite !app_nil_r.
  - cbn [complete_all]. rewrite Hplain.
    destruct (Hnet (count_network (trace w))
                   (JS.set "prompt" (JS.of_strings sub) params))
      as [data [Hdata Hchoices]];
      [rewrite get_set_other by discriminate; exact Hplain|].
    erewrite bind_Return by (apply completionWithRetry_first_try, Hdata).
    erewrite bind_Return by reflexivity.
    destruct (IH (acc ++ choices data) (add_usage tokenUsage (usage data))
                 (emit (ENetwork (JS.set "prompt" (JS.of_strings sub) params))
                       w))
      as (r & w' & Hrun & Hr & Htrace).
    exists r, w'. split; [exact Hrun|]. split.
    + rewrite Hr, map_app, Hchoices, request_prompts_set.
      cbn [concat]. now rewrite flat_map_app, app_assoc.
    + rewrite Htrace. cbn [emit trace].
      rewrite network_prompts_emit, request_prompts_set.
      now rewrite <- app_assoc.
Qed.

(** C8.  With a batch size and an [n] of at least one, on the plain
    (non-streaming) path and against a provider that answers each request
    with the completions of its prompts in order, [n] for each:
    the sub-batches are the prompt list cut in order into blocks of
    [batchSize] with a smaller last one, their number is the ceiling of
    [length prompts / batchSize], each is sent in one network call, in
    order, and the result has for every prompt, in prompt order, the list
    of its [n] completions. *)
Theorem batching (env : Environment) (this : OpenAI) (prompts : list string)
        (s : option (list string)) (answer : string -> list Generation)
        (w : World) :
  1 <= batchSize this ->
  1 <= n this ->
  JS.truthy (JS.get "stream" (invocationParams this)) = false ->
  stop this = None \/ s = None ->
  (forall k request,
      JS.truthy (JS.get "stream" request) = false ->
      exists data,
        network env k request = Return data /\
        map to_generation (choices data)
        = flat_map answer (request_prompts request)) ->
  (forall p, length (answer p) = n this) ->
  concat (chunkArray prompts (batchSize this)) = prompts /\
  map (@length string) (chunkArray prompts (batchSize this))
  = repeat (batchSize this) (length prompts / batchSize this)
    ++ (if (length prompts mod batchSize this =? 0)%nat then []
        else [length prompts mod batchSize this]) /\
  length prompts
  <= length (chunkArray prompts (batchSize this)) * batchSize this
  < length prompts + batchSize this /\
  exists r w',
    _generate this (completionWithRetry env this) prompts s w = (Return r, w')
    /\ network_prompts (trace w')
       = network_prompts (trace w) ++ chunkArray prompts (batchSize this)
    /\ generations r = map answer prompts
    /\ length (generations r) = length prompts
    /\ Forall (fun g => length g = n this) (generations r).
Proof.
  intros Hb Hn Hplain Hstop Hnet Hanswer.
  destruct (batchSize this) as [|b] eqn:Hbatch; [lia|].
  destruct (n this) as [|k] eqn:Hk; [lia|].
  assert (Hconcat : concat (chunkArray prompts (S b)) = prompts).
  { unfold chunkArray. now apply chunkArray_fuel_concat. }
  split; [exact Hconcat|].
  split; [unfold chunkArray; now apply chunkArray_fuel_sizes|].
  split; [apply chunkArray_count|].
  set (params :=
         JS.set "stop"
           (JS.nullish (JS.of_option JS.of_strings s)
                       (JS.get "stop" (invocationParams this)))
           (invocationParams this)).
  assert (Hflag : JS.truthy (JS.get "stream" params) = false).
  { unfold params. now rewrite stream_flag_after_stop. }
  destruct (complete_all_plain env this params answer Hflag Hnet
              (chunkArray prompts (S b)) [] empty_usage w)
    as (r & w' & Hrun & Hr & Htrace).
  assert (Hgen : map (map to_generation) (chunkArray (fst r) (S k))
                 = map answer prompts).
  { rewrite chunkArray_map, Hr, Hconcat. cbn [map app].
    now apply chunkArray_flat_map. }
  exists {| generations := map (map to_generation) (chunkArray (fst r) (S k));
            llmOutput := Some (snd r) |}, w'.
  split; [|split; [exact Htrace|split; [exact Hgen|split]]].
  - unfold _generate. rewrite Hbatch, Hk. fold params.
    destruct Hstop as [-> | ->];
      [|destruct (stop this)];
      (erewrite bind_Return by exact Hrun); reflexivity.
  - cbn [generations]. now rewrite Hgen, length_map.
  - cbn [generations]. rewrite Hgen. apply Forall_forall.
    intros g Hg. apply in_map_iff in Hg as [p [<- _]]. apply Hanswer.
Qed.

Lemma echo_generations (prompts : list string) :
  forall index,
    map to_generation (Example.replies index prompts)
    = flat_map Example.echo_answer prompts.
Proof.
  induction prompts as [|p prompts IH]; intros index; [reflexivity|].
  cbn [Example.replies map flat_map]. now rewrite IH.
Qed.

Lemma batching_witness :
  exists llm : OpenAI,
    OpenAI_constructor (Example.env_of Example.echo)
      (with_batchSize (Some 2) no_fields) [] = inr llm /\
    map (@length string) (chunkArray ["1"; "2"; "3"; "4"; "5"] 2) = [2; 2; 1] /\
    exists r w',
      _generate llm (completionWithRetry (Example.env_of Example.echo) llm)
                ["1"; "2"; "3"; "4"; "5"] None empty_world = (Return r, w')
      /\ network_prompts (trace w') = [["1"; "2"]; ["3"; "4"]; ["5"]]
      /\ generations r
         = map Example.echo_answer ["1"; "2"; "3"; "4"; "5"].
Proof.
  eexists. split; [reflexivity|].
  match goal with
  | |- _ /\ exists r w', _generate ?llm _ _ _ _ = _ /\ _ =>
      destruct (@batching (Example.env_of Example.echo) llm
                  ["1"; "2"; "3"; "4"; "5"] None Example.echo_answer
                  empty_world)
        as (_ & Hsizes & _ & r & w' & Hrun & Hnet & Hgen & _)
  end.
  - simpl; lia.
  - simpl; lia.
  - reflexivity.
  - now right.
  - intros k request Hplain. eexists. unfold Example.env_of, Example.echo.
    cbn [network]. rewrite Hplain. split; [reflexivity|].
    apply echo_generations.
  - reflexivity.
  - split; [exact Hsizes|]. exists r, w'.
    split; [exact Hrun|]. split; [exact Hnet|exact Hgen].
Defined.

(** ** The limiter *)

Module LimiterFacts.

Import Limiter.

Lemma invariant_init (c : option nat) : invariant c (init c).
Proof.
  unfold invariant, init; simpl. repeat split. destruct c; [lia|exact I].
Qed.

Lemma invariant_tryToStartAnother (c : option nat) (s : state) :
  invariant c s -> invariant c (tryToStartAnother s).
Proof.
  intros Hinv. unfold tryToStartAnother.
  destruct (queue s) as [|t rest] eqn:Hq; [exact Hinv|].
  destruct (has_room s) eqn:Hroom; [|exact Hinv].
  destruct Hinv as (Hb & Hrun & Hfifo). rewrite Hq in Hfifo.
  unfold invariant; simpl. repeat split.
  - exact Hb.
  - destruct c as [k|]; [|exact I].
    unfold has_room in Hroom. rewrite Hb in Hroom.
    apply Nat.ltb_lt in Hroom. rewrite length_app. simpl. lia.
  - rewrite <- Hfifo, <- app_assoc. reflexivity.
Qed.

Lemma invariant_enqueue (c : option nat) (t : nat) (s : state) :
  invariant c s -> invariant c (enqueue t s).
Proof.
  intros (Hb & Hrun & Hfifo). unfold invariant, enqueue; simpl.
  repeat split; [exact Hb|exact Hrun|].
  now rewrite app_assoc, Hfifo.
Qed.

Lemma length_remove_first (t : nat) (l : list nat) :
  length (remove_first t l) <= length l.
Proof.
  induction l as [|x l IH]; simpl; [lia|].
  destruct (x =? t)%nat; simpl; lia.
Qed.

Lemma invariant_finish (c : option nat) (t : nat) (s : state) :
  invariant c s -> invariant c (finish t s).
Proof.
  intros (Hb & Hrun & Hfifo). unfold invariant, finish; simpl.
  repeat split; [exact Hb| |exact Hfifo].
  destruct c as [k|]; [|exact I].
  pose proof (length_remove_first t (running s)). lia.
Qed.

Lemma invariant_step (c : option nat) (s s' : state) :
  invariant c s -> step s s' -> invariant c s'.
Proof.
  intros Hinv Hstep. destruct Hstep as [t s|t s Hin].
  - now apply invariant_tryToStartAnother, invariant_enqueue.
  - now apply invariant_tryToStartAnother, invariant_finish.
Qed.

Lemma invariant_reachable (c : option nat) (s0 s : state) :
  invariant c s0 -> reachable s0 s -> invariant c s.
Proof.
  intros H0. induction 1 as [|s s' _ IH Hstep].
  - exact H0.
  - exact (invariant_step IH Hstep).
Qed.

(** Every state a schedule leads to is reachable. *)
Lemma run_reachable (c : option nat) (schedule : list action) :
  reachable (init c) (run c schedule).
Proof.
  unfold run.
  induction schedule as [|a schedule IH] using rev_ind.
  - constructor.
  - rewrite fold_left_app. cbn [fold_left].
    destruct a as [t|t]; cbn [perform].
    + eapply reach_step; [exact IH|constructor].
    + destruct (existsb (Nat.eqb t) (running _)) eqn:Hex; [|exact IH].
      eapply reach_step; [exact IH|]. constructor.
      apply existsb_exists in Hex as [x [Hin Heq]].
      apply Nat.eqb_eq in Heq. now subst.
Qed.

End LimiterFacts.

(** C9.  In every state that the queue of an instance with
    [concurrency = k] can reach, whatever tasks are submitted and in
    whatever order running tasks settle, at most [k] tasks are in flight,
    and the tasks admitted so far, followed by those still waiting, are
    the submitted tasks in submission order. *)
Theorem concurrency_bound (this : BaseLLM) (k : nat) (s : Limiter.state) :
  concurrency this = Some k ->
  Limiter.reachable (BaseLLM_queue this) s ->
  length (Limiter.running s) <= k /\
  Limiter.admitted s ++ Limiter.queue s = Limiter.submitted s.
Proof.
  intros Hk Hreach.
  destruct (LimiterFacts.invariant_reachable
              (LimiterFacts.invariant_init (concurrency this)) Hreach)
    as (_ & Hrun & Hfifo).
  rewrite Hk in Hrun. split; [exact Hrun|exact Hfifo].
Qed.

Lemma concurrency_bound_witness :
  Limiter.running (Limiter.run (Some 2) Example.schedule) = [1; 3] /\
  Limiter.queue (Limiter.run (Some 2) Example.schedule) = [4; 5] /\
  length (Limiter.running (Limiter.run (Some 2) Example.schedule)) <= 2 /\
  Limiter.admitted (Limiter.run (Some 2) Example.schedule)
  ++ Limiter.queue (Limiter.run (Some 2) Example.schedule)
  = Limiter.submitted (Limiter.run (Some 2) Example.schedule).
Proof.
  split; [reflexivity|]. split; [reflexivity|].
  apply (@concurrency_bound
           {| callbackManager := getCallbackManager;
              verbose := getVerbosity;
              cache := CacheUnset;
              concurrency := Some 2 |} 2
           (Limiter.run (Some 2) Example.schedule) eq_refl).
  apply (LimiterFacts.run_reachable (Some 2)).
Defined.

(** * Further properties of the code *)

(** ** Spreading one object over another *)

Lemma get_spread_absent (k : string) (source : JS.object) :
  has_property k source = false ->
  forall target, JS.get k (JS.spread target source) = JS.get k target.
Proof.
  unfold JS.spread.
  induction source as [|[k2 v] source IH]; intros H target; [reflexivity|].
  cbn [has_property existsb fst] in H. apply orb_false_iff in H as [Hk Hrest].
  cbn [fold_left fst snd]. rewrite (IH Hrest).
  apply get_set_other. now apply String.eqb_neq.
Qed.

Lemma get_spread_present (k : string) (source : JS.object) :
  has_property k source = true ->
  forall target target',
    JS.get k (JS.spread target source) = JS.get k (JS.spread target' source).
Proof.
  unfold JS.spread.
  induction source as [|[k2 v] source IH]; intros H target target';
    [discriminate|].
  cbn [fold_left fst snd].
  destruct (has_property k source) eqn:Hrest.
  - now apply IH.
  - pose proof (get_spread_absent k source Hrest) as Habs.
    unfold JS.spread in Habs. rewrite !Habs.
    cbn [has_property existsb fst] in H. fold (has_property k source) in H.
    rewrite Hrest, orb_false_r in H. apply String.eqb_eq in H. subst k2.
    now rewrite !get_set_same.
Qed.

(** ** The constructor *)

(** X1.  The constructor fails in exactly four situations, tested in this
    order: [concurrency: 0], which the queue constructor called from
    [super()] refuses with a [TypeError]; no non-empty API key in the
    fields or the environment; streaming with [n > 1]; streaming with
    [bestOf > 1].  In every other situation it builds an instance. *)
Theorem constructor_outcome (env : Environment) (fields : OpenAIFields)
        (configuration : JS.object) :
  (f_concurrency fields = Some 0 ->
   OpenAI_constructor env fields configuration
   = inl ("TypeError: Expected `concurrency` to be a number from 1 and up, "
          ++ "got `0` (number)")%string) /\
  (f_concurrency fields <> Some 0 ->
   nonempty (first_of (f_openAIApiKey fields) (OPENAI_API_KEY env)) = false ->
   OpenAI_constructor env fields configuration
   = inl "Error: OpenAI API key not found") /\
  (f_concurrency fields <> Some 0 ->
   nonempty (first_of (f_openAIApiKey fields) (OPENAI_API_KEY env)) = true ->
   f_streaming fields = Some true ->
   1 < default (f_n fields) 1 ->
   OpenAI_constructor env fields configuration
   = inl "Error: Cannot stream results when n > 1") /\
  (f_concurrency fields <> Some 0 ->
   nonempty (first_of (f_openAIApiKey fields) (OPENAI_API_KEY env)) = true ->
   f_streaming fields = Some true ->
   default (f_n fields) 1 <= 1 ->
   1 < default (f_bestOf fields) 1 ->
   OpenAI_constructor env fields configuration
   = inl "Error: Cannot stream results when bestOf > 1") /\
  (f_concurrency fields <> Some 0 ->
   nonempty (first_of (f_openAIApiKey fields) (OPENAI_API_KEY env)) = true ->
   f_streaming fields <> Some true
   \/ (default (f_n fields) 1 <= 1 /\ default (f_bestOf fields) 1 <= 1) ->
   exists this,
     OpenAI_constructor env fields configuration = inr this
     /\ concurrency (base this) = f_concurrency fields).
Proof.
  unfold OpenAI_constructor, BaseLLM_constructor.
  split; [now intros ->|].
  destruct (f_concurrency fields) as [[|k]|].
  - repeat split; intros Hc; now elim Hc.
  - repeat split; intros _;
      [ now intros ->
      | intros -> -> Hn; cbn [negb default andb];
        apply Nat.ltb_lt in Hn; now rewrite Hn
      | intros -> -> Hn Hb; cbn [negb default andb];
        apply Nat.ltb_ge in Hn; apply Nat.ltb_lt in Hb; now rewrite Hn, Hb
      | intros -> H; cbn [negb];
        destruct H as [H|[Hn Hb]];
        [ destruct (f_streaming fields) as [[|]|]; [now elim H| |];
          cbn [default andb]; eexists; split; reflexivity
        | apply Nat.ltb_ge in Hn, Hb; rewrite Hn, Hb, !andb_false_r;
          eexists; split; reflexivity ] ].
  - repeat split; intros _;
      [ now intros ->
      | intros -> -> Hn; cbn [negb default andb];
        apply Nat.ltb_lt in Hn; now rewrite Hn
      | intros -> -> Hn Hb; cbn [negb default andb];
        apply Nat.ltb_ge in Hn; apply Nat.ltb_lt in Hb; now rewrite Hn, Hb
      | intros -> H; cbn [negb];
        destruct H as [H|[Hn Hb]];
        [ destruct (f_streaming fields) as [[|]|]; [now elim H| |];
          cbn [default andb]; eexists; split; reflexivity
        | apply Nat.ltb_ge in Hn, Hb; rewrite Hn, Hb, !andb_false_r;
          eexists; split; reflexivity ] ].
Qed.

Lemma constructor_outcome_witness :
  OpenAI_constructor (Example.env_of Example.echo)
    (with_concurrency (Some 0) (with_openAIApiKey (Some "") no_fields)) []
  = inl ("TypeError: Expected `concurrency` to be a number from 1 and up, "
         ++ "got `0` (number)")%string /\
  OpenAI_constructor (Example.env_of Example.echo)
    (with_streaming (Some true) (with_n (Some 2) no_fields)) []
  = inl "Error: Cannot stream results when n > 1" /\
  exists this,
    OpenAI_constructor (Example.env_of Example.echo)
      (with_concurrency (Some 1) (with_streaming (Some true) no_fields)) []
    = inr this
    /\ concurrency (base this) = Some 1.
Proof.
  split; [|split].
  - apply (proj1 (@constructor_outcome
                    (Example.env_of Example.echo)
                    (with_concurrency (Some 0)
                       (with_openAIApiKey (Some "") no_fields)) [])).
    reflexivity.
  - apply (proj1 (proj2 (proj2 (@constructor_outcome
                                  (Example.env_of Example.echo)
                                  (with_streaming (Some true)
                                     (with_n (Some 2) no_fields)) []))));
      [discriminate|reflexivity|reflexivity|simpl; lia].
  - apply (proj2 (proj2 (proj2 (proj2 (@constructor_outcome
                                         (Example.env_of Example.echo)
                                         (with_concurrency (Some 1)
                                            (with_streaming (Some true)
                                               no_fields)) [])))));
      [discriminate|reflexivity|right; simpl; lia].
Defined.

(** X2.  Every instance the constructor builds satisfies: a streaming
    instance has [n <= 1] and [bestOf <= 1]; the key stored in the client
    configuration is the one of [configuration] if it has an [apiKey], and
    otherwise the non-empty key of the fields or, failing that, of the
    environment.  (A key given only in [configuration] does not satisfy
    the key check.) *)
Theorem constructor_invariant (env : Environment) (fields : OpenAIFields)
        (configuration : JS.object) (this : OpenAI) :
  OpenAI_constructor env fields configuration = inr this ->
  (streaming this = true -> n this <= 1 /\ bestOf this <= 1) /\
  nonempty (first_of (f_openAIApiKey fields) (OPENAI_API_KEY env)) = true /\
  (has_property "apiKey" configuration = false ->
   JS.get "apiKey" (clientConfig this)
   = JS.of_option JS.Str
       (first_of (f_openAIApiKey fields) (OPENAI_API_KEY env))) /\
  (has_property "apiKey" configuration = true ->
   JS.get "apiKey" (clientConfig this)
   = JS.get "apiKey" (JS.spread [] configuration)).
Proof.
  unfold OpenAI_constructor, BaseLLM_constructor. intros H.
  destruct (f_concurrency fields) as [[|k]|]; [discriminate| |].
  all: destruct (nonempty _) eqn:Hkey; [|discriminate]; cbn [negb] in H.
  all: destruct (default (f_streaming fields) false
                 && (1 <? default (f_n fields) 1)%nat)
         eqn:Hn; [discriminate|].
  all: destruct (default (f_streaming fields) false
                 && (1 <? default (f_bestOf fields) 1)%nat)
         eqn:Hb; [discriminate|].
  all: injection H as <-; cbn [streaming n bestOf clientConfig].
  all: (split; [|split; [reflexivity|split]]);
    [intros Hs; rewrite Hs in Hn, Hb; cbn [andb] in Hn, Hb;
     apply Nat.ltb_ge in Hn, Hb; now split
    |intros Hno; now rewrite get_spread_absent
    |intros Hyes; now apply get_spread_present].
Qed.

Lemma constructor_invariant_witness :
  exists this,
    OpenAI_constructor (Example.env_of Example.echo)
      (with_streaming (Some true) no_fields)
      [("basePath", JS.Str "https://proxy"); ("apiKey", JS.Str "sk-other")]
    = inr this /\
    (streaming this = true -> n this <= 1 /\ bestOf this <= 1) /\
    JS.get "apiKey" (clientConfig this) = JS.Str "sk-other".
Proof.
  eexists. split; [reflexivity|].
  destruct (@constructor_invariant (Example.env_of Example.echo)
              (with_streaming (Some true) no_fields)
              [("basePath", JS.Str "https://proxy");
               ("apiKey", JS.Str "sk-other")] _ eq_refl)
    as (Hs & _ & _ & Hc).
  split; [exact Hs|exact (Hc eq_refl)].
Defined.

(** ** Invocation parameters *)

(** X3.  An entry of [modelKwargs] replaces the named parameter of the
    same name in the invocation parameters; a name that [modelKwargs] does
    not have keeps the value of the instance. *)
Theorem modelKwargs_override (this : OpenAI) (k : string) :
  (has_property k (modelKwargs this) = true ->
   JS.get k (invocationParams this)
   = JS.get k (JS.spread [] (modelKwargs this))) /\
  (has_property k (modelKwargs this) = false ->
   JS.get k (invocationParams this) = JS.get k (named_params this)).
Proof.
  split; intros H.
  - now apply get_spread_present.
  - now apply get_spread_absent.
Qed.

(** So [modelKwargs] can switch on streaming, and raise [n], behind the
    constructor's check; such an instance takes the streaming branch of
    [_generate]. *)
Lemma modelKwargs_override_witness :
  exists this,
    OpenAI_constructor (Example.env_of Example.echo)
      (with_modelKwargs (Some [("stream", JS.Bool true); ("n", JS.Num "2")])
                        no_fields) [] = inr this /\
    streaming this = false /\
    JS.get "stream" (invocationParams this) = JS.Bool true /\
    JS.get "n" (invocationParams this) = JS.Num "2" /\
    JS.get "model" (invocationParams this) = JS.Str "text-davinci-003".
Proof.
  eexists. split; [reflexivity|]. split; [reflexivity|].
  split; [|split].
  - match goal with
    | |- JS.get _ (invocationParams ?t) = _ =>
        exact (eq_trans (proj1 (modelKwargs_override t "stream") eq_refl)
                        eq_refl)
    end.
  - match goal with
    | |- JS.get _ (invocationParams ?t) = _ =>
        exact (eq_trans (proj1 (modelKwargs_override t "n") eq_refl) eq_refl)
    end.
  - match goal with
    | |- JS.get _ (invocationParams ?t) = _ =>
        exact (eq_trans (proj2 (modelKwargs_override t "model") eq_refl)
                        eq_refl)
    end.
Defined.

(** ** The retry executor, in general *)

Lemma retry_attempts (env : Environment) (request : JS.object) :
  forall (k : nat) (w : World),
  exists m,
    1 <= m <= S k /\
    retry (createCompletion env request) k w
    = (network env (count_network (trace w) + (m - 1)) request,
       {| store := store w;
          trace := trace w ++ repeat (ENetwork request) m |}) /\
    (forall i, i < m - 1 ->
               exists e,
                 network env (count_network (trace w) + i) request = Throw e) /\
    (m < S k ->
     forall e,
       network env (count_network (trace w) + (m - 1)) request <> Throw e).
Proof.
  induction k as [|k IH]; intros w.
  - exists 1. split; [lia|]. split; [|split].
    + cbn [retry]. unfold createCompletion, emit.
      now rewrite Nat.add_0_r.
    + intros i Hi. lia.
    + intros Hm. lia.
  - cbn [retry]. unfold try_catch.
    unfold createCompletion at 1.
    destruct (network env (count_network (trace w)) request)
      as [data|e|] eqn:Hfirst.
    + exists 1. split; [lia|]. split; [|split].
      * cbn [Nat.sub]. rewrite Nat.add_0_r, Hfirst. reflexivity.
      * intros i Hi. lia.
      * intros _ e. cbn [Nat.sub]. rewrite Nat.add_0_r, Hfirst. discriminate.
    + destruct (IH (emit (ENetwork request) w))
        as (m & Hm & Hrun & Hbefore & Hstop).
      cbn [emit trace store] in Hrun, Hbefore, Hstop.
      rewrite count_network_emit in Hrun, Hbefore, Hstop.
      exists (S m). split; [lia|]. split; [|split].
      * rewrite Hrun. f_equal.
        -- f_equal. lia.
        -- f_equal. rewrite <- app_assoc. reflexivity.
      * intros i Hi. destruct i as [|i].
        -- exists e. now rewrite Nat.add_0_r.
        -- destruct (Hbefore i) as [e' He']; [lia|].
           exists e'. rewrite <- He'. f_equal. lia.
      * intros Hlt e'. replace (S m - 1) with (S (m - 1)) by lia.
        rewrite Nat.add_succ_r. apply Hstop. lia.
    + exists 1. split; [lia|]. split; [|split].
      * cbn [Nat.sub]. rewrite Nat.add_0_r, Hfirst. reflexivity.
      * intros i Hi. lia.
      * intros _ e. cbn [Nat.sub]. rewrite Nat.add_0_r, Hfirst. discriminate.
Qed.

(** X4.  [completionWithRetry] issues the same request [m] times, with
    [1 <= m <= max 1 maxRetries], and does nothing else.  Its outcome is
    that of the last attempt; every earlier attempt threw; and it stops
    short of the limit only at an attempt that did not throw.  (An attempt
    that returns or never settles is not repeated.) *)
Theorem completionWithRetry_attempts (env : Environment) (this : OpenAI)
        (request : JS.object) (w : World) :
  exists m,
    1 <= m <= Nat.max 1 (maxRetries this) /\
    completionWithRetry env this request w
    = (network env (count_network (trace w) + (m - 1)) request,
       {| store := store w;
          trace := trace w ++ repeat (ENetwork request) m |}) /\
    (forall i, i < m - 1 ->
               exists e,
                 network env (count_network (trace w) + i) request = Throw e) /\
    (m < Nat.max 1 (maxRetries this) ->
     forall e,
       network env (count_network (trace w) + (m - 1)) request <> Throw e).
Proof.
  unfold completionWithRetry, backOff.
  destruct (retry_attempts env request (pred (maxRetries this)) w)
    as (m & Hm & Hrun & Hbefore & Hstop).
  exists m.
  replace (Nat.max 1 (maxRetries this)) with (S (pred (maxRetries this)))
    by lia.
  repeat split; try lia; assumption.
Qed.

(** ** The tracking call of [PromptLayerOpenAI] *)

(** X5.  [PromptLayerOpenAI.completionWithRetry] posts to the tracking
    endpoint exactly once per request, after the last attempt, when the
    request is not streamed and the completion returned; the outcome is
    then the response, or the rejection of the POST.  A streamed request,
    and a completion that failed or never settled, is not tracked at all,
    however many attempts were made. *)
Theorem tracking_once_per_request (env : Environment)
        (pl : PromptLayerOpenAI) (request : JS.object) (w : World) :
  exists m,
    1 <= m <= Nat.max 1 (maxRetries (super pl)) /\
    PromptLayer_completionWithRetry env pl request w
    = match network env (count_network (trace w) + (m - 1)) request with
      | Return data =>
          if JS.truthy (JS.get "stream" request) then
            (Return data,
             {| store := store w;
                trace := trace w ++ repeat (ENetwork request) m |})
          else
            (match track_request env request data with
             | None => Return data
             | Some e => Throw e
             end,
             {| store := store w;
                trace := trace w ++ repeat (ENetwork request) m
                         ++ [ETrack request] |})
      | o =>
          (o, {| store := store w;
                 trace := trace w ++ repeat (ENetwork request) m |})
      end.
Proof.
  destruct (retry_attempts env request (pred (maxRetries (super pl))) w)
    as (m & Hm & Hrun & _ & _).
  fold (backOff (createCompletion env request) (maxRetries (super pl)))
    in Hrun.
  fold (completionWithRetry env (super pl) request) in Hrun.
  exists m. split; [lia|].
  unfold PromptLayer_completionWithRetry.
  destruct (JS.truthy (JS.get "stream" request)).
  - rewrite Hrun. now destruct (network env _ request).
  - unfold bind at 1. rewrite Hrun.
    destruct (network env _ request) as [data|e|]; try reflexivity.
    unfold bind, track, emit, ret. cbn [store trace].
    rewrite <- app_assoc.
    now destruct (track_request env request data).
Qed.

(** ** Token usage *)

Lemma add_tokens_total (a k : nat) :
  add_tokens (total_of a) (Some k) = total_of (a + k).
Proof.
  destruct k as [|k]; cbn [add_tokens].
  - now rewrite Nat.add_0_r.
  - replace (total_of (a + S k)) with (Some (a + S k))
      by (now rewrite Nat.add_succ_r).
    destruct a; cbn [total_of default]; f_equal; lia.
Qed.

Lemma add_usage_totals (reports : list (option Usage)) :
  forall a b c,
    fold_left add_usage reports
              {| completionTokens := total_of a; promptTokens := total_of b;
                 totalTokens := total_of c |}
    = {| completionTokens :=
           total_of (a + reported completion_tokens reports);
         promptTokens := total_of (b + reported prompt_tokens reports);
         totalTokens := total_of (c + reported total_tokens reports) |}.
Proof.
  unfold reported, list_sum.
  induction reports as [|[u|] reports IH]; intros a b c;
    cbn [fold_left map fold_right].
  - now rewrite !Nat.add_0_r.
  - unfold add_usage at 2.
    cbn [completionTokens promptTokens totalTokens option_map].
    rewrite !add_tokens_total, IH. f_equal; (f_equal; lia).
  - unfold add_usage at 2.
    cbn [completionTokens promptTokens totalTokens option_map add_tokens].
    rewrite IH. reflexivity.
Qed.

(** The loop of [_generate] on the plain path against a provider whose
    response depends on the prompts of the request only. *)
Lemma complete_all_responses (env : Environment) (this : OpenAI)
      (params : JS.object) (respond : list string -> CompletionData) :
  JS.truthy (JS.get "stream" params) = false ->
  (forall k request,
      JS.truthy (JS.get "stream" request) = false ->
      network env k request = Return (respond (request_prompts request))) ->
  forall subPrompts acc tokenUsage w,
    complete_all this (completionWithRetry env this) params subPrompts
                 acc tokenUsage w
    = (Return (acc ++ flat_map (fun sub => choices (respond sub)) subPrompts,
               fold_left add_usage
                         (map (fun sub => usage (respond sub)) subPrompts)
                         tokenUsage),
       {| store := store w;
          trace := trace w
                   ++ map (fun sub =>
                             ENetwork (JS.set "prompt" (JS.of_strings sub)
                                              params)) subPrompts |}).
Proof.
  intros Hplain Hnet.
  induction subPrompts as [|sub rest IH]; intros acc tokenUsage w.
  - cbn [complete_all flat_map map fold_left]. unfold ret.
    rewrite !app_nil_r. now destruct w.
  - cbn [complete_all]. rewrite Hplain.
    erewrite bind_Return
      by (apply completionWithRetry_first_try; rewrite Hnet;
          [rewrite request_prompts_set; reflexivity
          |rewrite get_set_other by discriminate; exact Hplain]).
    erewrite bind_Return by reflexivity.
    rewrite IH. cbn [flat_map map fold_left emit store trace].
    now rewrite <- !app_assoc.
Qed.

(** X6.  On the plain path, against a provider whose response depends on
    the prompts of the request only, the [tokenUsage] that [_generate]
    returns holds for each counter the sum of the values reported for the
    sub-batches; a counter for which nothing but zeros (or no usage at
    all) was reported is absent. *)
Theorem token_usage_is_summed (env : Environment) (this : OpenAI)
        (prompts : list string) (s : option (list string))
        (respond : list string -> CompletionData) (w : World) :
  JS.truthy (JS.get "stream" (invocationParams this)) = false ->
  stop this = None \/ s = None ->
  (forall k request,
      JS.truthy (JS.get "stream" request) = false ->
      network env k request = Return (respond (request_prompts request))) ->
  exists r w',
    _generate this (completionWithRetry env this) prompts s w = (Return r, w')
    /\ llmOutput r
       = Some {| completionTokens :=
                   total_of
                     (reported completion_tokens
                        (map (fun sub => usage (respond sub))
                             (chunkArray prompts (batchSize this))));
                 promptTokens :=
                   total_of
                     (reported prompt_tokens
                        (map (fun sub => usage (respond sub))
                             (chunkArray prompts (batchSize this))));
                 totalTokens :=
                   total_of
                     (reported total_tokens
                        (map (fun sub => usage (respond sub))
                             (chunkArray prompts (batchSize this)))) |}.
Proof.
  intros Hplain Hstop Hnet.
  set (params :=
         JS.set "stop"
           (JS.nullish (JS.of_option JS.of_strings s)
                       (JS.get "stop" (invocationParams this)))
           (invocationParams this)).
  assert (Hflag : JS.truthy (JS.get "stream" params) = false).
  { unfold params. now rewrite stream_flag_after_stop. }
  pose proof (complete_all_responses env this params respond Hflag Hnet
                (chunkArray prompts (batchSize this)) [] empty_usage w)
    as Hrun.
  do 2 eexists. split.
  - unfold _generate. fold params.
    destruct Hstop as [-> | ->];
      [|destruct (stop this)];
      (erewrite bind_Return by exact Hrun); reflexivity.
  - cbn [llmOutput snd]. f_equal.
    exact (add_usage_totals _ 0 0 0).
Qed.

Lemma token_usage_is_summed_witness :
  exists llm : OpenAI,
    OpenAI_constructor (Example.env_of Example.echo)
      (with_batchSize (Some 2) no_fields) [] = inr llm /\
    exists (r : LLMResult) (w' : World),
      _generate llm (completionWithRetry (Example.env_of Example.echo) llm)
                ["1"; "2"; "3"; "4"; "5"] None empty_world = (Return r, w') /\
      llmOutput r = Some {| completionTokens := Some 3; promptTokens := Some 3;
                            totalTokens := Some 6 |}.
Proof.
  eexists. split; [reflexivity|].
  match goal with
  | |- exists r w', _generate ?llm _ _ _ _ = _ /\ _ =>
      destruct (@token_usage_is_summed (Example.env_of Example.echo) llm
                  ["1"; "2"; "3"; "4"; "5"] None
                  (fun sub =>
                     {| choices := Example.replies 0 sub;
                        usage := Some {| completion_tokens := 1;
                                         prompt_tokens := 1;
                                         total_tokens := 2 |};
                        stream := [] |})
                  empty_world)
        as (r & w' & Hrun & Husage)
  end.
  - reflexivity.
  - now right.
  - intros k request Hplain. unfold Example.env_of, Example.echo.
    cbn [network]. now rewrite Hplain.
  - exists r, w'. split; [exact Hrun|exact Husage].
Defined.

(** ** The cached path with hits and misses *)

Lemma missing_from_spec (l : list (option (list Generation))) :
  forall off j,
    In j (missing_from off l)
    <-> off <= j /\ nth_error l (j - off) = Some None.
Proof.
  induction l as [|[g|] l IH]; intros off j; cbn [missing_from].
  - split; [intros []|intros [_ H]]. now destruct (j - off).
  - rewrite IH. split.
    + intros [Hle H]. split; [lia|].
      replace (j - off) with (S (j - S off)) by lia. exact H.
    + intros [Hle H]. destruct (j - off) as [|d] eqn:Hd; [discriminate|].
      split; [lia|]. replace (j - S off) with d by lia. exact H.
  - cbn [In]. rewrite IH. split.
    + intros [<-|[Hle H]].
      * split; [lia|]. now rewrite Nat.sub_diag.
      * split; [lia|].
        replace (j - off) with (S (j - S off)) by lia. exact H.
    + intros [Hle H]. destruct (j - off) as [|d] eqn:Hd.
      * left. lia.
      * right. split; [lia|]. replace (j - S off) with d by lia. exact H.
Qed.

(** The prompts handed to [_generateUncached] are the missed prompts, in
    prompt order. *)
Lemma missing_prompts (look : string -> option (list Generation))
      (suffix : list string) :
  forall prefix,
    map (fun i => nth i (prefix ++ suffix) "")
        (missing_from (length prefix) (map look suffix))
    = filter (fun p => is_miss (look p)) suffix.
Proof.
  induction suffix as [|p suffix IH]; intros prefix; [reflexivity|].
  cbn [map missing_from filter].
  pose proof (IH (prefix ++ [p])) as IH'.
  rewrite <- app_assoc, length_app, Nat.add_1_r in IH'. cbn [app] in IH'.
  destruct (look p) as [g|]; cbn [is_miss].
  - exact IH'.
  - cbn [map]. rewrite IH'. f_equal.
    now rewrite nth_middle.
Qed.

Lemma skipn_cons_nth {A} (l : list A) :
  forall n x tl,
    skipn n l = x :: tl -> nth_error l n = Some x /\ skipn (S n) l = tl.
Proof.
  induction l as [|y l IH]; intros n x tl H.
  - now destruct n.
  - destruct n as [|n].
    + cbn in H. injection H as -> ->. now split.
    + cbn [skipn] in H. now apply IH.
Qed.

(** When [_generate] returned one list per missing prompt, [fill] writes
    each list to its place in the array and to the cache. *)
Lemma fill_exact (prompts : list string) (key : string)
      (v : nat -> list Generation) (ms : list nat) :
  forall results index arr w,
    results = map v (skipn index ms) ->
    fill prompts key ms index results arr w
    = (Return (fold_left (fun a i => array_set i (v i) a)
                         (skipn index ms) arr),
       {| store :=
            fold_left (fun c i =>
                         InMemoryCache.update (nth_error prompts i) key
                                              (v i) c)
                      (skipn index ms) (store w);
          trace :=
            trace w
            ++ map (fun i => EUpdate (nth_error prompts i) key (v i))
                   (skipn index ms) |}).
Proof.
  induction results as [|g results IH]; intros index arr w H.
  - symmetry in H. apply map_eq_nil in H. rewrite H.
    cbn [fill fold_left map]. unfold ret. rewrite app_nil_r. now destruct w.
  - destruct (skipn index ms) as [|i tl] eqn:Hskip; [discriminate|].
    cbn [map] in H. injection H as -> ->.
    destruct (skipn_cons_nth _ _ Hskip) as [Hnth Htl].
    cbn [fill]. rewrite Hnth.
    unfold bind at 1, cache_update at 1.
    rewrite IH by now rewrite Htl.
    rewrite Htl. cbn [fold_left map store trace].
    now rewrite <- app_assoc.
Qed.

Lemma array_set_length {A} (i : nat) (x : A) :
  forall l, i < length l -> length (array_set i x l) = length l.
Proof.
  induction i as [|i IH]; intros [|y l] H; cbn in *; try lia.
  now rewrite IH by lia.
Qed.

Lemma array_set_nth {A} (i : nat) (x : A) :
  forall l j,
    i < length l ->
    nth_error (array_set i x l) j
    = if (j =? i)%nat then Some (Some x) else nth_error l j.
Proof.
  induction i as [|i IH]; intros [|y l] j H; cbn in H; try lia.
  - now destruct j.
  - destruct j as [|j]; [reflexivity|].
    cbn [array_set nth_error]. rewrite IH by lia. reflexivity.
Qed.

Lemma fold_array_set (v : nat -> list Generation) (ms : list nat) :
  forall arr,
    Forall (fun i => i < length arr) ms ->
    forall j,
      nth_error (fold_left (fun a i => array_set i (v i) a) ms arr) j
      = if existsb (Nat.eqb j) ms then Some (Some (v j))
        else nth_error arr j.
Proof.
  induction ms as [|i ms IH]; intros arr Hin j; [reflexivity|].
  inversion Hin as [|? ? Hi Hrest]; subst.
  cbn [fold_left existsb].
  rewrite IH.
  - rewrite array_set_nth by exact Hi.
    destruct (existsb (Nat.eqb j) ms); [now rewrite orb_true_r|].
    rewrite orb_false_r.
    destruct (Nat.eqb_spec j i) as [->|]; reflexivity.
  - rewrite array_set_length by exact Hi. exact Hrest.
Qed.

Lemma fold_update_lookup (prompts : list string) (key : string)
      (answer : string -> list Generation) (q : string) (ms : list nat) :
  forall c,
    Forall (fun i => i < length prompts) ms ->
    InMemoryCache.lookup (Some q) key
      (fold_left (fun c i =>
                    InMemoryCache.update (nth_error prompts i) key
                                         (answer (nth i prompts "")) c)
                 ms c)
    = if existsb (fun i => nth i prompts "" =? q) ms then Some (answer q)
      else InMemoryCache.lookup (Some q) key c.
Proof.
  induction ms as [|i ms IH]; intros c Hin; [reflexivity|].
  inversion Hin as [|? ? Hi Hrest]; subst.
  cbn [fold_left existsb]. rewrite IH by exact Hrest.
  destruct (existsb (fun i => nth i prompts "" =? q) ms);
    [now rewrite orb_true_r|].
  rewrite orb_false_r.
  rewrite (nth_error_nth' prompts "" Hi).
  cbn [InMemoryCache.lookup InMemoryCache.update].
  unfold InMemoryCache.key_eqb. cbn [fst snd].
  rewrite String.eqb_refl, andb_true_r.
  destruct (String.eqb_spec (nth i prompts "") q) as [->|]; reflexivity.
Qed.

(** ** Writing back to the cache *)

Lemma map_fst_combine {A B} (l : list A) :
  forall l' : list B,
    length l <= length l' -> map fst (combine l l') = l.
Proof.
  induction l as [|a l IH]; intros [|b l'] H; cbn in *;
    [reflexivity|reflexivity|lia|].
  f_equal. apply IH. lia.
Qed.

Lemma combine_map_l {A B C} (f : A -> C) (l : list A) :
  forall l' : list B,
    combine (map f l) l'
    = map (fun x => (f (fst x), snd x)) (combine l l').
Proof.
  induction l as [|a l IH]; intros [|b l']; cbn; [reflexivity..|].
  now rewrite IH.
Qed.

(** When [_generate] returned no more lists than prompts were missing,
    [fill] writes the k-th list to the place of the k-th missing prompt
    in the array and, under that prompt, to the cache. *)
Lemma fill_combine (prompts : list string) (key : string) (ms : list nat) :
  forall results index arr w,
    length results <= length (skipn index ms) ->
    fill prompts key ms index results arr w
    = (Return (fold_left (fun a ig => array_set (fst ig) (snd ig) a)
                         (combine (skipn index ms) results) arr),
       {| store :=
            fold_left (fun c ig =>
                         InMemoryCache.update (nth_error prompts (fst ig))
                                              key (snd ig) c)
                      (combine (skipn index ms) results) (store w);
          trace :=
            trace w
            ++ map (fun ig => EUpdate (nth_error prompts (fst ig)) key
                                      (snd ig))
                   (combine (skipn index ms) results) |}).
Proof.
  induction results as [|g results IH]; intros index arr w H.
  - rewrite combine_nil. cbn [fill fold_left map]. unfold ret.
    rewrite app_nil_r. now destruct w.
  - destruct (skipn index ms) as [|i tl] eqn:Hskip; [cbn in H; lia|].
    destruct (skipn_cons_nth _ _ Hskip) as [Hnth Htl].
    cbn [fill]. rewrite Hnth.
    unfold bind at 1, cache_update at 1.
    rewrite IH by (rewrite Htl; cbn in H; lia).
    rewrite Htl. cbn [combine fold_left map store trace fst snd].
    now rewrite <- app_assoc.
Qed.

(** An array slot that is still empty after the writes was empty before
    and is not among the places written. *)
Lemma fold_array_set_hole (l : list (nat * list Generation)) :
  forall arr,
    (forall ig, In ig l -> fst ig < length arr) ->
    length (fold_left (fun a ig => array_set (fst ig) (snd ig) a) l arr)
    = length arr
    /\ forall j,
        nth_error (fold_left (fun a ig => array_set (fst ig) (snd ig) a)
                             l arr) j = Some None ->
        nth_error arr j = Some None /\ ~ In j (map fst l).
Proof.
  induction l as [|[i g] l IH]; intros arr Hin.
  - split; [reflexivity|]. intros j Hj. split; [exact Hj|intros []].
  - cbn [fold_left fst snd].
    assert (Hi : i < length arr) by exact (Hin (i, g) (or_introl eq_refl)).
    destruct (IH (array_set i g arr)) as [Hlen Hhole].
    { intros ig Hig. rewrite array_set_length by exact Hi.
      apply Hin. now right. }
    split; [now rewrite Hlen, array_set_length|].
    intros j Hj. destruct (Hhole j Hj) as [Hset Hnot].
    rewrite array_set_nth in Hset by exact Hi.
    destruct (Nat.eqb_spec j i) as [->|Hne]; [discriminate|].
    split; [exact Hset|]. cbn [map fst In]. intros [Heq|Hl]; [|tauto].
    now elim Hne.
Qed.

(** After the writes every prompt written is in the cache, with one of
    the lists written under it. *)
Lemma fold_update_written (prompts : list string) (key : string)
      (l : list (nat * list Generation)) (c : InMemoryCache.t) (p : string) :
  (forall ig, In ig l ->
              nth_error prompts (fst ig) = Some (nth (fst ig) prompts "")) ->
  In p (map (fun ig => nth (fst ig) prompts "") l) ->
  exists ig,
    In ig l /\ nth (fst ig) prompts "" = p
    /\ InMemoryCache.lookup (Some p) key
         (fold_left (fun c ig =>
                       InMemoryCache.update (nth_error prompts (fst ig))
                                            key (snd ig) c) l c)
       = Some (snd ig).
Proof.
  induction l as [|[i g] l IH] using rev_ind; intros Hnth Hp; [elim Hp|].
  rewrite fold_left_app. cbn [fold_left fst snd].
  pose proof (Hnth (i, g) ltac:(apply in_or_app; right; now left)) as Hi.
  cbn [fst] in Hi. rewrite Hi.
  cbn [fst InMemoryCache.lookup InMemoryCache.update
       InMemoryCache.key_eqb snd].
  rewrite String.eqb_refl, andb_true_r.
  destruct (String.eqb_spec (nth i prompts "") p) as [Heq|Hne].
  - exists (i, g). split; [apply in_or_app; right; now left|].
    now split.
  - rewrite map_app in Hp. apply in_app_or in Hp as [Hp|[Hp|[]]];
      [|now elim Hne].
    destruct IH as (ig & Hin & Hig & Hlook); [|exact Hp|].
    { intros ig Hig. apply Hnth. apply in_or_app. now left. }
    exists ig. split; [apply in_or_app; now left|]. now split.
Qed.

(** [generate] with the cache on, when some prompt missed the cache and
    [_generateUncached] returned one list per missed prompt. *)
Lemma generate_writes_back (this : BaseLLM)
      (_generate : list string -> option (list string) -> Promise LLMResult)
      (params : JS.object) (type : string) (prompts : list string)
      (s : option (list string)) (w w1 : World) (results : LLMResult) :
  strictly_false (cache this) = false ->
  missed (store w) (llmStringKey params type s) prompts <> [] ->
  _generateUncached this _generate
    (missed (store w) (llmStringKey params type s) prompts) s
    {| store := store w;
       trace := trace w
                ++ map (fun p => ELookup p (llmStringKey params type s))
                       prompts |}
  = (Return results, w1) ->
  length (generations results)
  = length (missed (store w) (llmStringKey params type s) prompts) ->
  exists r w',
    generate this _generate params type prompts s w = (Return r, w')
    /\ result_llmOutput r = llmOutput results
    /\ trace w'
       = trace w1
         ++ map (fun pg => EUpdate (Some (fst pg))
                                   (llmStringKey params type s) (snd pg))
                (combine (missed (store w) (llmStringKey params type s)
                                 prompts)
                         (generations results))
    /\ (forall p,
          In p (missed (store w) (llmStringKey params type s) prompts) ->
          exists g,
            In (p, g)
               (combine (missed (store w) (llmStringKey params type s)
                                prompts)
                        (generations results))
            /\ InMemoryCache.lookup (Some p) (llmStringKey params type s)
                                    (store w') = Some g)
    /\ (forall i p,
          nth_error prompts i = Some p ->
          exists g, nth_error (result_generations r) i = Some (Some g)).
Proof.
  intros Hc. set (key := llmStringKey params type s).
  set (look := fun p => InMemoryCache.lookup (Some p) key (store w)).
  set (ms := missing_from 0 (map look prompts)).
  assert (Hms : map (fun i => nth i prompts "") ms
                = missed (store w) key prompts)
    by exact (missing_prompts look prompts []).
  rewrite <- Hms. rewrite length_map.
  intros Hne Hrun Hlen.
  assert (Hpos : (0 <? length ms)%nat = true).
  { apply Nat.ltb_lt. destruct ms; [now elim Hne|cbn; lia]. }
  assert (Hbound : forall i, In i ms -> i < length prompts).
  { intros i Hi. apply missing_from_spec in Hi as [_ Hi].
    rewrite Nat.sub_0_r in Hi. rewrite <- (length_map look).
    apply nth_error_Some. congruence. }
  assert (Hnth : forall ig : nat * list Generation,
             In ig (combine ms (generations results)) ->
             nth_error prompts (fst ig) = Some (nth (fst ig) prompts "")).
  { intros [i g] Hig. apply in_combine_l in Hig.
    apply nth_error_nth'. now apply Hbound. }
  pose proof (fill_combine prompts key ms (generations results) 0
                           (map look prompts) w1) as Hfill.
  cbn [skipn] in Hfill. specialize (Hfill ltac:(lia)).
  do 2 eexists. split; [|split; [|split; [|split]]].
  - unfold generate. rewrite Hc. fold key.
    unfold bind at 1. rewrite lookup_all_spec.
    fold look. fold ms. rewrite Hpos.
    erewrite bind_Return by exact Hrun.
    erewrite bind_Return by exact Hfill.
    reflexivity.
  - reflexivity.
  - cbn [trace]. f_equal. rewrite combine_map_l, map_map.
    apply map_ext_in. intros ig Hig. cbn [fst snd].
    now rewrite (Hnth ig Hig).
  - intros p Hp. cbn [store].
    destruct (@fold_update_written prompts key
                (combine ms (generations results)) (store w1) p Hnth)
      as ([i g] & Hin & Hig & Hlook).
    { rewrite <- (map_map fst (fun i => nth i prompts "")).
      rewrite map_fst_combine by lia. exact Hp. }
    exists g. split; [|exact Hlook].
    rewrite combine_map_l. apply in_map_iff.
    exists (i, g). split; [|exact Hin]. cbn [fst snd] in *. now rewrite Hig.
  - intros i p Hp. cbn [result_generations].
    destruct (@fold_array_set_hole (combine ms (generations results))
                (map look prompts)) as [Hlength Hhole].
    { intros [j g] Hj. apply in_combine_l in Hj. cbn [fst].
      rewrite length_map. now apply Hbound. }
    assert (Hi : i < length prompts) by (apply nth_error_Some; congruence).
    match goal with
    | |- exists g, nth_error ?arr i = _ =>
        destruct (nth_error arr i) as [[g|]|] eqn:Harr
    end.
    + now exists g.
    + exfalso. destruct (Hhole i Harr) as [Hold Hnot].
      apply Hnot. rewrite map_fst_combine by lia.
      apply missing_from_spec. split; [lia|]. now rewrite Nat.sub_0_r.
    + exfalso. apply nth_error_None in Harr.
      rewrite Hlength, length_map in Harr. lia.
Qed.

(** [generate] with the cache on, when every prompt is in the cache. *)
Lemma generate_all_cached (this : BaseLLM)
      (_generate : list string -> option (list string) -> Promise LLMResult)
      (params : JS.object) (type : string) (prompts : list string)
      (s : option (list string)) (w : World) :
  strictly_false (cache this) = false ->
  missed (store w) (llmStringKey params type s) prompts = [] ->
  generate this _generate params type prompts s w
  = (Return {| result_generations :=
                 map (fun p => InMemoryCache.lookup
                                 (Some p) (llmStringKey params type s)
                                 (store w)) prompts;
               result_llmOutput := None |},
     {| store := store w;
        trace := trace w
                 ++ map (fun p => ELookup p (llmStringKey params type s))
                        prompts |}).
Proof.
  intros Hc. set (key := llmStringKey params type s).
  set (look := fun p => InMemoryCache.lookup (Some p) key (store w)).
  intros Hnone.
  pose proof (eq_trans (missing_prompts look prompts []) Hnone) as Hms.
  cbn [app length] in Hms.
  unfold generate. rewrite Hc. fold key.
  unfold bind at 1. rewrite lookup_all_spec. fold look.
  destruct (missing_from 0 (map look prompts)) as [|i ms] eqn:Hmiss.
  - reflexivity.
  - discriminate.
Qed.


(** C10.  For an instance built by the constructor: unless the [cache]
    option is [false] (so also when it is left out), [generate] first
    looks every prompt up in the module-level cache, before anything else
    happens, and every generation list it returns was found there or has
    been written back to it.  When every prompt is found, that is all it
    does.  When some are not, it runs [_generateUncached] on these, in
    prompt order, after the lookups; and when that returns a list for
    each of them, [generate] returns, having written every pair of a
    missed prompt and its list to the cache, in order and as its last
    steps: each missed prompt is then in the cache, and the result has a
    list for every prompt.  When the option is [false], [generate] is
    [_generateUncached]: the cache is neither read nor written. *)
Theorem cache_is_on_by_default (env : Environment) (fields : OpenAIFields)
        (configuration : JS.object) (this : OpenAI)
        (prompts : list string) (s : option (list string)) (w : World) :
  OpenAI_constructor env fields configuration = inr this ->
  (f_cache fields <> CacheFlag false ->
   (exists t,
       trace (snd (OpenAI_generate env this prompts s w))
       = trace w
         ++ map (fun p => ELookup p (OpenAI_llmStringKey this s)) prompts
         ++ t
       /\ forall r i p g,
           fst (OpenAI_generate env this prompts s w) = Return r ->
           nth_error prompts i = Some p ->
           nth_error (result_generations r) i = Some (Some g) ->
           InMemoryCache.lookup (Some p) (OpenAI_llmStringKey this s)
                                (store w) = Some g
           \/ In (EUpdate (Some p) (OpenAI_llmStringKey this s) g) t) /\
   (missed (store w) (OpenAI_llmStringKey this s) prompts = [] ->
    OpenAI_generate env this prompts s w
    = (Return {| result_generations :=
                   map (fun p => InMemoryCache.lookup
                                   (Some p) (OpenAI_llmStringKey this s)
                                   (store w)) prompts;
                 result_llmOutput := None |},
       {| store := store w;
          trace := trace w
                   ++ map (fun p => ELookup p (OpenAI_llmStringKey this s))
                          prompts |})) /\
   (missed (store w) (OpenAI_llmStringKey this s) prompts <> [] ->
    forall results w1,
      _generateUncached (base this)
        (_generate this (completionWithRetry env this))
        (missed (store w) (OpenAI_llmStringKey this s) prompts) s
        {| store := store w;
           trace := trace w
                    ++ map (fun p => ELookup p (OpenAI_llmStringKey this s))
                           prompts |}
      = (Return results, w1) ->
      length (generations results)
      = length (missed (store w) (OpenAI_llmStringKey this s) prompts) ->
      exists r w',
        OpenAI_generate env this prompts s w = (Return r, w')
        /\ result_llmOutput r = llmOutput results
        /\ trace w'
           = trace w1
             ++ map (fun pg => EUpdate (Some (fst pg))
                                       (OpenAI_llmStringKey this s) (snd pg))
                    (combine (missed (store w) (OpenAI_llmStringKey this s)
                                     prompts)
                             (generations results))
        /\ (forall p,
              In p (missed (store w) (OpenAI_llmStringKey this s) prompts) ->
              exists g,
                In (p, g)
                   (combine (missed (store w) (OpenAI_llmStringKey this s)
                                    prompts)
                            (generations results))
                /\ InMemoryCache.lookup
                     (Some p) (OpenAI_llmStringKey this s) (store w')
                   = Some g)
        /\ (forall i p,
              nth_error prompts i = Some p ->
              exists g,
                nth_error (result_generations r) i = Some (Some g)))) /\
  (f_cache fields = CacheFlag false ->
   OpenAI_generate env this prompts s w
   = bind (_generateUncached (base this)
             (_generate this (completionWithRetry env this)) prompts s)
          (fun output => ret (uncached_result output)) w
   /\ store (snd (OpenAI_generate env this prompts s w)) = store w
   /\ exists t,
       trace (snd (OpenAI_generate env this prompts s w)) = trace w ++ t
       /\ Forall (fun e => is_cache_effect e = false) t).
Proof.
  intros Hnew. pose proof (constructor_cache _ _ _ Hnew) as Hcache.
  split.
  - intros Hon.
    assert (Hc : strictly_false (cache (base this)) = false).
    { rewrite Hcache. destruct (f_cache fields) as [|[|]|]; try reflexivity.
      now elim Hon. }
    split; [|split].
    2: { intros Hnone. now apply generate_all_cached. }
    2: { intros Hsome results w1 Hrun Hlen.
         exact (@generate_writes_back (base this)
                  (_generate this (completionWithRetry env this))
                  (_identifyingParams this) _llmType prompts s w w1 results
                  Hc Hsome Hrun Hlen). }
    unfold OpenAI_generate, OpenAI_llmStringKey, generate.
    rewrite Hc.
    set (key := llmStringKey (_identifyingParams this) _llmType s).
    match goal with
    | |- context [snd (?m w)] => destruct (m w) as [out wend] eqn:Hgen
    end.
    cbn [fst snd].
    unfold bind at 1 in Hgen. rewrite lookup_all_spec in Hgen.
    set (looked_up := map _ prompts) in Hgen.
    set (w0 := {| store := store w; trace := _ |}) in Hgen.
    assert (Hlooked : forall i p g,
               nth_error prompts i = Some p ->
               nth_error looked_up i = Some (Some g) ->
               InMemoryCache.lookup (Some p) key (store w) = Some g).
    { intros i p g Hp Hg. unfold looked_up in Hg.
      rewrite nth_error_map, Hp in Hg. simpl in Hg. congruence. }
    destruct (0 <? length (missing_from 0 looked_up))%nat.
    + unfold bind at 1 in Hgen.
      destruct (_generateUncached _ _ _ s w0) as [[results|e|] w1] eqn:Hrun;
        pose proof (silent__generateUncached (base this)
                      (_generate this (completionWithRetry env this))
                      (map (fun i => nth i prompts "")
                           (missing_from 0 looked_up)) s
                      (silent__generate this _ _ s
                         (silent_completionWithRetry env this)) w0) as Hs;
        rewrite Hrun in Hs; cbn [snd] in Hs;
        destruct Hs as [_ [t1 [Ht1 _]]].
      * destruct (fill_spec prompts key (missing_from 0 looked_up)
                            (generations results) 0 looked_up w1)
          as (arr' & w' & t2 & Hfill & Ht2 & Hin).
        unfold bind at 1 in Hgen. rewrite Hfill in Hgen. unfold ret in Hgen.
        injection Hgen as <- <-.
        exists (t1 ++ t2). split.
        -- rewrite Ht2, Ht1. unfold w0. cbn [trace].
           now rewrite <- !app_assoc.
        -- intros r i p g Hr Hp Hg. injection Hr as <-.
           cbn [result_generations] in Hg.
           destruct (Hin i g Hg) as [Hold|Hnew'].
           ++ left. now apply (Hlooked i).
           ++ right. rewrite Hp in Hnew'. apply in_or_app. now right.
      * injection Hgen as <- <-. exists t1. split.
        -- rewrite Ht1. unfold w0. cbn [trace]. now rewrite <- app_assoc.
        -- discriminate.
      * injection Hgen as <- <-. exists t1. split.
        -- rewrite Ht1. unfold w0. cbn [trace]. now rewrite <- app_assoc.
        -- discriminate.
    + unfold ret in Hgen. injection Hgen as <- <-. exists []. split.
      * unfold w0. cbn [trace]. now rewrite app_nil_r.
      * intros r i p g Hr Hp Hg. injection Hr as <-.
        cbn [result_generations] in Hg. left. now apply (Hlooked i).
  - intros Hoff. unfold OpenAI_generate, generate.
    rewrite Hcache, Hoff. cbn [strictly_false].
    split; [reflexivity|].
    apply (@silent_bind _ _
             (_generateUncached (base this)
                (_generate this (completionWithRetry env this)) prompts s)
             (fun output => ret (uncached_result output))).
    + apply silent__generateUncached, silent__generate.
      apply silent_completionWithRetry.
    + intros output. apply silent_ret.
Qed.

Lemma cache_is_on_by_default_witness :
  (exists llm : OpenAI,
      OpenAI_constructor (Example.env_of Example.echo) no_fields [] = inr llm
      /\ exists (r : GenerateResult) (w' : World),
          OpenAI_generate (Example.env_of Example.echo) llm
                          ["p"] None empty_world = (Return r, w')
          /\ InMemoryCache.lookup (Some "p") (OpenAI_llmStringKey llm None)
                                  (store w')
             = Some (Example.echo_answer "p")
          /\ result_generations r = [Some (Example.echo_answer "p")]) /\
  (exists llm : OpenAI,
      OpenAI_constructor (Example.env_of Example.echo)
        (with_cache (CacheFlag false) no_fields) [] = inr llm /\
      store (snd (OpenAI_generate (Example.env_of Example.echo) llm
                                  ["p"] None empty_world))
      = store empty_world).
Proof.
  split; eexists; (split; [reflexivity|]).
  - match goal with
    | |- exists r w', OpenAI_generate ?env ?llm ?ps ?s ?w = _ /\ _ =>
        pose (m := _generateUncached (base llm)
                     (_generate llm (completionWithRetry env llm))
                     (missed (store w) (OpenAI_llmStringKey llm s) ps) s
                     {| store := store w;
                        trace := trace w
                                 ++ map (fun p =>
                                           ELookup p
                                             (OpenAI_llmStringKey llm s))
                                        ps |});
        destruct (proj2 (proj2 (proj1 (@cache_is_on_by_default
                                         env no_fields [] llm ps s w eq_refl)
                                      ltac:(discriminate)))
                        ltac:(discriminate)
                        (match fst m with
                         | Return r => r
                         | _ => {| generations := []; llmOutput := None |}
                         end)
                        (snd m))
          as (r & w' & Hgen & _ & _ & Hstore & Hall)
    end.
    + vm_compute. reflexivity.
    + reflexivity.
    + exists r, w'. split; [exact Hgen|].
      destruct (Hstore "p" (or_introl eq_refl)) as (g & Hin & Hlook).
      destruct Hin as [Hin|[]]. injection Hin as <-.
      split; [exact Hlook|].
      pose proof (f_equal fst Hgen) as Hr. vm_compute in Hr.
      injection Hr as <-. reflexivity.
  - apply (proj2 (@cache_is_on_by_default (Example.env_of Example.echo)
                    (with_cache (CacheFlag false) no_fields) [] _
                    ["p"] None empty_world eq_refl)).
    reflexivity.
Defined.

(** [_generate] on the plain path against a provider that answers each
    request with the completions of its prompts. *)
Lemma _generate_plain (env : Environment) (this : OpenAI)
      (prompts : list string) (s : option (list string))
      (answer : string -> list Generation) (w : World) :
  1 <= batchSize this ->
  1 <= n this ->
  JS.truthy (JS.get "stream" (invocationParams this)) = false ->
  stop this = None \/ s = None ->
  (forall k request,
      JS.truthy (JS.get "stream" request) = false ->
      exists data,
        network env k request = Return data /\
        map to_generation (choices data)
        = flat_map answer (request_prompts request)) ->
  (forall p, length (answer p) = n this) ->
  exists r w',
    _generate this (completionWithRetry env this) prompts s w = (Return r, w')
    /\ network_prompts (trace w')
       = network_prompts (trace w) ++ chunkArray prompts (batchSize this)
    /\ generations r = map answer prompts.
Proof.
  intros Hb Hn Hplain Hstop Hnet Hanswer.
  destruct (batchSize this) as [|b] eqn:Hbatch; [lia|].
  destruct (n this) as [|k] eqn:Hk; [lia|].
  set (params :=
         JS.set "stop"
           (JS.nullish (JS.of_option JS.of_strings s)
                       (JS.get "stop" (invocationParams this)))
           (invocationParams this)).
  assert (Hflag : JS.truthy (JS.get "stream" params) = false).
  { unfold params. now rewrite stream_flag_after_stop. }
  destruct (complete_all_plain env this params answer Hflag Hnet
              (chunkArray prompts (S b)) [] empty_usage w)
    as (r & w' & Hrun & Hr & Htrace).
  exists {| generations := map (map to_generation) (chunkArray (fst r) (S k));
            llmOutput := Some (snd r) |}, w'.
  split; [|split; [exact Htrace|]].
  - unfold _generate. rewrite Hbatch, Hk. fold params.
    destruct Hstop as [-> | ->];
      [|destruct (stop this)];
      (erewrite bind_Return by exact Hrun); reflexivity.
  - cbn [generations]. rewrite chunkArray_map, Hr. cbn [map app].
    unfold chunkArray at 2. rewrite chunkArray_fuel_concat by lia.
    now apply chunkArray_flat_map.
Qed.

Lemma network_prompts_other (t l : list effect) :
  Forall (fun e => is_network e = false) l ->
  network_prompts (t ++ l) = network_prompts t.
Proof.
  intros H. unfold network_prompts. rewrite flat_map_app.
  induction H as [|e l He _ IH]; cbn [flat_map]; [apply app_nil_r|].
  destruct e; try discriminate; exact IH.
Qed.

Lemma notify_quiet (e : effect) (call : option (option error)) (w : World) :
  (forall err, call <> Some (Some err)) ->
  is_network e = false ->
  exists w',
    notify e call w = (Return tt, w')
    /\ store w' = store w
    /\ network_prompts (trace w') = network_prompts (trace w).
Proof.
  intros Hok He. destruct call as [[err|]|].
  - now elim (Hok err).
  - exists (emit e w). repeat split.
    cbn [emit trace]. apply network_prompts_other. now constructor.
  - exists w. now repeat split.
Qed.

(** With hooks that do not throw, [_generateUncached] returns what
    [_generate] returns, and adds no network call of its own. *)
Lemma _generateUncached_quiet_hooks (this : BaseLLM)
      (_generate : list string -> option (list string) -> Promise LLMResult)
      (prompts : list string) (s : option (list string)) (w : World) :
  (forall ps e, start_hook this ps <> Some (Some e)) ->
  (forall out e, end_hook this out <> Some (Some e)) ->
  exists w0,
    store w0 = store w
    /\ network_prompts (trace w0) = network_prompts (trace w)
    /\ forall out w1,
        _generate prompts s w0 = (Return out, w1) ->
        exists w2,
          _generateUncached this _generate prompts s w = (Return out, w2)
          /\ store w2 = store w1
          /\ network_prompts (trace w2) = network_prompts (trace w1).
Proof.
  intros Hstart Hend.
  destruct (@notify_quiet (EStart prompts) (start_hook this prompts) w
              (Hstart prompts) eq_refl) as (w0 & H0 & Hs0 & Hn0).
  exists w0. split; [exact Hs0|]. split; [exact Hn0|].
  intros out w1 Hrun.
  destruct (@notify_quiet (EEnd out) (end_hook this out) w1
              (Hend out) eq_refl) as (w2 & H2 & Hs2 & Hn2).
  exists w2. split; [|split; assumption].
  unfold _generateUncached.
  erewrite bind_Return by exact H0.
  erewrite bind_Return
    by (unfold try_catch, queue_add; rewrite Hrun; reflexivity).
  erewrite bind_Return by exact H2.
  reflexivity.
Qed.

Lemma chunkArray_nil {A} (size : nat) : @chunkArray A [] size = [].
Proof. now destruct size. Qed.

Lemma existsb_nth_in (prompts : list string) (q : string) (ms : list nat) :
  existsb (fun i => nth i prompts "" =? q) ms = true ->
  exists i, In i ms /\ nth i prompts "" = q.
Proof.
  intros H. apply existsb_exists in H as [i [Hin Heq]].
  exists i. split; [exact Hin|]. now apply String.eqb_eq.
Qed.

(** The cached path with the cache on, the plain path, hooks that do not
    throw and a provider that answers each request with the [n]
    completions of each of its prompts: what is returned, what is sent,
    and what the cache holds afterwards. *)
Lemma generate_cached_path (env : Environment)
      (this : OpenAI) (prompts : list string) (s : option (list string))
      (answer : string -> list Generation) (w : World) :
  cache (base this) <> CacheFlag false ->
  1 <= batchSize this ->
  1 <= n this ->
  JS.truthy (JS.get "stream" (invocationParams this)) = false ->
  stop this = None \/ s = None ->
  (forall ps e, start_hook (base this) ps <> Some (Some e)) ->
  (forall out e, end_hook (base this) out <> Some (Some e)) ->
  (forall k request,
      JS.truthy (JS.get "stream" request) = false ->
      exists data,
        network env k request = Return data /\
        map to_generation (choices data)
        = flat_map answer (request_prompts request)) ->
  (forall p, length (answer p) = n this) ->
  exists r w',
    OpenAI_generate env this prompts s w = (Return r, w')
    /\ result_generations r
       = map (fun p => Some (cached_or answer (store w)
                                       (OpenAI_llmStringKey this s) p))
             prompts
    /\ network_prompts (trace w')
       = network_prompts (trace w)
         ++ chunkArray (missed (store w) (OpenAI_llmStringKey this s) prompts)
                       (batchSize this)
    /\ forall p,
        In p prompts ->
        InMemoryCache.lookup (Some p) (OpenAI_llmStringKey this s) (store w')
        = Some (cached_or answer (store w) (OpenAI_llmStringKey this s) p).
Proof.
  intros Hcache Hb Hn Hplain Hstop Hstart Hend Hnet Hanswer.
  assert (Hc : strictly_false (cache (base this)) = false).
  { destruct (cache (base this)) as [|[|]|]; try reflexivity.
    now elim Hcache. }
  unfold OpenAI_generate, OpenAI_llmStringKey, generate. rewrite Hc.
  set (key := llmStringKey (_identifyingParams this) _llmType s).
  set (look := fun p => InMemoryCache.lookup (Some p) key (store w)).
  unfold bind at 1. rewrite lookup_all_spec.
  change (map (fun p => InMemoryCache.lookup (Some p) key (store w)) prompts)
    with (map look prompts).
  set (wa := {| store := store w; trace := _ |}).
  assert (Hwa : network_prompts (trace wa) = network_prompts (trace w)).
  { unfold wa. cbn [trace]. apply network_prompts_other.
    apply Forall_forall. intros e He.
    apply in_map_iff in He as [p [<- _]]. reflexivity. }
  pose proof (missing_prompts look prompts []) as Hmissed.
  cbn [app length] in Hmissed.
  fold (missed (store w) key prompts) in Hmissed.
  assert (Hrange : Forall (fun i => i < length prompts)
                          (missing_from 0 (map look prompts))).
  { apply Forall_forall. intros i Hi.
    apply missing_from_spec in Hi as [_ Hi]. rewrite Nat.sub_0_r in Hi.
    rewrite <- (length_map look). apply nth_error_Some. congruence. }
  assert (Hhit : forall j,
             existsb (Nat.eqb j) (missing_from 0 (map look prompts)) = false ->
             forall p, nth_error prompts j = Some p ->
                       exists g, look p = Some g).
  { intros j Hj p Hp. destruct (look p) as [g|] eqn:Hl; [now exists g|].
    assert (Hin : In j (missing_from 0 (map look prompts))).
    { apply missing_from_spec. split; [lia|].
      now rewrite Nat.sub_0_r, nth_error_map, Hp, <- Hl. }
    assert (existsb (Nat.eqb j) (missing_from 0 (map look prompts)) = true).
    { apply existsb_exists. exists j. split; [exact Hin|apply Nat.eqb_refl]. }
    congruence. }
  assert (Hmiss : forall j,
             existsb (Nat.eqb j) (missing_from 0 (map look prompts)) = true ->
             nth_error (map look prompts) j = Some None).
  { intros j Hj. apply existsb_exists in Hj as [i [Hi Heq]].
    apply Nat.eqb_eq in Heq. subst i.
    apply missing_from_spec in Hi as [_ Hi]. now rewrite Nat.sub_0_r in Hi. }
  destruct (0 <? length (missing_from 0 (map look prompts)))%nat eqn:Hany.
  - destruct (@_generateUncached_quiet_hooks (base this)
                (_generate this (completionWithRetry env this))
                (map (fun i => nth i prompts "")
                     (missing_from 0 (map look prompts))) s wa
                Hstart Hend) as (w0 & Hs0 & Hn0 & Hlift).
    destruct (@_generate_plain env this
                (map (fun i => nth i prompts "")
                     (missing_from 0 (map look prompts)))
                s answer w0 Hb Hn Hplain Hstop Hnet Hanswer)
      as (out & w1 & Hrun & Hnet1 & Hgen).
    destruct (Hlift out w1 Hrun) as (w2 & Hunc & Hs2 & Hn2).
    pose proof (silent__generate this _
                  (map (fun i => nth i prompts "")
                       (missing_from 0 (map look prompts))) s
                  (silent_completionWithRetry env this) w0) as [Hs1 _].
    rewrite Hrun in Hs1. cbn [snd] in Hs1.
    erewrite bind_Return by exact Hunc.
    erewrite bind_Return
      by (apply (@fill_exact prompts key
                             (fun i => answer (nth i prompts ""))
                             (missing_from 0 (map look prompts))
                             (generations out) 0 (map look prompts) w2);
          rewrite Hgen, map_map; reflexivity).
    cbn [skipn]. unfold ret. do 2 eexists. split; [reflexivity|].
    cbn [result_generations store trace]. split; [|split].
    + apply nth_error_ext. intros j.
      rewrite fold_array_set by (now rewrite length_map).
      rewrite !nth_error_map.
      destruct (existsb (Nat.eqb j) (missing_from 0 (map look prompts)))
        eqn:Hj.
      * pose proof (Hmiss j Hj) as Hnone.
        rewrite nth_error_map in Hnone.
        destruct (nth_error prompts j) as [p|] eqn:Hp; [|discriminate].
        cbn [option_map] in *. injection Hnone as Hnone.
        unfold cached_or. fold (look p). rewrite Hnone.
        now rewrite (nth_error_nth _ _ "" Hp).
      * destruct (nth_error prompts j) as [p|] eqn:Hp; [|reflexivity].
        cbn [option_map]. destruct (Hhit j Hj p Hp) as [g Hg].
        unfold cached_or. fold (look p). now rewrite Hg.
    + rewrite network_prompts_other
        by (apply Forall_forall; intros e He;
            apply in_map_iff in He as [i [<- _]]; reflexivity).
      now rewrite Hn2, Hnet1, Hn0, Hwa, Hmissed.
    + intros p Hp. rewrite fold_update_lookup by exact Hrange.
      rewrite Hs2, Hs1, Hs0. unfold wa. cbn [store].
      destruct (existsb (fun i => nth i prompts "" =? p)
                        (missing_from 0 (map look prompts))) eqn:Hex.
      * apply existsb_nth_in in Hex as [i [Hi Heq]].
        assert (Hnone : nth_error (map look prompts) i = Some None).
        { apply Hmiss, existsb_exists. exists i.
          split; [exact Hi|apply Nat.eqb_refl]. }
        rewrite nth_error_map in Hnone.
        assert (Hlt : i < length prompts)
          by (now apply (proj1 (Forall_forall _ _) Hrange)).
        rewrite (nth_error_nth' prompts "" Hlt), Heq in Hnone.
        cbn [option_map] in Hnone. injection Hnone as Hnone.
        unfold cached_or. fold (look p). now rewrite Hnone.
      * apply In_nth_error in Hp as [j Hj].
        destruct (existsb (Nat.eqb j) (missing_from 0 (map look prompts)))
          eqn:Hmj.
        -- apply existsb_exists in Hmj as [i [Hi Heq]].
           apply Nat.eqb_eq in Heq. subst i.
           assert (existsb (fun i => nth i prompts "" =? p)
                           (missing_from 0 (map look prompts)) = true).
           { apply existsb_exists. exists j. split; [exact Hi|].
             rewrite (nth_error_nth _ _ "" Hj). apply String.eqb_refl. }
           congruence.
        -- destruct (Hhit j Hmj p Hj) as [g Hg].
           unfold cached_or. fold (look p). now rewrite Hg.
  - assert (Hnil : missing_from 0 (map look prompts) = []).
    { apply Nat.ltb_ge in Hany. now apply length_zero_iff_nil, Nat.le_0_r. }
    rewrite Hnil in Hmissed, Hhit. cbn [map] in Hmissed.
    unfold ret. do 2 eexists. split; [reflexivity|].
    cbn [result_generations]. split; [|split].
    + apply nth_error_ext. intros j. rewrite !nth_error_map.
      destruct (nth_error prompts j) as [p|] eqn:Hp; [|reflexivity].
      cbn [option_map]. destruct (Hhit j eq_refl p Hp) as [g Hg].
      unfold cached_or. fold (look p). now rewrite Hg.
    + change (missed (store w) key prompts)
        with (filter (fun p => is_miss (look p)) prompts).
      rewrite Hwa, <- Hmissed, chunkArray_nil. now rewrite app_nil_r.
    + intros p Hp. apply In_nth_error in Hp as [j Hj].
      destruct (Hhit j eq_refl p Hj) as [g Hg].
      unfold wa. cbn [store]. unfold cached_or. fold (look p).
      now rewrite Hg.
Qed.

(** X7.  With the cache on, the plain path, hooks that do not throw and a
    provider that answers each request with the [n] completions of each of
    its prompts: [generate] returns one entry per prompt, in prompt order,
    holding the list found in the cache or else the provider's answer; and
    it sends exactly the prompts that missed the cache, in prompt order,
    cut into sub-batches (a prompt found in the cache is never sent). *)
Theorem generate_merges_cache_and_provider (env : Environment)
        (this : OpenAI) (prompts : list string) (s : option (list string))
        (answer : string -> list Generation) (w : World) :
  cache (base this) <> CacheFlag false ->
  1 <= batchSize this ->
  1 <= n this ->
  JS.truthy (JS.get "stream" (invocationParams this)) = false ->
  stop this = None \/ s = None ->
  (forall ps e, start_hook (base this) ps <> Some (Some e)) ->
  (forall out e, end_hook (base this) out <> Some (Some e)) ->
  (forall k request,
      JS.truthy (JS.get "stream" request) = false ->
      exists data,
        network env k request = Return data /\
        map to_generation (choices data)
        = flat_map answer (request_prompts request)) ->
  (forall p, length (answer p) = n this) ->
  exists r w',
    OpenAI_generate env this prompts s w = (Return r, w')
    /\ length (result_generations r) = length prompts
    /\ result_generations r
       = map (fun p => Some (cached_or answer (store w)
                                       (OpenAI_llmStringKey this s) p))
             prompts
    /\ network_prompts (trace w')
       = network_prompts (trace w)
         ++ chunkArray (missed (store w) (OpenAI_llmStringKey this s) prompts)
                       (batchSize this)
    /\ Forall (fun sub => forall p,
                  In p sub ->
                  In p prompts /\
                  InMemoryCache.lookup (Some p) (OpenAI_llmStringKey this s)
                                       (store w) = None)
              (chunkArray (missed (store w) (OpenAI_llmStringKey this s)
                                  prompts)
                          (batchSize this)).
Proof.
  intros Hcache Hb Hn Hplain Hstop Hstart Hend Hnet Hanswer.
  destruct (@generate_cached_path env this prompts s answer w
              Hcache Hb Hn Hplain Hstop Hstart Hend Hnet Hanswer)
    as (r & w' & Hrun & Hgen & Hsent & _).
  exists r, w'. split; [exact Hrun|].
  split; [now rewrite Hgen, length_map|].
  split; [exact Hgen|]. split; [exact Hsent|].
  apply Forall_forall. intros sub Hsub p Hp.
  assert (Hin : In p (missed (store w) (OpenAI_llmStringKey this s) prompts)).
  { destruct (batchSize this) as [|b]; [lia|].
    assert (Hconcat :
              concat (chunkArray (missed (store w) (OpenAI_llmStringKey this s)
                                         prompts) (S b))
              = missed (store w) (OpenAI_llmStringKey this s) prompts)
      by (unfold chunkArray; now apply chunkArray_fuel_concat).
    rewrite <- Hconcat.
    apply in_concat. exists sub. split; [exact Hsub|exact Hp]. }
  unfold missed in Hin. apply filter_In in Hin as [Hin Hmiss].
  split; [exact Hin|].
  now destruct (InMemoryCache.lookup (Some p) _ (store w)).
Qed.

Lemma generate_merges_cache_and_provider_witness :
  exists llm : OpenAI,
    OpenAI_constructor (Example.env_of Example.echo)
      (with_batchSize (Some 2) no_fields) [] = inr llm /\
    exists (r : GenerateResult) (w' : World),
      OpenAI_generate (Example.env_of Example.echo) llm
        ["a"; "b"; "c"; "d"] None
        (snd (OpenAI_generate (Example.env_of Example.echo) llm
                              ["b"] None empty_world))
      = (Return r, w') /\
      result_generations r
      = [Some (Example.echo_answer "a"); Some (Example.echo_answer "b");
         Some (Example.echo_answer "c"); Some (Example.echo_answer "d")] /\
      network_prompts (trace w') = [["b"]; ["a"; "c"]; ["d"]].
Proof.
  eexists. split; [reflexivity|].
  match goal with
  | |- exists r w', OpenAI_generate ?env ?llm ?ps ?s ?w = _ /\ _ =>
      destruct (@generate_merges_cache_and_provider
                  env llm ps s Example.echo_answer w)
        as (r & w' & Hrun & _ & Hgen & Hnet & _)
  end.
  - discriminate.
  - simpl; lia.
  - simpl; lia.
  - reflexivity.
  - now right.
  - intros ps e. discriminate.
  - intros out e. discriminate.
  - intros k request Hplain. eexists. unfold Example.env_of, Example.echo.
    cbn [network]. rewrite Hplain. split; [reflexivity|].
    apply echo_generations.
  - reflexivity.
  - exists r, w'. split; [exact Hrun|]. split.
    + rewrite Hgen. vm_compute. reflexivity.
    + rewrite Hnet. vm_compute. reflexivity.
Defined.

(** X8.  Under the same conditions, after [generate(prompts)] has
    returned, a call for any of these prompts (again all of them, or some,
    in any order) is served from the cache: it makes no network call and
    returns for each prompt the list the first call returned for it. *)
Theorem repeated_generate_is_served_from_cache (env : Environment)
        (this : OpenAI) (prompts again : list string)
        (s : option (list string)) (answer : string -> list Generation)
        (w w' : World) (r : GenerateResult) :
  cache (base this) <> CacheFlag false ->
  1 <= batchSize this ->
  1 <= n this ->
  JS.truthy (JS.get "stream" (invocationParams this)) = false ->
  stop this = None \/ s = None ->
  (forall ps e, start_hook (base this) ps <> Some (Some e)) ->
  (forall out e, end_hook (base this) out <> Some (Some e)) ->
  (forall k request,
      JS.truthy (JS.get "stream" request) = false ->
      exists data,
        network env k request = Return data /\
        map to_generation (choices data)
        = flat_map answer (request_prompts request)) ->
  (forall p, length (answer p) = n this) ->
  OpenAI_generate env this prompts s w = (Return r, w') ->
  incl again prompts ->
  exists r2 w2,
    OpenAI_generate env this again s w' = (Return r2, w2)
    /\ result_generations r2
       = map (fun p => Some (cached_or answer (store w)
                                       (OpenAI_llmStringKey this s) p))
             again
    /\ network_prompts (trace w2) = network_prompts (trace w').
Proof.
  intros Hcache Hb Hn Hplain Hstop Hstart Hend Hnet Hanswer Hfirst Hincl.
  destruct (@generate_cached_path env this prompts s answer w
              Hcache Hb Hn Hplain Hstop Hstart Hend Hnet Hanswer)
    as (r0 & w0 & Hrun0 & _ & _ & Hstored).
  rewrite Hfirst in Hrun0. injection Hrun0 as <- <-.
  destruct (@generate_cached_path env this again s answer w'
              Hcache Hb Hn Hplain Hstop Hstart Hend Hnet Hanswer)
    as (r2 & w2 & Hrun & Hgen & Hnet2 & _).
  exists r2, w2. split; [exact Hrun|]. split.
  - rewrite Hgen. apply map_ext_in. intros p Hp. f_equal.
    unfold cached_or at 1. now rewrite (Hstored p (Hincl p Hp)).
  - rewrite Hnet2.
    assert (Hnone : forall l,
               incl l prompts ->
               missed (store w') (OpenAI_llmStringKey this s) l = []).
    { unfold missed. induction l as [|p l IH]; intros Hl; [reflexivity|].
      cbn [filter]. rewrite (Hstored p (Hl p (or_introl eq_refl))).
      cbn [is_miss]. apply IH. intros q Hq. apply Hl. now right. }
    now rewrite (Hnone again Hincl), chunkArray_nil, app_nil_r.
Qed.

Lemma repeated_generate_is_served_from_cache_witness :
  exists llm : OpenAI,
    OpenAI_constructor (Example.env_of Example.echo)
      (with_batchSize (Some 2) no_fields) [] = inr llm /\
    exists (r2 : GenerateResult) (w2 : World),
      OpenAI_generate (Example.env_of Example.echo) llm ["c"; "a"] None
        (snd (OpenAI_generate (Example.env_of Example.echo) llm
                              ["a"; "b"; "c"] None empty_world))
      = (Return r2, w2) /\
      result_generations r2
      = [Some (Example.echo_answer "c"); Some (Example.echo_answer "a")] /\
      network_prompts (trace w2) = [["a"; "b"]; ["c"]].
Proof.
  eexists. split; [reflexivity|].
  match goal with
  | |- exists r2 w2,
         OpenAI_generate ?env ?llm ?again ?s (snd (?first ?w)) = _ /\ _ =>
      destruct (@repeated_generate_is_served_from_cache
                  env llm ["a"; "b"; "c"] again s Example.echo_answer
                  w (snd (first w))
                  (match fst (first w) with
                   | Return r => r
                   | _ => {| result_generations := [];
                             result_llmOutput := None |}
                   end))
        as (r2 & w2 & Hrun & Hgen & Hnet)
  end.
  - discriminate.
  - simpl; lia.
  - simpl; lia.
  - reflexivity.
  - now right.
  - intros ps e. discriminate.
  - intros out e. discriminate.
  - intros k request Hplain. eexists. unfold Example.env_of, Example.echo.
    cbn [network]. rewrite Hplain. split; [reflexivity|].
    apply echo_generations.
  - reflexivity.
  - vm_compute. reflexivity.
  - intros p [<-|[<-|[]]]; simpl; tauto.
  - exists r2, w2. split; [exact Hrun|]. split.
    + rewrite Hgen. vm_compute. reflexivity.
    + rewrite Hnet. vm_compute. reflexivity.
Defined.

(** X9.  [generate] writes to the cache only when it returns: when it
    throws or never settles, for whatever reason (a failed request, a
    stop-sequence conflict, a hook that throws, a stream without
    sentinel), the cache is as it was before the call.  With
    [cache: false] it is never changed. *)
Theorem failed_generate_leaves_cache (env : Environment) (this : OpenAI)
        (prompts : list string) (s : option (list string)) (w : World) :
  (cache (base this) = CacheFlag false
   \/ forall r, fst (OpenAI_generate env this prompts s w) <> Return r) ->
  store (snd (OpenAI_generate env this prompts s w)) = store w.
Proof.
  intros H.
  assert (Hunc : forall ps,
             cache_silent
               (_generateUncached (base this)
                  (_generate this (completionWithRetry env this)) ps s)).
  { intros ps. apply silent__generateUncached, silent__generate.
    apply silent_completionWithRetry. }
  unfold OpenAI_generate, generate in *.
  destruct (strictly_false (cache (base this))) eqn:Hc.
  - apply (@silent_bind _ _ _ (fun output => ret (uncached_result output))
             (Hunc prompts) (fun a => silent_ret _)).
  - destruct H as [H|H]; [rewrite H in Hc; discriminate|].
    unfold bind at 1 in H. unfold bind at 1.
    rewrite lookup_all_spec in *.
    set (looked_up := map _ prompts) in *.
    set (wa := {| store := store w; trace := _ |}) in *.
    destruct (0 <? length (missing_from 0 looked_up))%nat.
    + unfold bind at 1 in H. unfold bind at 1.
      pose proof (Hunc (map (fun i => nth i prompts "")
                            (missing_from 0 looked_up)) wa) as [Hs _].
      destruct (_generateUncached _ _ _ s wa) as [[results|e|] w1];
        cbn [snd] in *; try exact Hs.
      destruct (fill_spec prompts
                  (llmStringKey (_identifyingParams this) _llmType s)
                  (missing_from 0 looked_up) (generations results)
                  0 looked_up w1) as (arr & w2 & t & Hfill & _).
      unfold bind in H. rewrite Hfill in H. unfold ret in H.
      cbn [fst] in H. now elim (H _ eq_refl).
    + unfold ret in H. cbn [fst] in H. now elim (H _ eq_refl).
Qed.

Lemma failed_generate_leaves_cache_witness :
  exists llm : OpenAI,
    OpenAI_constructor (Example.env_of Example.failing) no_fields []
    = inr llm /\
    fst (OpenAI_generate (Example.env_of Example.failing) llm
                         ["p"] None empty_world)
    = Throw "Error: attempt 5" /\
    store (snd (OpenAI_generate (Example.env_of Example.failing) llm
                                ["p"] None empty_world)) = [].
Proof.
  eexists. split; [reflexivity|]. split; [vm_compute; reflexivity|].
  apply (@failed_generate_leaves_cache (Example.env_of Example.failing) _
           ["p"] None empty_world).
  right. intros r. vm_compute. discriminate.
Defined.

(** ** The streaming branch, in general *)

Lemma after_tokens_app (this : OpenAI) (a b : list Choice) (w : World) :
  after_tokens this b (after_tokens this a w) = after_tokens this (a ++ b) w.
Proof.
  unfold after_tokens. cbn [store trace]. f_equal.
  rewrite <- app_assoc. f_equal.
  destruct (handleNewToken _); [now rewrite map_app|reflexivity].
Qed.

Lemma after_tokens_nil (this : OpenAI) (w : World) :
  after_tokens this [] w = w.
Proof.
  unfold after_tokens. destruct w as [c t]. cbn [store trace].
  destruct (handleNewToken _); cbn [map]; now rewrite app_nil_r.
Qed.

Lemma feed_deltas_exact (this : OpenAI) (parts : list Choice) :
  forall (choice : Choice) (settled : bool) (w : World),
    feed this (map delta parts) (choice, settled) w
    = ((fold_left absorb parts choice, settled), after_tokens this parts w).
Proof.
  induction parts as [|part parts IH]; intros choice settled w.
  - cbn [map feed fold_left]. now rewrite after_tokens_nil.
  - cbn [map feed delta on_parse fst snd fold_left]. rewrite IH.
    f_equal.
    change (part :: parts) with ([part] ++ parts).
    rewrite <- after_tokens_app. f_equal.
    unfold after_tokens, emit. cbn [map].
    destruct (handleNewToken _); [reflexivity|].
    rewrite app_nil_r. now destruct w.
Qed.

(** Chunks that hold deltas only are absorbed, and reading goes on. *)
Lemma read_stream_delta_chunks (this : OpenAI) (pss : list (list Choice))
      (rest : list StreamItem) :
  forall (choice : Choice) (w : World),
    read_stream this (map Data (map (map delta) pss) ++ rest) choice w
    = read_stream this rest (fold_left absorb (concat pss) choice)
                  (after_tokens this (concat pss) w).
Proof.
  induction pss as [|ps pss IH]; intros choice w.
  - cbn [map app concat fold_left]. now rewrite after_tokens_nil.
  - cbn [map app concat read_stream]. rewrite feed_deltas_exact.
    cbn [fst snd]. rewrite IH, fold_left_app.
    now rewrite after_tokens_app.
Qed.

Lemma absorb_last (parts : list Choice) :
  forall choice,
    choice_index (fold_left absorb parts choice) = choice_index choice /\
    choice_finish_reason (fold_left absorb parts choice)
    = match last_of parts with
      | Some part => choice_finish_reason part
      | None => choice_finish_reason choice
      end /\
    choice_logprobs (fold_left absorb parts choice)
    = match last_of parts with
      | Some part => choice_logprobs part
      | None => choice_logprobs choice
      end.
Proof.
  induction parts as [|part parts IH] using rev_ind; intros choice.
  - now repeat split.
  - rewrite fold_left_app. unfold last_of. rewrite rev_app_distr.
    cbn [fold_left rev app absorb choice_index choice_finish_reason
         choice_logprobs].
    destruct (IH choice) as [Hi _]. now repeat split.
Qed.

Lemma first_parts_app (a b : list ParsedEvent) :
  first_parts (a ++ b) = first_parts a ++ first_parts b.
Proof. unfold first_parts. apply flat_map_app. Qed.

(** What one chunk does to the accumulator, the flag and the world. *)
Lemma feed_events (this : OpenAI) (events : list ParsedEvent) :
  forall (choice : Choice) (settled : bool) (w : World),
    feed this events (choice, settled) w
    = ((fold_left absorb (first_parts events) choice,
        settled || has_sentinel events),
       after_tokens this (first_parts events) w).
Proof.
  induction events as [|event events IH]; intros choice settled w.
  - cbn [feed first_parts flat_map fold_left has_sentinel existsb].
    now rewrite after_tokens_nil, orb_false_r.
  - destruct event as [[|[|part parts]]|].
    + cbn [feed on_parse fst snd]. rewrite IH.
      cbn [first_parts flat_map app has_sentinel existsb orb].
      now rewrite orb_true_r.
    + cbn [feed on_parse]. rewrite IH. reflexivity.
    + cbn [feed on_parse fst snd]. rewrite IH.
      cbn [first_parts flat_map app fold_left has_sentinel existsb orb].
      f_equal.
      change (part :: flat_map _ events)
        with ([part] ++ first_parts events).
      rewrite <- after_tokens_app. f_equal.
      unfold after_tokens, emit. cbn [map].
      destruct (handleNewToken _); [reflexivity|].
      rewrite app_nil_r. now destruct w.
    + cbn [feed on_parse]. rewrite IH. reflexivity.
Qed.

(** After the promise is settled the listener absorbs whatever the body
    still delivers. *)
Lemma drain_body (this : OpenAI) (chunks : list (list ParsedEvent))
      (err : option error) :
  forall (choice : Choice) (w : World),
    drain this (body chunks err) choice w
    = (fold_left absorb (first_parts (concat chunks)) choice,
       after_tokens this (first_parts (concat chunks)) w).
Proof.
  unfold body.
  induction chunks as [|chunk chunks IH]; intros choice w.
  - cbn [map app concat first_parts flat_map fold_left].
    rewrite after_tokens_nil. now destruct err.
  - cbn [map app concat drain]. rewrite feed_events. cbn [fst].
    rewrite IH, first_parts_app, fold_left_app.
    now rewrite after_tokens_app.
Qed.

Lemma read_stream_body (this : OpenAI) (chunks : list (list ParsedEvent))
      (err : option error) :
  forall (choice : Choice) (w : World),
    read_stream this (body chunks err) choice w
    = (if existsb has_sentinel chunks
       then Return (fold_left absorb (first_parts (concat chunks)) choice)
       else match err with
            | Some e => Throw e
            | None => Pending
            end,
       after_tokens this (first_parts (concat chunks)) w).
Proof.
  induction chunks as [|chunk chunks IH]; intros choice w.
  - unfold body.
    cbn [map app concat first_parts flat_map fold_left existsb].
    rewrite after_tokens_nil. now destruct err.
  - change (body (chunk :: chunks) err)
      with (Data chunk :: body chunks err).
    cbn [read_stream concat existsb]. rewrite feed_events.
    cbn [fst snd orb].
    rewrite first_parts_app, fold_left_app, <- after_tokens_app.
    destruct (has_sentinel chunk); cbn [orb].
    + now rewrite drain_body.
    + apply IH.
Qed.

(** X10.  For a response body that delivers the chunks [chunks] and then
    ends, or breaks off with an error: the streaming promise resolves if
    one of the chunks carries the sentinel, and otherwise rejects with the
    error of the stream or, without one, never settles.  The listener is
    never removed, so in every case the first choice of every delta the
    body delivers is absorbed, also of those after the sentinel, in the
    same chunk or in later ones: the choice holds their fragments in
    arrival order, the finish reason and the log-probabilities of the last
    of them, and no index.  The per-token hook, when the callback manager
    has one, was called once per absorbed delta with its fragment, in
    order, and nothing else happened. *)
Theorem stream_reconstruction (this : OpenAI)
        (chunks : list (list ParsedEvent)) (err : option error) (w : World) :
  exists choice,
    read_stream this (body chunks err) empty_choice w
    = (if existsb has_sentinel chunks then Return choice
       else match err with
            | Some e => Throw e
            | None => Pending
            end,
       after_tokens this (first_parts (concat chunks)) w) /\
    text (to_generation choice)
    = String.concat "" (map fragment (first_parts (concat chunks))) /\
    finishReason (to_generation choice)
    = match last_of (first_parts (concat chunks)) with
      | Some part => choice_finish_reason part
      | None => None
      end /\
    logprobs (to_generation choice)
    = match last_of (first_parts (concat chunks)) with
      | Some part => choice_logprobs part
      | None => None
      end /\
    choice_index choice = None.
Proof.
  exists (fold_left absorb (first_parts (concat chunks)) empty_choice).
  split; [|split; [|split; [|split]]].
  - apply read_stream_body.
  - unfold to_generation. cbn [text]. now rewrite absorb_text.
  - unfold to_generation. cbn [finishReason].
    now destruct (absorb_last (first_parts (concat chunks)) empty_choice)
      as (_ & -> & _).
  - unfold to_generation. cbn [logprobs].
    now destruct (absorb_last (first_parts (concat chunks)) empty_choice)
      as (_ & _ & ->).
  - now destruct (absorb_last (first_parts (concat chunks)) empty_choice)
      as (-> & _ & _).
Qed.

Lemma network_prompts_after_tokens (this : OpenAI) (parts : list Choice)
      (w : World) :
  network_prompts (trace (after_tokens this parts w))
  = network_prompts (trace w).
Proof.
  unfold after_tokens. cbn [trace]. apply network_prompts_other.
  destruct (handleNewToken _); [|constructor].
  apply Forall_forall. intros e He.
  apply in_map_iff in He as [part [<- _]]. reflexivity.
Qed.

(** The streaming branch for the first sub-batch of a non-empty prompt
    list, when the stream it reads does not resolve. *)
Lemma _generate_stream_unresolved (env : Environment) (this : OpenAI)
      (p : string) (ps : list string) (s : option (list string))
      (data : CompletionData) (w : World) :
  JS.truthy (JS.get "stream" (invocationParams this)) = true ->
  stop this = None \/ s = None ->
  1 <= batchSize this ->
  (forall k request, network env k request = Return data) ->
  exists request,
    request_prompts request = firstn (batchSize this) (p :: ps) /\
    forall w1,
      (forall e,
          read_stream this (stream data) empty_choice
                      (emit (ENetwork request) w) = (Throw e, w1) ->
          _generate this (completionWithRetry env this) (p :: ps) s w
          = (Throw e, w1)) /\
      (read_stream this (stream data) empty_choice
                   (emit (ENetwork request) w) = (Pending, w1) ->
       _generate this (completionWithRetry env this) (p :: ps) s w
       = (Pending, w1)).
Proof.
  intros Hflag Hstop Hb Hnet.
  set (params :=
         JS.set "stop"
           (JS.nullish (JS.of_option JS.of_strings s)
                       (JS.get "stop" (invocationParams this)))
           (invocationParams this)).
  assert (Hp : JS.truthy (JS.get "stream" params) = true).
  { unfold params. now rewrite stream_flag_after_stop. }
  exists (JS.set "prompt"
                 (JS.of_strings (firstn (batchSize this) (p :: ps))) params).
  split; [apply request_prompts_set|].
  assert (Hrun : forall (o : outcome Choice) (o' : outcome LLMResult) w1,
             (forall a, o <> Return a) ->
             (forall e, o = Throw e -> o' = Throw e) ->
             (o = Pending -> o' = Pending) ->
             read_stream this (stream data) empty_choice
               (emit (ENetwork
                        (JS.set "prompt"
                           (JS.of_strings (firstn (batchSize this) (p :: ps)))
                           params)) w) = (o, w1) ->
             _generate this (completionWithRetry env this) (p :: ps) s w
             = (o', w1)).
  { intros o o' w1 Hno Hthrow Hpend Hread.
    unfold _generate. fold params.
    assert (Hbody :
              (r <- complete_all this (completionWithRetry env this) params
                     (chunkArray (p :: ps) (batchSize this)) [] empty_usage ;;
               ret {| generations :=
                        map (map to_generation) (chunkArray (fst r) (n this));
                      llmOutput := Some (snd r) |}) w = (o', w1)).
    { destruct (batchSize this) as [|b] eqn:Hbatch; [lia|].
      unfold chunkArray at 1. cbn [length chunkArray_fuel complete_all].
      rewrite Hp. unfold bind at 1 2.
      rewrite (completionWithRetry_first_try env this _ w (Hnet _ _)).
      unfold bind at 1 2. rewrite Hread.
      destruct o as [a|e|].
      - now elim (Hno a).
      - now rewrite (Hthrow e eq_refl).
      - now rewrite (Hpend eq_refl). }
    destruct Hstop as [-> | ->]; [|destruct (stop this)]; exact Hbody. }
  intros w1. split.
  - intros e Hread.
    apply (Hrun (Throw e) (Throw e) w1); try easy. congruence.
  - intros Hread.
    apply (Hrun Pending Pending w1); try easy.
Qed.

(** X11.  An error of the response stream is not retried: when the body of
    a streamed response emits an error before the sentinel, [_generate]
    throws that error after exactly one network call, whatever
    [maxRetries] is, and drops the deltas read so far. *)
Theorem stream_error_is_not_retried (env : Environment) (this : OpenAI)
        (p : string) (ps : list string) (s : option (list string))
        (pss : list (list Choice)) (e : error) (rest : list StreamItem)
        (data : CompletionData) (w : World) :
  JS.truthy (JS.get "stream" (invocationParams this)) = true ->
  stop this = None \/ s = None ->
  1 <= batchSize this ->
  (forall k request, network env k request = Return data) ->
  stream data = map Data (map (map delta) pss) ++ StreamError e :: rest ->
  exists w',
    _generate this (completionWithRetry env this) (p :: ps) s w
    = (Throw e, w')
    /\ network_prompts (trace w')
       = network_prompts (trace w) ++ [firstn (batchSize this) (p :: ps)]
    /\ store w' = store w.
Proof.
  intros Hflag Hstop Hb Hnet Hstream.
  destruct (@_generate_stream_unresolved env this p ps s data w
              Hflag Hstop Hb Hnet) as (request & Hreq & Hrun).
  exists (after_tokens this (concat pss) (emit (ENetwork request) w)).
  split; [|split].
  - apply Hrun. rewrite Hstream, read_stream_delta_chunks. reflexivity.
  - rewrite network_prompts_after_tokens. cbn [emit trace].
    now rewrite network_prompts_emit, Hreq.
  - reflexivity.
Qed.

(** X12.  When the body of a streamed response ends without sentinel and
    without error, the promise of [_generate] never settles: no result, no
    error, and no further request. *)
Theorem stream_without_sentinel_never_settles (env : Environment)
        (this : OpenAI) (p : string) (ps : list string)
        (s : option (list string)) (pss : list (list Choice))
        (data : CompletionData) (w : World) :
  JS.truthy (JS.get "stream" (invocationParams this)) = true ->
  stop this = None \/ s = None ->
  1 <= batchSize this ->
  (forall k request, network env k request = Return data) ->
  stream data = map Data (map (map delta) pss) ->
  exists w',
    _generate this (completionWithRetry env this) (p :: ps) s w
    = (Pending, w')
    /\ network_prompts (trace w')
       = network_prompts (trace w) ++ [firstn (batchSize this) (p :: ps)]
    /\ store w' = store w.
Proof.
  intros Hflag Hstop Hb Hnet Hstream.
  destruct (@_generate_stream_unresolved env this p ps s data w
              Hflag Hstop Hb Hnet) as (request & Hreq & Hrun).
  exists (after_tokens this (concat pss) (emit (ENetwork request) w)).
  split; [|split].
  - apply Hrun. rewrite Hstream.
    rewrite <- (app_nil_r (map Data _)), read_stream_delta_chunks.
    reflexivity.
  - rewrite network_prompts_after_tokens. cbn [emit trace].
    now rewrite network_prompts_emit, Hreq.
  - reflexivity.
Qed.

Lemma stream_error_is_not_retried_witness :
  exists llm : OpenAI,
    OpenAI_constructor (Example.env_of Example2.broken)
      (with_streaming (Some true) no_fields) [] = inr llm /\
    maxRetries llm = 6 /\
    exists w',
      _generate llm (completionWithRetry (Example.env_of Example2.broken) llm)
                ["p"] None empty_world = (Throw "Error: aborted", w')
      /\ network_prompts (trace w') = [["p"]]
      /\ store w' = store empty_world.
Proof.
  eexists. split; [reflexivity|]. split; [reflexivity|].
  match goal with
  | |- exists w', _generate ?llm _ _ _ _ = _ /\ _ =>
      destruct (@stream_error_is_not_retried
                  (Example.env_of Example2.broken) llm
                  "p" [] None [[Example.reply 0 "Hel"]] "Error: aborted"
                  [Data [delta (Example.reply 0 "lo"); Event Done]]
                  Example2.broken_stream empty_world)
        as (w' & Hrun & Hnet & Hstore)
  end.
  - reflexivity.
  - now right.
  - simpl; lia.
  - reflexivity.
  - reflexivity.
  - exists w'. split; [exact Hrun|]. split; [exact Hnet|exact Hstore].
Defined.

Lemma stream_without_sentinel_never_settles_witness :
  exists llm : OpenAI,
    OpenAI_constructor (Example.env_of Example2.cut)
      (with_streaming (Some true) no_fields) [] = inr llm /\
    exists w',
      _generate llm (completionWithRetry (Example.env_of Example2.cut) llm)
                ["p"] None empty_world = (Pending, w')
      /\ network_prompts (trace w') = [["p"]]
      /\ store w' = store empty_world.
Proof.
  eexists. split; [reflexivity|].
  match goal with
  | |- exists w', _generate ?llm _ _ _ _ = _ /\ _ =>
      destruct (@stream_without_sentinel_never_settles
                  (Example.env_of Example2.cut) llm
                  "p" [] None [[Example.reply 0 "Hel"]]
                  Example2.cut_stream empty_world)
        as (w' & Hrun & Hnet & Hstore)
  end.
  - reflexivity.
  - now right.
  - simpl; lia.
  - reflexivity.
  - reflexivity.
  - exists w'. split; [exact Hrun|]. split; [exact Hnet|exact Hstore].
Defined.

(** ** The [LLM] class *)

Lemma queue_add_nested_admits {A} (this : BaseLLM) (task : Promise A) :
  queue_add_nested this task
  = match concurrency this with
    | None => task
    | Some k => if (1 <? k)%nat then task else fun w => (Pending, w)
    end.
Proof.
  unfold queue_add_nested.
  destruct (concurrency this) as [[|[|k]]|]; reflexivity.
Qed.

Lemma LLM_generate_loop_spec (this : BaseLLM)
      (_call : string -> option (list string) -> Promise string)
      (reply : string -> string) (s : option (list string)) :
  (forall task : Promise string, queue_add_nested this task = task) ->
  (forall p w0, fst (_call p s w0) = Return (reply p)) ->
  forall prompts acc w,
    fst (LLM_generate_loop this _call prompts s acc w)
    = Return {| generations :=
                  acc ++ map (fun p => [{| text := reply p;
                                           finishReason := None;
                                           logprobs := None |}]) prompts;
                llmOutput := None |}.
Proof.
  intros Hadmit Hcall.
  induction prompts as [|p prompts IH]; intros acc w.
  - cbn [LLM_generate_loop map]. unfold ret. cbn [fst].
    now rewrite app_nil_r.
  - cbn [LLM_generate_loop map]. rewrite Hadmit. unfold bind.
    pose proof (Hcall p w) as Hp.
    destruct (_call p s w) as [o w1]. cbn [fst] in Hp. subst o.
    rewrite IH. now rewrite <- app_assoc.
Qed.

(** X13.  For an [LLM] subclass whose queue admits a second task
    ([concurrency] left out, or at least 2) and whose [_call] returns for
    every prompt, [_generate] returns exactly one generation list per
    prompt, in prompt order, each holding the one text [_call] returned
    for that prompt, and no [llmOutput]. *)
Theorem LLM__generate_one_per_prompt (this : BaseLLM)
        (_call : string -> option (list string) -> Promise string)
        (reply : string -> string) (prompts : list string)
        (s : option (list string)) (w : World) :
  (concurrency this = None
   \/ exists k, concurrency this = Some k /\ 2 <= k) ->
  (forall p w0, fst (_call p s w0) = Return (reply p)) ->
  fst (LLM__generate this _call prompts s w)
  = Return {| generations :=
                map (fun p => [{| text := reply p; finishReason := None;
                                  logprobs := None |}]) prompts;
              llmOutput := None |}.
Proof.
  intros Hroom Hcall. unfold LLM__generate.
  apply (@LLM_generate_loop_spec this _call reply s); [|exact Hcall].
  intros task. rewrite queue_add_nested_admits.
  destruct Hroom as [->|(k & -> & Hk)]; [reflexivity|].
  apply Nat.ltb_lt in Hk. now rewrite Hk.
Qed.

Lemma LLM__generate_one_per_prompt_witness :
  exists this : BaseLLM,
    BaseLLM_constructor None None None CacheUnset = inr this /\
    fst (LLM__generate this Example2.echo_call ["a"; "b"] None empty_world)
    = Return {| generations :=
                  [[{| text := "re:a"; finishReason := None;
                       logprobs := None |}];
                   [{| text := "re:b"; finishReason := None;
                       logprobs := None |}]];
                llmOutput := None |}.
Proof.
  eexists. split; [reflexivity|].
  match goal with
  | |- fst (LLM__generate ?this _ _ _ _) = _ =>
      apply (@LLM__generate_one_per_prompt
               this Example2.echo_call (fun p => ("re:" ++ p)%string)
               ["a"; "b"] None empty_world)
  end.
  - now left.
  - reflexivity.
Defined.



Lemma _generateUncached_output (this : BaseLLM)
      (_generate : list string -> option (list string) -> Promise LLMResult)
      (prompts : list string) (s : option (list string))
      (w w' : World) (out : LLMResult) :
  _generateUncached this _generate prompts s w = (Return out, w') ->
  exists w0 w1, _generate prompts s w0 = (Return out, w1).
Proof.
  unfold _generateUncached, bind, try_catch, queue_add. intros H.
  destruct (notify (EStart prompts) (start_hook this prompts) w)
    as [[[]|e|] w0]; try discriminate.
  destruct (_generate prompts s w0) as [[out'|e|] w1] eqn:Hrun.
  - exists w0, w1. rewrite Hrun.
    destruct (notify (EEnd out') (end_hook this out') w1)
      as [[[]|e|] w2]; try discriminate.
    unfold ret in H. now injection H as -> _.
  - destruct (notify (EError e) (error_hook this e) w1)
      as [[[]|e'|] w2]; discriminate.
  - discriminate.
Qed.

Lemma LLM_generate_loop_output (this : BaseLLM)
      (_call : string -> option (list string) -> Promise string)
      (s : option (list string)) :
  forall prompts acc w out w',
    LLM_generate_loop this _call prompts s acc w = (Return out, w') ->
    llmOutput out = None.
Proof.
  induction prompts as [|p prompts IH]; intros acc w out w' H.
  - cbn [LLM_generate_loop] in H. unfold ret in H. now injection H as <- _.
  - cbn [LLM_generate_loop] in H. unfold bind in H.
    destruct (queue_add_nested this (_call p s) w) as [[t|e|] w1];
      try discriminate.
    exact (IH _ _ _ _ H).
Qed.

(** A successful call for one prompt leaves the prompt in the cache; its
    [llmOutput] is empty or that of [_generateUncached]. *)
Lemma single_prompt_cached (this : BaseLLM)
      (_generate : list string -> option (list string) -> Promise LLMResult)
      (params : JS.object) (type : string) (p : string)
      (s : option (list string)) (w w1 : World) (r1 : GenerateResult)
      (g : list Generation) :
  cache this <> CacheFlag false ->
  generate this _generate params type [p] s w = (Return r1, w1) ->
  result_generations r1 = [Some g] ->
  InMemoryCache.lookup (Some p) (llmStringKey params type s) (store w1)
  = Some g
  /\ (result_llmOutput r1 = None
      \/ exists results wa wb,
          _generateUncached this _generate [p] s wa = (Return results, wb)
          /\ result_llmOutput r1 = llmOutput results).
Proof.
  intros Hcache Hfirst Hgen.
  assert (Hc : strictly_false (cache this) = false).
  { destruct (cache this) as [|[|]|]; try reflexivity. now elim Hcache. }
  unfold generate in Hfirst. rewrite Hc in Hfirst.
  unfold bind at 1 in Hfirst. rewrite lookup_all_spec in Hfirst.
  cbn [map] in Hfirst.
  destruct (InMemoryCache.lookup (Some p) (llmStringKey params type s)
                                 (store w)) as [g0|] eqn:Hlook;
    cbn [missing_from length Nat.ltb Nat.leb map nth] in Hfirst.
  - unfold ret in Hfirst. injection Hfirst as <- <-.
    cbn [result_generations] in Hgen. injection Hgen as <-.
    split; [exact Hlook|now left].
  - unfold bind at 1 in Hfirst.
    match type of Hfirst with
    | context [_generateUncached this _generate [p] s ?wa] =>
        destruct (_generateUncached this _generate [p] s wa)
          as [[results|e|] wb] eqn:Hunc; try discriminate
    end.
    destruct (generations results) as [|g1 rest].
    + cbn [fill] in Hfirst. unfold bind, ret in Hfirst.
      injection Hfirst as <- <-. discriminate.
    + cbn [fill nth_error] in Hfirst.
      unfold bind at 1 2, cache_update at 1 in Hfirst.
      cbn [array_set] in Hfirst.
      match type of Hfirst with
      | context [fill ?ps ?k ?m ?i ?rs ?a ?w0] =>
          destruct (@fill_beyond ps k m rs i a w0) as [wd [Hfill Hstore]];
            [simpl; lia|rewrite Hfill in Hfirst]
      end.
      unfold ret in Hfirst. injection Hfirst as <- <-.
      cbn [result_generations] in Hgen. injection Hgen as <-.
      split.
      * rewrite Hstore. cbn [store]. apply lookup_update.
      * right. do 3 eexists. split; [exact Hunc|reflexivity].
Qed.

Lemma single_prompt_hit (this : BaseLLM)
      (_generate : list string -> option (list string) -> Promise LLMResult)
      (params : JS.object) (type : string) (p : string)
      (s : option (list string)) (w1 : World) (g : list Generation) :
  cache this <> CacheFlag false ->
  InMemoryCache.lookup (Some p) (llmStringKey params type s) (store w1)
  = Some g ->
  generate this _generate params type [p] s w1
  = (Return {| result_generations := [Some g]; result_llmOutput := None |},
     emit (ELookup p (llmStringKey params type s)) w1).
Proof.
  intros Hcache Hhit.
  assert (Hc : strictly_false (cache this) = false).
  { destruct (cache this) as [|[|]|]; try reflexivity. now elim Hcache. }
  unfold generate. rewrite Hc.
  unfold bind at 1. rewrite lookup_all_spec. cbn [map].
  rewrite Hhit. cbn [missing_from length Nat.ltb Nat.leb].
  reflexivity.
Qed.

(** X15.  For an [LLM] subclass with the cache on, when a first
    [generate([p], s)] returned a generation list for the prompt, a second
    call returns exactly the result of the first, generations and
    [llmOutput], and does nothing but look the prompt up. *)
Theorem LLM_second_call_returns_first_result (this : BaseLLM)
        (_call : string -> option (list string) -> Promise string)
        (params : JS.object) (type : string) (p : string)
        (s : option (list string)) (w w1 : World) (r1 : GenerateResult)
        (g : list Generation) :
  cache this <> CacheFlag false ->
  LLM_generate this _call params type [p] s w = (Return r1, w1) ->
  result_generations r1 = [Some g] ->
  LLM_generate this _call params type [p] s w1
  = (Return r1, emit (ELookup p (llmStringKey params type s)) w1).
Proof.
  intros Hcache Hfirst Hgen. unfold LLM_generate in *.
  destruct (@single_prompt_cached this (LLM__generate this _call) params
              type p s w w1 r1 g Hcache Hfirst Hgen) as [Hhit Hout].
  rewrite (@single_prompt_hit this (LLM__generate this _call) params type
             p s w1 g Hcache Hhit).
  assert (Hnone : result_llmOutput r1 = None).
  { destruct Hout as [Hout|(results & wa & wb & Hunc & ->)]; [exact Hout|].
    apply _generateUncached_output in Hunc as (w0 & wc & Hrun).
    exact (@LLM_generate_loop_output this _call s _ _ _ _ _ Hrun). }
  destruct r1 as [gens out]. cbn [result_generations result_llmOutput] in *.
  now subst.
Qed.

Lemma LLM_second_call_returns_first_result_witness :
  exists (this : BaseLLM) (r1 : GenerateResult) (w1 : World),
    BaseLLM_constructor None None None CacheUnset = inr this /\
    LLM_generate this Example2.echo_call [] "echo" ["p"] None empty_world
    = (Return r1, w1) /\
    LLM_generate this Example2.echo_call [] "echo" ["p"] None w1
    = (Return r1, emit (ELookup "p" (llmStringKey [] "echo" None)) w1).
Proof.
  do 3 eexists. split; [reflexivity|].
  split; [vm_compute; reflexivity|].
  eapply LLM_second_call_returns_first_result with (w := empty_world);
    [discriminate|vm_compute; reflexivity|reflexivity].
Defined.

(** ** [call] *)

(** X16.  Under the conditions of X7, [call(prompt)] returns the text of
    the first generation of the prompt: of the cached list when the prompt
    is in the cache (then without any network call), and otherwise of the
    provider's answer (then after one network call for that prompt). *)
Theorem call_returns_first_text (env : Environment) (this : OpenAI)
        (p : string) (s : option (list string))
        (answer : string -> list Generation) (w : World)
        (g : Generation) (gs : list Generation) :
  cache (base this) <> CacheFlag false ->
  1 <= batchSize this ->
  1 <= n this ->
  JS.truthy (JS.get "stream" (invocationParams this)) = false ->
  stop this = None \/ s = None ->
  (forall ps e, start_hook (base this) ps <> Some (Some e)) ->
  (forall out e, end_hook (base this) out <> Some (Some e)) ->
  (forall k request,
      JS.truthy (JS.get "stream" request) = false ->
      exists data,
        network env k request = Return data /\
        map to_generation (choices data)
        = flat_map answer (request_prompts request)) ->
  (forall p, length (answer p) = n this) ->
  cached_or answer (store w) (OpenAI_llmStringKey this s) p = g :: gs ->
  exists w',
    OpenAI_call env this p s w = (Return (text g), w')
    /\ network_prompts (trace w')
       = network_prompts (trace w)
         ++ match InMemoryCache.lookup (Some p) (OpenAI_llmStringKey this s)
                                       (store w) with
            | Some _ => []
            | None => [[p]]
            end.
Proof.
  intros Hcache Hb Hn Hplain Hstop Hstart Hend Hnet Hanswer Hfirst.
  destruct (@generate_cached_path env this [p] s answer w
              Hcache Hb Hn Hplain Hstop Hstart Hend Hnet Hanswer)
    as (r & w' & Hrun & Hgen & Hsent & _).
  exists w'. split.
  - unfold OpenAI_call, call. unfold OpenAI_generate in Hrun.
    erewrite bind_Return by exact Hrun.
    rewrite Hgen. cbn [map]. now rewrite Hfirst.
  - rewrite Hsent. f_equal. unfold missed. cbn [filter].
    destruct (InMemoryCache.lookup (Some p) _ (store w)); cbn [is_miss].
    + apply chunkArray_nil.
    + now apply chunkArray_singleton.
Qed.

Lemma call_returns_first_text_witness :
  exists llm : OpenAI,
    OpenAI_constructor (Example.env_of Example.echo) no_fields [] = inr llm /\
    exists w',
      OpenAI_call (Example.env_of Example.echo) llm "p" None empty_world
      = (Return "re:p", w')
      /\ network_prompts (trace w') = [["p"]].
Proof.
  eexists. split; [reflexivity|].
  match goal with
  | |- exists w', OpenAI_call ?env ?llm ?p ?s ?w = _ /\ _ =>
      destruct (@call_returns_first_text env llm p s Example.echo_answer w
                  {| text := "re:p"; finishReason := Some "stop";
                     logprobs := None |} [])
        as (w' & Hrun & Hnet)
  end.
  - discriminate.
  - simpl; lia.
  - simpl; lia.
  - reflexivity.
  - now right.
  - intros ps e. discriminate.
  - intros out e. discriminate.
  - intros k request Hplain. eexists. unfold Example.env_of, Example.echo.
    cbn [network]. rewrite Hplain. split; [reflexivity|].
    apply echo_generations.
  - reflexivity.
  - reflexivity.
  - exists w'. split; [exact Hrun|exact Hnet].
Defined.

(** X17.  When the provider answers with an empty list of choices,
    [call] does not fail with an error of the provider and does not
    return: after the network call it throws a [TypeError], from reading
    [generations[0][0]] of an empty result (cache off) or of a [null]
    entry (cache on, prompt not cached).  Nothing is cached. *)
Theorem call_without_choice_throws_TypeError (env : Environment)
        (this : OpenAI) (p : string) (s : option (list string))
        (data : CompletionData) (w : World) :
  1 <= batchSize this ->
  JS.truthy (JS.get "stream" (invocationParams this)) = false ->
  stop this = None \/ s = None ->
  (forall ps e, start_hook (base this) ps <> Some (Some e)) ->
  (forall out e, end_hook (base this) out <> Some (Some e)) ->
  (forall k request, network env k request = Return data) ->
  choices data = [] ->
  InMemoryCache.lookup (Some p) (OpenAI_llmStringKey this s) (store w) = None ->
  exists w',
    OpenAI_call env this p s w
    = (Throw
         (if strictly_false (cache (base this))
          then "TypeError: Cannot read properties of undefined (reading '0')"
          else "TypeError: Cannot read properties of null (reading '0')"),
       w')
    /\ network_prompts (trace w') = network_prompts (trace w) ++ [[p]]
    /\ (forall q k, InMemoryCache.lookup (Some q) k (store w')
                    = InMemoryCache.lookup (Some q) k (store w)).
Proof.
  intros Hb Hplain Hstop Hstart Hend Hnet Hnone Hmiss.
  set (params :=
         JS.set "stop"
           (JS.nullish (JS.of_option JS.of_strings s)
                       (JS.get "stop" (invocationParams this)))
           (invocationParams this)).
  assert (Hflag : JS.truthy (JS.get "stream" params) = false).
  { unfold params. now rewrite stream_flag_after_stop. }
  assert (Hgen : forall w0,
             exists w1,
               _generate this (completionWithRetry env this) [p] s w0
               = (Return {| generations := [];
                            llmOutput :=
                              Some (add_usage empty_usage (usage data)) |}, w1)
               /\ store w1 = store w0
               /\ network_prompts (trace w1)
                  = network_prompts (trace w0) ++ [[p]]).
  { intros w0.
    pose proof (complete_all_responses env this params (fun _ => data)
                  Hflag (fun k request _ => Hnet k request)
                  (chunkArray [p] (batchSize this)) [] empty_usage w0)
      as Hrun.
    rewrite chunkArray_singleton in Hrun by exact Hb.
    cbn [flat_map map fold_left app] in Hrun. rewrite Hnone in Hrun.
    cbn [app] in Hrun.
    exists {| store := store w0;
              trace := trace w0
                       ++ [ENetwork
                             (JS.set "prompt" (JS.of_strings [p]) params)] |}.
    split; [|split].
    - unfold _generate. fold params.
      rewrite chunkArray_singleton by exact Hb.
      destruct Hstop as [-> | ->];
        [|destruct (stop this)];
        (erewrite bind_Return by exact Hrun);
        unfold ret; cbn [fst snd]; now rewrite chunkArray_nil.
    - reflexivity.
    - cbn [trace]. rewrite network_prompts_emit, request_prompts_set.
      reflexivity. }
  destruct (0 <? 1)%nat eqn:Hone; [|discriminate].
  unfold OpenAI_call, call, generate.
  destruct (strictly_false (cache (base this))) eqn:Hc.
  - destruct (@_generateUncached_quiet_hooks (base this)
                (_generate this (completionWithRetry env this))
                [p] s w Hstart Hend) as (w0 & Hs0 & Hn0 & Hlift).
    destruct (Hgen w0) as (w1 & Hrun & Hs1 & Hn1).
    destruct (Hlift _ _ Hrun) as (w2 & Hunc & Hs2 & Hn2).
    exists w2. split; [|split].
    + erewrite bind_Return
        by (erewrite bind_Return by exact Hunc; reflexivity).
      reflexivity.
    + now rewrite Hn2, Hn1, Hn0.
    + intros q k. now rewrite Hs2, Hs1, Hs0.
  - set (wa := {| store := store w;
                  trace := trace w
                           ++ [ELookup p (OpenAI_llmStringKey this s)] |}).
    destruct (@_generateUncached_quiet_hooks (base this)
                (_generate this (completionWithRetry env this))
                [p] s wa Hstart Hend) as (w0 & Hs0 & Hn0 & Hlift).
    destruct (Hgen w0) as (w1 & Hrun & Hs1 & Hn1).
    destruct (Hlift _ _ Hrun) as (w2 & Hunc & Hs2 & Hn2).
    exists w2. split; [|split].
    + erewrite bind_Return; cycle 1.
      { unfold bind at 1. rewrite lookup_all_spec. cbn [map].
        unfold OpenAI_llmStringKey in Hmiss. rewrite Hmiss.
        cbn [missing_from length map nth]. rewrite Hone.
        erewrite bind_Return by exact Hunc.
        cbn [generations fill]. reflexivity. }
      reflexivity.
    + rewrite Hn2, Hn1, Hn0. unfold wa. cbn [trace].
      now rewrite network_prompts_other by (now constructor).
    + intros q k. now rewrite Hs2, Hs1, Hs0.
Qed.

Lemma call_without_choice_throws_TypeError_witness :
  exists llm : OpenAI,
    OpenAI_constructor (Example.env_of Example2.silent) no_fields []
    = inr llm /\
    exists w',
      OpenAI_call (Example.env_of Example2.silent) llm "p" None empty_world
      = (Throw "TypeError: Cannot read properties of null (reading '0')", w')
      /\ network_prompts (trace w') = [["p"]].
Proof.
  eexists. split; [reflexivity|].
  match goal with
  | |- exists w', OpenAI_call ?env ?llm ?p ?s ?w = _ /\ _ =>
      destruct (@call_without_choice_throws_TypeError env llm p s
                  Example2.silent_response w)
        as (w' & Hrun & Hnet & _)
  end.
  - simpl; lia.
  - reflexivity.
  - now right.
  - intros ps e. discriminate.
  - intros out e. discriminate.
  - intros k request. reflexivity.
  - reflexivity.
  - reflexivity.
  - exists w'. split; [exact Hrun|exact Hnet].
Defined.

(** ** A failing sub-batch *)

Lemma network_prompts_repeat (t : list effect) (request : JS.object)
      (m : nat) :
  network_prompts (t ++ repeat (ENetwork request) m)
  = network_prompts t ++ repeat (request_prompts request) m.
Proof.
  unfold network_prompts. rewrite flat_map_app. f_equal.
  induction m as [|m IH]; [reflexivity|].
  cbn [repeat flat_map app]. now rewrite IH.
Qed.

Lemma completionWithRetry_exhausted (env : Environment) (this : OpenAI)
      (request : JS.object) (e : error) (w : World) :
  (forall k, network env k request = Throw e) ->
  completionWithRetry env this request w
  = (Throw e,
     {| store := store w;
        trace := trace w
                 ++ repeat (ENetwork request) (Nat.max 1 (maxRetries this)) |}).
Proof.
  intros Hfail. unfold completionWithRetry, backOff.
  destruct (retry_attempts env request (pred (maxRetries this)) w)
    as (m & Hm & Hrun & _ & Hlast).
  assert (Hall : m = S (pred (maxRetries this))).
  { destruct (Nat.eq_dec m (S (pred (maxRetries this)))) as [H|H];
      [exact H|].
    assert (Hlt : m < S (pred (maxRetries this))) by lia.
    exfalso. apply (Hlast Hlt e). apply Hfail. }
  replace (Nat.max 1 (maxRetries this)) with (S (pred (maxRetries this)))
    by lia.
  now rewrite Hrun, Hfail, Hall.
Qed.

(** X18.  When the requests of the sub-batches before some sub-batch are
    answered and every attempt for that sub-batch fails with [e], then
    [_generate] of a non-streaming instance throws [e]: the choices
    already received are dropped, the failing sub-batch has been attempted
    [max 1 maxRetries] times, and no request is made for the sub-batches
    after it. *)
Theorem failing_sub_batch_aborts (env : Environment) (this : OpenAI)
        (prompts : list string) (s : option (list string))
        (before after : list (list string)) (failing : list string)
        (respond : list string -> CompletionData) (e : error) (w : World) :
  JS.truthy (JS.get "stream" (invocationParams this)) = false ->
  stop this = None \/ s = None ->
  chunkArray prompts (batchSize this) = before ++ failing :: after ->
  (forall k request,
      In (request_prompts request) before ->
      network env k request = Return (respond (request_prompts request))) ->
  (forall k request,
      request_prompts request = failing ->
      network env k request = Throw e) ->
  exists w',
    _generate this (completionWithRetry env this) prompts s w = (Throw e, w')
    /\ network_prompts (trace w')
       = network_prompts (trace w) ++ before
         ++ repeat failing (Nat.max 1 (maxRetries this))
    /\ store w' = store w.
Proof.
  intros Hplain Hstop Hsubs Hgood Hbad.
  set (params :=
         JS.set "stop"
           (JS.nullish (JS.of_option JS.of_strings s)
                       (JS.get "stop" (invocationParams this)))
           (invocationParams this)).
  assert (Hflag : JS.truthy (JS.get "stream" params) = false).
  { unfold params. now rewrite stream_flag_after_stop. }
  assert (Hall : forall acc tokenUsage w0,
             exists w1,
               complete_all this (completionWithRetry env this) params
                            (before ++ failing :: after) acc tokenUsage w0
               = (Throw e, w1)
               /\ network_prompts (trace w1)
                  = network_prompts (trace w0) ++ before
                    ++ repeat failing (Nat.max 1 (maxRetries this))
               /\ store w1 = store w0).
  { clear Hsubs. induction before as [|sub before IH];
      intros acc tokenUsage w0.
    - cbn [app complete_all]. eexists. split; [|split].
      + apply bind_Throw. apply completionWithRetry_exhausted.
        intros k. apply Hbad. apply request_prompts_set.
      + cbn [trace]. rewrite network_prompts_repeat.
        now rewrite request_prompts_set.
      + reflexivity.
    - cbn [app complete_all].
      destruct (IH (fun k request Hin =>
                      Hgood k request (or_intror Hin))
                   (acc ++ choices (respond sub))
                   (add_usage tokenUsage (usage (respond sub)))
                   (emit (ENetwork (JS.set "prompt" (JS.of_strings sub)
                                           params)) w0))
        as (w1 & Hrun & Hnet & Hstore).
      exists w1. split; [|split].
      + erewrite bind_Return; cycle 1.
        { apply completionWithRetry_first_try. apply Hgood.
          left. symmetry. apply request_prompts_set. }
        rewrite request_prompts_set, Hflag.
        unfold bind at 1, ret at 1. exact Hrun.
      + rewrite Hnet. unfold emit. cbn [trace].
        rewrite network_prompts_emit, request_prompts_set.
        now rewrite <- app_assoc.
      + rewrite Hstore. reflexivity. }
  destruct (Hall [] empty_usage w) as (w1 & Hrun & Hnet & Hstore).
  exists w1. split; [|split; assumption].
  unfold _generate. fold params. rewrite Hsubs.
  destruct Hstop as [-> | ->]; [|destruct (stop this)];
    apply bind_Throw; exact Hrun.
Qed.

Lemma failing_sub_batch_aborts_witness :
  exists llm : OpenAI,
    OpenAI_constructor (Example.env_of Example2.flaky)
      (with_batchSize (Some 1) (with_maxRetries (Some 2) no_fields)) []
    = inr llm /\
    exists w',
      _generate llm (completionWithRetry (Example.env_of Example2.flaky) llm)
                ["a"; "b"; "c"] None empty_world
      = (Throw "Error: 500", w')
      /\ network_prompts (trace w') = [["a"]; ["b"]; ["b"]].
Proof.
  eexists. split; [reflexivity|].
  match goal with
  | |- exists w', _generate ?llm (completionWithRetry ?env _) ?ps ?s ?w = _
                  /\ _ =>
      destruct (@failing_sub_batch_aborts env llm ps s
                  [["a"]] [["c"]] ["b"] Example2.plain_reply "Error: 500" w)
        as (w' & Hrun & Hnet & _)
  end.
  - reflexivity.
  - now right.
  - reflexivity.
  - intros k request [H|[]]. unfold Example.env_of, Example2.flaky.
    cbn [network]. rewrite <- H. reflexivity.
  - intros k request H. unfold Example.env_of, Example2.flaky.
    cbn [network]. rewrite H. reflexivity.
  - exists w'. split; [exact Hrun|exact Hnet].
Defined.

(** ** Stop lists and the cache key *)

Lemma insert_sorted_same (x y : JS.value) (l1 l2 : list JS.value) :
  same_text x y ->
  Forall2 same_text l1 l2 ->
  Forall2 same_text (JS.insert_sorted x l1) (JS.insert_sorted y l2).
Proof.
  intros Hxy H. induction H as [|a b l1 l2 Hab H IH].
  - cbn [JS.insert_sorted]. constructor; [exact Hxy|constructor].
  - cbn [JS.insert_sorted].
    rewrite (proj1 Hxy), (proj1 Hab).
    destruct (JS.ToString b <=? JS.ToString y)%string.
    + constructor; [exact Hab|exact IH].
    + constructor; [exact Hxy|]. constructor; [exact Hab|exact H].
Qed.

Lemma fold_insert_same (l1 l2 : list JS.value) :
  Forall2 same_text l1 l2 ->
  forall acc1 acc2,
    Forall2 same_text acc1 acc2 ->
    Forall2 same_text
      (fold_left (fun acc x => JS.insert_sorted x acc) l1 acc1)
      (fold_left (fun acc x => JS.insert_sorted x acc) l2 acc2).
Proof.
  induction 1 as [|x y l1 l2 Hxy H IH]; intros acc1 acc2 Hacc.
  - exact Hacc.
  - cbn [fold_left]. apply IH. now apply insert_sorted_same.
Qed.

Lemma filter_arrays (l1 l2 : list JS.value) :
  Forall2 same_text l1 l2 ->
  filter (fun x => negb (JS.is_undefined x)) l1 = l1
  /\ filter JS.is_undefined l1 = []
  /\ filter (fun x => negb (JS.is_undefined x)) l2 = l2
  /\ filter JS.is_undefined l2 = [].
Proof.
  induction 1 as [|x y l1 l2 [_ (a & b & -> & ->)] H (I1 & I2 & I3 & I4)].
  - now repeat split.
  - cbn [filter JS.is_undefined negb]. rewrite I1, I2, I3, I4.
    now repeat split.
Qed.

Lemma sort_same (l1 l2 : list JS.value) :
  Forall2 same_text l1 l2 ->
  Forall2 same_text (JS.sort l1) (JS.sort l2).
Proof.
  intros H. unfold JS.sort.
  destruct (filter_arrays H) as (-> & -> & -> & ->).
  rewrite !app_nil_r. apply fold_insert_same; [exact H|constructor].
Qed.

Lemma ToString_same (l1 l2 : list JS.value) :
  Forall2 same_text l1 l2 ->
  JS.ToString (JS.Arr l1) = JS.ToString (JS.Arr l2).
Proof.
  intros H. cbn [JS.ToString]. f_equal.
  induction H as [|x y l1 l2 [Hxy (a & b & -> & ->)] H IH];
    [reflexivity|].
  cbn [map]. now rewrite IH, Hxy.
Qed.

Lemma entries_same (o : JS.object) :
  Forall2 same_text (JS.entries o) (JS.entries o).
Proof.
  induction o as [|[k v] o IH]; constructor; [|exact IH].
  split; [reflexivity|]. now eexists _, _.
Qed.

Lemma entries_set_same (k : string) (v1 v2 : JS.value) (o : JS.object) :
  JS.ToString (JS.Arr [JS.Str k; v1]) = JS.ToString (JS.Arr [JS.Str k; v2]) ->
  Forall2 same_text (JS.entries (JS.set k v1 o)) (JS.entries (JS.set k v2 o)).
Proof.
  intros Hv. induction o as [|[k' v'] o IH].
  - cbn [JS.set JS.entries map fst snd]. constructor; [|constructor].
    split; [exact Hv|]. now eexists _, _.
  - cbn [JS.set]. destruct (String.eqb_spec k' k) as [->|Hne].
    + cbn [JS.entries map fst snd]. constructor; [|apply entries_same].
      split; [exact Hv|]. now eexists _, _.
    + cbn [JS.entries map fst snd]. constructor; [|exact IH].
      split; [reflexivity|]. now eexists _, _.
Qed.

Lemma stop_entry_text (s : option (list string)) :
  JS.ToString (JS.Arr [JS.Str "stop"; JS.of_option JS.of_strings s])
  = ("stop," ++ joined s)%string.
Proof.
  destruct s as [l|]; [|reflexivity].
  cbn [JS.of_option JS.of_strings JS.ToString map String.concat joined].
  rewrite map_map. cbn [JS.ToString]. now rewrite map_id.
Qed.

Lemma llmStringKey_joined (params : JS.object) (type : string)
      (s1 s2 : option (list string)) :
  joined s1 = joined s2 ->
  llmStringKey params type s1 = llmStringKey params type s2.
Proof.
  intros H. unfold llmStringKey.
  apply ToString_same, sort_same, entries_set_same.
  now rewrite !stop_entry_text, H.
Qed.

(** X19.  The cache key renders the stop list by joining its words with
    commas, so two stop lists with the same joined text (such as
    [["a,b"]] and [["a"; "b"]], or no list and the empty list) give the
    same key.  Hence, under the conditions of X7, after
    [generate(prompts, s1)] has returned, [generate(prompts, s2)] makes no
    network call and returns the generations of the first call, although
    its stop words differ. *)
Theorem stop_lists_with_same_text_share_cache (env : Environment)
        (this : OpenAI) (prompts : list string)
        (s1 s2 : option (list string)) (answer : string -> list Generation)
        (w w' : World) (r : GenerateResult) :
  cache (base this) <> CacheFlag false ->
  1 <= batchSize this ->
  1 <= n this ->
  JS.truthy (JS.get "stream" (invocationParams this)) = false ->
  stop this = None ->
  (forall ps e, start_hook (base this) ps <> Some (Some e)) ->
  (forall out e, end_hook (base this) out <> Some (Some e)) ->
  (forall k request,
      JS.truthy (JS.get "stream" request) = false ->
      exists data,
        network env k request = Return data /\
        map to_generation (choices data)
        = flat_map answer (request_prompts request)) ->
  (forall p, length (answer p) = n this) ->
  joined s1 = joined s2 ->
  OpenAI_generate env this prompts s1 w = (Return r, w') ->
  OpenAI_llmStringKey this s1 = OpenAI_llmStringKey this s2
  /\ exists r2 w2,
      OpenAI_generate env this prompts s2 w' = (Return r2, w2)
      /\ result_generations r2 = result_generations r
      /\ network_prompts (trace w2) = network_prompts (trace w').
Proof.
  intros Hcache Hb Hn Hplain Hstop Hstart Hend Hnet Hanswer Hjoin Hfirst.
  assert (Hkey : OpenAI_llmStringKey this s1 = OpenAI_llmStringKey this s2)
    by now apply llmStringKey_joined.
  split; [exact Hkey|].
  destruct (@generate_cached_path env this prompts s1 answer w
              Hcache Hb Hn Hplain (or_introl Hstop) Hstart Hend Hnet Hanswer)
    as (r0 & w0 & Hrun0 & Hgen0 & _ & Hstored).
  rewrite Hfirst in Hrun0. injection Hrun0 as <- <-.
  destruct (@generate_cached_path env this prompts s2 answer w'
              Hcache Hb Hn Hplain (or_introl Hstop) Hstart Hend Hnet Hanswer)
    as (r2 & w2 & Hrun & Hgen & Hnet2 & _).
  rewrite <- Hkey in Hgen, Hnet2.
  exists r2, w2. split; [exact Hrun|]. split.
  - rewrite Hgen, Hgen0. apply map_ext_in. intros p Hp. f_equal.
    unfold cached_or at 1. now rewrite (Hstored p Hp).
  - rewrite Hnet2.
    assert (Hnone : forall l,
               incl l prompts ->
               missed (store w') (OpenAI_llmStringKey this s1) l = []).
    { unfold missed. induction l as [|p l IH]; intros Hl; [reflexivity|].
      cbn [filter]. rewrite (Hstored p (Hl p (or_introl eq_refl))).
      cbn [is_miss]. apply IH. intros q Hq. apply Hl. now right. }
    now rewrite (Hnone prompts (incl_refl _)), chunkArray_nil, app_nil_r.
Qed.

Lemma stop_lists_with_same_text_share_cache_witness :
  exists llm : OpenAI,
    OpenAI_constructor (Example.env_of Example.echo) no_fields []
    = inr llm /\
    exists (r2 : GenerateResult) (w2 : World),
      OpenAI_generate (Example.env_of Example.echo) llm ["p"]
        (Some ["a"; "b"])
        (snd (OpenAI_generate (Example.env_of Example.echo) llm
                              ["p"] (Some ["a,b"]) empty_world))
      = (Return r2, w2) /\
      result_generations r2 = [Some (Example.echo_answer "p")] /\
      network_prompts (trace w2) = [["p"]].
Proof.
  eexists. split; [reflexivity|].
  match goal with
  | |- exists r2 w2,
         OpenAI_generate ?env ?llm ?ps ?s2 (snd (?first ?w)) = _ /\ _ =>
      destruct (@stop_lists_with_same_text_share_cache
                  env llm ps (Some ["a,b"]) s2 Example.echo_answer
                  w (snd (first w))
                  (match fst (first w) with
                   | Return r => r
                   | _ => {| result_generations := [];
                             result_llmOutput := None |}
                   end))
        as (_ & r2 & w2 & Hrun & Hgen & Hnet)
  end.
  - discriminate.
  - simpl; lia.
  - simpl; lia.
  - reflexivity.
  - reflexivity.
  - intros ps e. discriminate.
  - intros out e. discriminate.
  - intros k request Hplain. eexists. unfold Example.env_of, Example.echo.
    cbn [network]. rewrite Hplain. split; [reflexivity|].
    apply echo_generations.
  - reflexivity.
  - reflexivity.
  - vm_compute. reflexivity.
  - exists r2, w2. split; [exact Hrun|]. split.
    + rewrite Hgen. vm_compute. reflexivity.
    + rewrite Hnet. vm_compute. reflexivity.
Defined.

(** ** What [serialize] shows *)

Lemma keys_set (k k' : string) (v : JS.value) (o : JS.object) :
  In k' (map fst (JS.set k v o)) -> k' = k \/ In k' (map fst o).
Proof.
  induction o as [|[k2 v2] o IH]; cbn [JS.set].
  - intros [<-|[]]. now left.
  - destruct (k2 =? k)%string; cbn [map fst]; intros [<-|H].
    + right. now left.
    + right. now right.
    + right. now left.
    + destruct (IH H) as [->|Hin]; [now left|right; now right].
Qed.

Lemma set_keeps_keys (k k' : string) (v : JS.value) (o : JS.object) :
  In k' (map fst o) -> In k' (map fst (JS.set k v o)).
Proof.
  induction o as [|[k2 v2] o IH]; [intros []|].
  cbn [JS.set]. destruct (k2 =? k)%string; cbn [map fst]; intros [<-|H].
  - now left.
  - now right.
  - now left.
  - right. now apply IH.
Qed.

Lemma nodup_set (k : string) (v : JS.value) (o : JS.object) :
  NoDup (map fst o) -> NoDup (map fst (JS.set k v o)).
Proof.
  induction o as [|[k2 v2] o IH]; cbn [JS.set]; intros H.
  - repeat constructor. intros [].
  - inversion H as [|? ? Hnot Hrest]; subst.
    destruct (String.eqb_spec k2 k) as [->|Hne]; cbn [map fst] in *.
    + now constructor.
    + constructor; [|now apply IH].
      intros Hin. destruct (@keys_set k k2 v o Hin) as [->|Hin'];
        [now elim Hne|now elim Hnot].
Qed.

Lemma nodup_spread (source : JS.object) :
  forall target,
    NoDup (map fst target) -> NoDup (map fst (JS.spread target source)).
Proof.
  unfold JS.spread.
  induction source as [|[k v] source IH]; intros target H; [exact H|].
  cbn [fold_left fst snd]. apply IH. now apply nodup_set.
Qed.

Lemma spread_keeps_keys (k : string) (source : JS.object) :
  forall target,
    In k (map fst target) -> In k (map fst (JS.spread target source)).
Proof.
  unfold JS.spread.
  induction source as [|[k2 v] source IH]; intros target H; [exact H|].
  cbn [fold_left fst snd]. apply IH. now apply set_keeps_keys.
Qed.

Lemma set_fresh (k : string) (v : JS.value) (o : JS.object) :
  ~ In k (map fst o) -> JS.set k v o = o ++ [(k, v)].
Proof.
  induction o as [|[k2 v2] o IH]; intros H; [reflexivity|].
  cbn [JS.set]. cbn [map fst In] in H.
  destruct (String.eqb_spec k2 k) as [->|Hne]; [elim H; now left|].
  cbn [app]. f_equal. apply IH. intros Hin. apply H. now right.
Qed.

Lemma spread_fresh (source : JS.object) :
  forall target,
    NoDup (map fst (target ++ source)) ->
    JS.spread target source = target ++ source.
Proof.
  unfold JS.spread.
  induction source as [|[k v] source IH]; intros target H.
  - cbn [fold_left]. now rewrite app_nil_r.
  - cbn [fold_left fst snd].
    assert (Hk : ~ In k (map fst target)).
    { rewrite map_app in H. apply NoDup_remove_2 in H.
      intros Hin. apply H. apply in_or_app. now left. }
    rewrite (@set_fresh k v target Hk), IH; rewrite <- app_assoc;
      [reflexivity|exact H].
Qed.

Lemma has_property_In (k : string) (o : JS.object) :
  In k (map fst o) -> has_property k o = true.
Proof.
  intros H. unfold has_property. apply existsb_exists.
  apply in_map_iff in H as ([k2 v] & <- & Hin).
  exists (k2, v). split; [exact Hin|apply String.eqb_refl].
Qed.

(** X20.  The object [serialize()] returns for an [OpenAI] instance has
    the type tag ["openai"], whatever [modelKwargs] or the client
    configuration say, and carries the API key of the instance in clear
    text under ["apiKey"]: the key of the fields or of the environment,
    unless [configuration] has its own.  (The cache key is printed from
    this object.) *)
Theorem serialize_exposes_api_key (env : Environment) (fields : OpenAIFields)
        (configuration : JS.object) (this : OpenAI) :
  OpenAI_constructor env fields configuration = inr this ->
  JS.get "_type" (serialize (_identifyingParams this) _llmType)
  = JS.Str "openai"
  /\ (has_property "apiKey" configuration = false ->
      exists key,
        first_of (f_openAIApiKey fields) (OPENAI_API_KEY env) = Some key
        /\ key <> ""
        /\ JS.get "apiKey" (serialize (_identifyingParams this) _llmType)
           = JS.Str key).
Proof.
  intros Hnew. split; [apply get_set_same|].
  intros Hconf.
  assert (Hcc : clientConfig this
                = JS.spread
                    [("apiKey",
                      JS.of_option JS.Str
                        (first_of (f_openAIApiKey fields)
                                  (OPENAI_API_KEY env)))]
                    configuration
                /\ nonempty (first_of (f_openAIApiKey fields)
                                      (OPENAI_API_KEY env)) = true).
  { unfold OpenAI_constructor, BaseLLM_constructor in Hnew.
    destruct (f_concurrency fields) as [[|k]|]; [discriminate| |].
    all: destruct (nonempty (first_of (f_openAIApiKey fields)
                                      (OPENAI_API_KEY env)));
      [|discriminate]; cbn [negb] in Hnew.
    all: destruct (default (f_streaming fields) false
                   && (1 <? default (f_n fields) 1)%nat); [discriminate|].
    all: destruct (default (f_streaming fields) false
                   && (1 <? default (f_bestOf fields) 1)%nat);
      [discriminate|].
    all: injection Hnew as <-; now split. }
  destruct Hcc as [Hcc Hkey].
  destruct (first_of (f_openAIApiKey fields) (OPENAI_API_KEY env))
    as [key|] eqn:Hfirst; [|discriminate].
  exists key. split; [reflexivity|]. split.
  { intros ->. discriminate. }
  unfold serialize.
  rewrite get_set_other by discriminate.
  assert (Hnodup : NoDup (map fst (_identifyingParams this))).
  { unfold _identifyingParams. apply nodup_spread, nodup_spread.
    repeat constructor. intros []. }
  rewrite spread_fresh by exact Hnodup. cbn [app].
  unfold _identifyingParams.
  assert (Hhas : has_property "apiKey" (clientConfig this) = true).
  { rewrite Hcc. apply has_property_In, spread_keeps_keys. now left. }
  rewrite (get_spread_present "apiKey" (clientConfig this) Hhas _ []).
  rewrite spread_fresh
    by (rewrite Hcc; apply nodup_spread; repeat constructor; intros []).
  cbn [app]. rewrite Hcc.
  now rewrite (get_spread_absent "apiKey" configuration Hconf).
Qed.

Lemma serialize_exposes_api_key_witness :
  exists llm : OpenAI,
    OpenAI_constructor (Example.env_of Example.echo) no_fields [] = inr llm
    /\ JS.get "apiKey" (serialize (_identifyingParams llm) _llmType)
       = JS.Str "sk-test".
Proof.
  eexists. split; [reflexivity|].
  match goal with
  | |- JS.get _ (serialize (_identifyingParams ?llm) _) = _ =>
      destruct (proj2 (@serialize_exposes_api_key
                         (Example.env_of Example.echo) no_fields [] llm
                         eq_refl) eq_refl)
        as (key & Hkey & _ & Hget)
  end.
  rewrite Hget. f_equal. vm_compute in Hkey. now injection Hkey as <-.
Defined.
